(* ===== verification/_CoqProject ===== *)
-Q . S2P
Prelude.v
Cells.v
Layouts.v
Coverage.v
Legality.v
Placement.v
JsDate.v
DateString.v
Winner.v
Json.v
Engine.v
Store.v
Game.v
