(* ===== verification/Prelude.v ===== *)
(** * Calendar puzzle board engine: a verification development

    The program is [src/src/stores/game.ts], the Pinia store
    [useGameStore] of a calendar puzzle: a board of cells typed [day],
    [month], [date] or [blocked] on which polyomino pieces are laid until
    only the cells naming a target date stay free. The store has
    - one helper, [findOccupiedCells] (lines 23-38), the coverage
      resolver: the cells a shape matrix covers from an anchor cell, by
      the row-major id formula [row * 9 + col + 1] and [Array.find];
    - the state [initBoardState] / [boardState] (lines 41-44), two arrays
      of cell objects, and the getter [getboardState];
    - the actions [setboardState] (copy a layout into both arrays),
      [canPlay] (legality), [placePiece] / [removePiece] (write
      [isOccupied] and [pieceId] through the objects the resolver
      returns), [checkWinner] (the win test for a date) and [resetGame]
      (copy the initial array back), all built on the resolver. The copies
      are [JSON.parse(JSON.stringify(...))].
    The UI (not in the repository) calls the actions; only the protocol
    it is expected to follow is modelled.

    ** Files, in dependency order
    The component files [Coverage], [Legality], [Placement], [Winner],
    [JsDate], [DateString] (its parser) and [Store] each hold one
    [Module] of the file's name, so that the snapshot actions
    ([Placement.placePiece]) and their heap versions
    ([Store.placePiece]) keep the source's names side by side.
    - [Prelude]: JavaScript value semantics ([===] as the class
      [JsStrictEq] with its law, truthiness, array indexing), the hint
      databases [calendar] / [calendar_rw], generic lemmas on [find],
      [filter] and [omap].
    - [Cells]: [interface Cell] and [interface Piece] as [Cell.t] and
      [Piece.t], the lookup [find_by_id] ([boardState.find(cell =>
      cell.id === k)]), [boardCols] and the formula [cell_index] with its
      inverse [cell_coords], the write [set_occupancy], its pointwise form
      [mark_ids], and well-formed layouts [layout_wf].
    - [Layouts]: boards for the witnesses: a generator as the UI builds
      layouts and a 6 x 9 calendar board.
    - [Coverage]: [findOccupiedCells] as the two [forEach] loops
      [scan_row] / [scan_shape], written once over an abstract lookup so
      that the heap store reuses them; the reference [covered_ids].
    - [Legality]: [canPlay] with its early-returning loop [all_free].
    - [Placement]: [placePiece] and [removePiece] on an array of cell
      values; a write goes to the first cell with the found id
      ([update_first]), which is the object [find] returned.
    - [JsDate]: [Module JsDate], the built-in [Date] after ECMA-262
      §21.4.1: time values (milliseconds, [None] for [NaN]), [Day],
      [WeekDay], [DayFromYear], [DaysInYear], [MakeDay], [MakeDate],
      [TimeClip], [LocalTime] and [UTC] for a host time zone [TimeZone]
      (an offset and its changes, daylight saving time included), the
      executable [YearFromDay] (an estimate corrected by one year) and the
      tables of [MonthFromTime] / [DateFromTime]; the getters
      [date_parts] of lines 98-100 with their record [DateParts].
    - [DateString]: [new Date(solveDate)] (line 97): [Module DateString]
      parses the Date Time String Format ([parse]: date-only forms as UTC,
      date-time forms as local time or with an offset); [new_Date] on
      [solveDate: string | Date] ([DateArg]); [solveDateParts], the
      date's three getters as [checkWinner] reads them.
    - [Winner]: [checkWinner z board solveDate], the whole action from
      [new Date(solveDate)] to the three comparisons; [number_toString]
      is [Number.prototype.toString] on integers.
    - [Json]: the value layer of the JSON round trip of a cell.
    - [Engine]: the interface of the store, the class [BoardEngine] with
      its laws [BoardEngineLaws] (each action acts on [getboardState] as
      the snapshot definitions do; only [setboardState] changes the
      initial snapshot), and the sequences of calls [action] with their
      snapshot semantics [snapshot_run].
    - [Store]: [Module Store], the store as a heap [gmap Z Cell.t] of
      cell objects with the two arrays as lists of references: [find_ref],
      the resolver on references, [write] through references, [alloc] for
      the JSON copies; its invariant [Store.wf] (no reference twice in the
      two arrays, none dangling, allocation fresh); the instances
      [store_engine] / [store_engine_laws] discharge the interface.
    - [Game]: the UI protocol [play] as a step relation over any lawful
      engine, and the invariant [tiling] of a play session.

    ** What the theorems show
    - Coverage: the loops compute [omap find_by_id covered_ids]
      ([findOccupiedCells_reference]); on a complete well-formed grid a
      piece that fits covers exactly its cells
      ([findOccupiedCells_complete]); a piece overhanging the right edge
      wraps onto the next row ([findOccupiedCells_wraps_right_edge]).
    - Legality: [canPlay_spec] characterises [canPlay] over the offsets
      (off-grid entries are ignored); an occupied or blocked anchor is
      refused when the top-left entry is 1 ([canPlay_occupied_anchor]);
      [canPlay] reads only the cells it covers, so an uncovered occupied
      anchor does not make a placement illegal
      ([canPlay_reads_covered_only]).
    - Placement: the functional behaviour of both actions on every
      branch ([placePiece_spec], [removePiece_spec]); both keep every
      cell's skeleton and flag/owner agreement ([place_remove_invariant]);
      the round trip of §8 under [canPlay] ([place_remove_roundtrip]); a
      cell behind an earlier cell with its id is never written
      ([duplicate_id_never_written]); every sequence of legal placements
      that each cover a cell is finite, the number of free cells being
      the measure ([legal_placements_terminate]).
    - Date: west of UTC the getters of a date-only string give the
      previous day ([date_only_shows_previous_day]) while the local form
      [...T00:00] gives the day itself, also on a day whose midnight a
      change of offset skips ([local_midnight_fields]). They rest on the
      library lemmas of [JsDate] and [DateString] about the built-in
      ([YearFromTime_largest], [MakeDate_fields], [parse_iso_date]).
    - Winner: [checkWinner_spec] (the [> 2] gate and the truthiness tests
      never decide the result); [checkWinner] is complete for the spec's
      solved state ([checkWinner_complete]) but not sound for it: it
      reads only the first free cell of each type, so uncovering cells
      behind those keeps a win ([checkWinner_ignores_later_cells]); the
      name lookups are never [undefined] ([checkWinner_names_defined]);
      west of UTC a date-only target is checked as the previous day
      ([checkWinner_date_only_west]).
    - Store: the heap store refines the snapshot semantics over every
      sequence of calls, keeping its no-aliasing invariant
      ([store_refines_snapshots]); the getter hands out the live array,
      so a caller's write through it changes the current board in place
      ([getter_aliases_live_board]), yet no sequence of calls and such
      writes alters what [resetGame] restores ([reset_target_invariant],
      §8 of the spec).
    - Session: in every session that follows the protocol, no cell is
      covered by two pieces ([session_no_overlap]), occupancy and owner
      are exactly those of the placed pieces
      ([session_occupancy_exact]), and the board can always be cleared
      by [removePiece] calls alone ([session_can_clear]).
    - Examples: evaluations on the calendar board document the findings
      on concrete inputs (Scenario D, an empty board winning, the first
      match, an overlap breaking the round trip, a duplicated id, a
      partly covered piece, an impossible date rolling over).

    ** Modelling choices
    - JavaScript numbers are [Z]: ids, indices and shape entries are
      small integers, where double arithmetic is exact; no width bound is
      involved. Every loop of the source is a [forEach], [for ... of],
      [find] or [filter] over a finite array, modelled by structural
      recursion: no fuel and no termination measure are needed.
    - [console.log] calls are omitted (output only). Pinia's reactivity
      and [defineStore] are not modelled: the store is a plain state.
    - [Date] is a built-in the source calls; it is modelled after
      ECMA-262, not after an engine. The host's time zone is a parameter
      [z] of [checkWinner]: a base offset and a sorted list of changes of
      offset, which is what a time-zone database gives for the years a
      date can name (daylight saving time and rule changes; a zone's
      offsets stay within a day of UTC and its changes a day apart,
      [zone_wf]); the zone is data, not read from the host. Strings
      outside the Date Time String Format, which ECMA-262 leaves to the
      implementation, are read as [NaN]. The calendar proofs need no
      search over dates: the year estimate is bounded by [lia] after
      [Z.div_mod_to_equations], and the one fact checked by evaluation
      ([DayFromYear_succ]) is checked on one 400-year cycle, which the
      closed form repeats ([periodic_all]).
    - The layout the UI supplies and the UI itself are not in the
      repository: layouts are inputs (with [layout_wf] / [fresh_layout]
      where a theorem needs them), the UI is the protocol [play].

    ** Not modelled, and why
    - Pinia's [defineStore] and its reactivity: library plumbing that
      only schedules re-rendering; it computes no value the actions read
      or return. The store is its plain state; the one property of the
      library the code relies on, that the getter returns the state's own
      array, is modelled ([getboardState_ref]).
    - [console.log] (lines 24, 61, 111): output only.
    - The UI (drag and drop, rendering, the layout data): not in the
      repository; only the call protocol it is expected to follow
      ([play], [caller_run]) is modelled, and layouts are inputs.
    - The engine-specific parsing of date strings outside the Date Time
      String Format, which ECMA-262 leaves to the implementation: no
      single behaviour to model; such strings are read as [NaN].
    - The layout validation §7 recommends for a hardened version: it is
      not code of the repository ([placePiece_duplicate_id] shows what
      its absence allows). *)

From Stdlib Require Export ZArith DecimalString.
From stdpp Require Export base list option strings gmap.

(** * Prelude: JavaScript value semantics shared by every component

    This file holds what the TypeScript store relies on from the language:
    strict equality [===] on numbers, strings and booleans, truthiness of a
    string, reading an array at a numeric index, and the generic lemmas on
    [Array.prototype.find] / [filter] (Stdlib's [List.find] and
    [List.filter]) that the components share. *)

Declare Scope calendar_scope.
Delimit Scope calendar_scope with cal.

Create HintDb calendar discriminated.
Create Rewrite HintDb calendar_rw.

(** ** Strict equality [===]

    [js_strict_eq] is the boolean [===] of the source on one value type;
    the class law says it decides Leibniz equality, which is what [===]
    does on numbers that are not NaN, on strings and on booleans. *)

Class JsStrictEq (A : Type) := js_strict_eq : A → A → bool.
Global Arguments js_strict_eq {_ _} !_ !_ /.

Class JsStrictEqLaw (A : Type) `{JsStrictEq A} :=
  js_strict_eq_true : ∀ x y : A, js_strict_eq x y = true ↔ x = y.

Notation "x === y" := (js_strict_eq x y) (at level 70, no associativity)
  : calendar_scope.
Open Scope calendar_scope.

#[export] Instance Z_js_strict_eq : JsStrictEq Z := Z.eqb.
#[export] Instance Z_js_strict_eq_law : JsStrictEqLaw Z.
Proof. intros x y. apply Z.eqb_eq. Qed.

#[export] Instance string_js_strict_eq : JsStrictEq string := String.eqb.
#[export] Instance string_js_strict_eq_law : JsStrictEqLaw string.
Proof. intros x y. apply String.eqb_eq. Qed.

#[export] Instance bool_js_strict_eq : JsStrictEq bool := Bool.eqb.
#[export] Instance bool_js_strict_eq_law : JsStrictEqLaw bool.
Proof. intros x y. apply Bool.eqb_true_iff. Qed.

Section strict_eq.
Context `{JsStrictEqLaw A}.

Lemma js_strict_eq_refl (x : A) : (x === x) = true.
Proof. by apply js_strict_eq_true. Qed.

Lemma js_strict_eq_false (x y : A) : (x === y) = false ↔ x ≠ y.
Proof.
  rewrite <- not_true_iff_false, js_strict_eq_true. done.
Qed.

Lemma js_strict_eq_reflect (x y : A) : reflect (x = y) (x === y).
Proof. apply iff_reflect. symmetry. apply js_strict_eq_true. Qed.
End strict_eq.

#[export] Hint Rewrite @js_strict_eq_refl : calendar_rw.

(** [js_eq] turns every [===] hypothesis into an equation or a
    disequation and substitutes. *)
Ltac js_eq :=
  repeat match goal with
  | H : (_ === _) = true |- _ => apply js_strict_eq_true in H; subst
  | H : (_ === _) = false |- _ => apply js_strict_eq_false in H
  end.

(** ** Truthiness of a string and array indexing *)

(** [if (s)] on a string: every string but the empty string is truthy. *)
Definition js_truthy_string (s : string) : bool := negb (String.eqb s EmptyString).

(** [arr[i]] on a JavaScript array with an integer index: [undefined]
    (here [None]) outside [0 .. length - 1]. *)
Definition js_index {A} (l : list A) (i : Z) : option A :=
  if (0 <=? i)%Z then l !! Z.to_nat i else None.

Lemma js_index_Some {A} (l : list A) i x :
  js_index l i = Some x ↔ (0 ≤ i)%Z ∧ l !! Z.to_nat i = Some x.
Proof.
  unfold js_index. destruct (Z.leb_spec 0 i); split; intros; naive_solver lia.
Qed.

(** ** [Array.prototype.find] and [filter] *)

Section find_filter.
Context {A : Type}.
Implicit Types (f g : A → bool) (l : list A).

(** [find] returns the first element satisfying the predicate. *)
Lemma find_Some_split f l x :
  List.find f l = Some x ↔
  ∃ l1 l2, l = l1 ++ x :: l2 ∧ f x = true ∧ Forall (λ y, f y = false) l1.
Proof.
  split.
  - induction l as [|y l IH]; simpl; [done|].
    destruct (f y) eqn:Hy.
    + intros [= ->]. exists [], l. auto.
    + intros (l1 & l2 & -> & Hx & Hl1)%IH.
      exists (y :: l1), l2. auto.
  - intros (l1 & l2 & -> & Hx & Hl1).
    induction Hl1 as [|y l1 Hy _ IH]; simpl; [by rewrite Hx|].
    by rewrite Hy.
Qed.

Lemma find_app f l1 l2 :
  List.find f (l1 ++ l2) =
  match List.find f l1 with Some x => Some x | None => List.find f l2 end.
Proof. induction l1 as [|y l1 IH]; simpl; [done|]. by destruct (f y). Qed.

Lemma find_filter f g l :
  List.find f (List.filter g l) = List.find (λ x, g x && f x) l.
Proof.
  induction l as [|y l IH]; simpl; [done|].
  destruct (g y); simpl; [destruct (f y)|]; done.
Qed.

Lemma find_ext f g l :
  (∀ x, x ∈ l → f x = g x) → List.find f l = List.find g l.
Proof.
  induction l as [|y l IH]; intros Hfg; simpl; [done|].
  rewrite Hfg; [|by left]. destruct (g y); [done|].
  apply IH. intros x Hx. apply Hfg. by right.
Qed.

(** Replacing an element [find] rejects by another it rejects, or one
    behind an element it accepts, does not change the result. *)
Lemma find_insert_false f l i x y :
  l !! i = Some y → f x = false → f y = false → List.find f (<[i:=x]> l) = List.find f l.
Proof.
  revert i. induction l as [|z l IH]; intros [|i]; simpl; intros Hi Hx Hy; try done.
  - injection Hi as ->. by rewrite Hx, Hy.
  - destruct (f z); [done|]. by apply IH.
Qed.

Lemma find_insert_after f l i j x d :
  (j < i)%nat → l !! j = Some d → f d = true → List.find f (<[i:=x]> l) = List.find f l.
Proof.
  revert i j. induction l as [|z l IH]; intros [|i] [|j]; simpl; intros Hji Hj Hd;
    try done; try lia.
  - injection Hj as ->. by rewrite Hd.
  - destruct (f z); [done|]. apply (IH i j); [lia|done|done].
Qed.

Lemma find_elem_of f l x : List.find f l = Some x → x ∈ l ∧ f x = true.
Proof. intros [Hin Hf]%find_some. by rewrite list_elem_of_In. Qed.

(** [find] returns the only element that satisfies the test. *)
Lemma find_unique f l x :
  x ∈ l → f x = true → (∀ y, y ∈ l → f y = true → y = x) → List.find f l = Some x.
Proof.
  induction l as [|a l IH]; intros Hx Hfx Hu; [set_solver|]. simpl.
  destruct (f a) eqn:Ha.
  - f_equal. apply Hu; [set_solver|done].
  - apply elem_of_cons in Hx as [->|Hx]; [congruence|].
    apply IH; [done|done|intros y Hy; apply Hu; set_solver].
Qed.

Lemma elem_of_filter_bool g l x : x ∈ List.filter g l ↔ x ∈ l ∧ g x = true.
Proof. rewrite !list_elem_of_In, filter_In. done. Qed.

(** Three elements of a list, satisfying pairwise exclusive predicates,
    are three distinct entries: the list has at least three. *)
Lemma length_ge_3_of_exclusive (p q r : A → bool) l x y z :
  x ∈ l → y ∈ l → z ∈ l →
  p x = true → q y = true → r z = true →
  (∀ w, p w = true → q w = false) →
  (∀ w, p w = true → r w = false) →
  (∀ w, q w = true → r w = false) →
  (3 ≤ length l)%nat.
Proof.
  intros Hx Hy Hz Px Qy Rz Hpq Hpr Hqr.
  assert (x ≠ y) by (intros ->; by rewrite Hpq in Qy).
  assert (x ≠ z) by (intros ->; by rewrite Hpr in Rz).
  assert (y ≠ z) by (intros ->; by rewrite Hqr in Rz).
  change 3%nat with (length [x; y; z]).
  apply NoDup_incl_length.
  - repeat constructor; set_solver.
  - intros w Hw. rewrite <- list_elem_of_In in *. set_solver.
Qed.
End find_filter.

#[export] Hint Resolve find_elem_of : calendar.

(** ** [omap]: the cells a list of ids finds *)

Section omap.
Context {A B : Type}.

Lemma omap_cons (f : A → option B) x l :
  omap f (x :: l) = match f x with Some y => y :: omap f l | None => omap f l end.
Proof. done. Qed.

Lemma omap_fmap_result (f : A → option B) (g : B → B) (l : list A) :
  omap (λ x, g <$> f x) l = g <$> omap f l.
Proof.
  induction l as [|x l IH]; [done|]. rewrite !omap_cons.
  destruct (f x); simpl; by rewrite IH.
Qed.

Lemma length_omap_le (f : A → option B) (l : list A) :
  (length (omap f l) ≤ length l)%nat.
Proof.
  induction l as [|x l IH]; [done|]. rewrite omap_cons.
  destruct (f x); simpl; lia.
Qed.

(** When every element finds a value that maps back to it, [omap]
    loses nothing. *)
Lemma fmap_omap_inverse (f : A → option B) (g : B → A) (l : list A) :
  (∀ x, x ∈ l → ∃ y, f x = Some y ∧ g y = x) → g <$> omap f l = l.
Proof.
  induction l as [|x l IH]; intros Hl; [done|]. rewrite omap_cons.
  destruct (Hl x) as (y & -> & <-); [by left|]. simpl.
  f_equal. apply IH. intros z Hz. apply Hl. by right.
Qed.
End omap.

(** [vm_decide] closes a decidable proposition on concrete data by
    evaluating its decision procedure. *)
Ltac vm_decide := apply (bool_decide_unpack _); vm_compute; reflexivity.

(** ** Finite checks and periodic properties on integers *)

(** [check_from f z n]: [f] holds on [z], [z + 1], ..., [z + n - 1]. *)
Fixpoint check_from (f : Z → bool) (z : Z) (n : nat) : bool :=
  match n with
  | O => true
  | S n => f z && check_from f (z + 1) n
  end.

Lemma check_from_spec f z n :
  check_from f z n = true → ∀ i, (z ≤ i < z + Z.of_nat n)%Z → f i = true.
Proof.
  revert z. induction n as [|n IH]; intros z Hc i Hi; simpl in *; [lia|].
  apply andb_true_iff in Hc as [Hz Hc].
  destruct (decide (i = z)) as [->|]; [done|]. apply (IH (z + 1)%Z); [done|lia].
Qed.

Lemma check_from_decide (P : Z → Prop) `{∀ z, Decision (P z)} z n :
  check_from (λ i, bool_decide (P i)) z n = true → ∀ i, (z ≤ i < z + Z.of_nat n)%Z → P i.
Proof. intros Hc i Hi. exact (bool_decide_eq_true_1 _ (check_from_spec _ _ _ Hc i Hi)). Qed.

(** A property with period [p] that holds on one window of [p]
    consecutive integers holds everywhere. *)
Lemma periodic_all (p b : Z) (P : Z → Prop) :
  (0 < p)%Z → (∀ z, P z ↔ P (z + p)%Z) → (∀ r, (b ≤ r < b + p)%Z → P r) → ∀ z, P z.
Proof.
  intros Hp Hper Hbase z.
  assert (Hk : ∀ k r, (b ≤ r < b + p)%Z → P (r + k * p)%Z).
  { intros k r Hr. revert k. apply Z.peano_ind; [|intros k IH..].
    - rewrite Z.mul_0_l, Z.add_0_r. auto.
    - replace (r + Z.succ k * p)%Z with (r + k * p + p)%Z by lia. by apply (Hper (r + k * p)%Z).
    - apply (Hper (r + Z.pred k * p)%Z). by replace (r + Z.pred k * p + p)%Z with (r + k * p)%Z by lia. }
  pose proof (Z.div_mod (z - b) p ltac:(lia)).
  pose proof (Z.mod_pos_bound (z - b) p Hp).
  replace z with (b + (z - b) mod p + ((z - b) / p) * p)%Z by nia.
  apply Hk. lia.
Qed.

(** ** Strings *)

Lemma string_app_cons a (s1 s2 : string) : String a s1 +:+ s2 = String a (s1 +:+ s2).
Proof. reflexivity. Qed.

Lemma string_app_assoc (s1 s2 s3 : string) : (s1 +:+ s2) +:+ s3 = s1 +:+ (s2 +:+ s3).
Proof. induction s1 as [|a s1 IH]; [done|]. by rewrite !string_app_cons, IH. Qed.

Lemma string_app_nil_r (s : string) : s +:+ EmptyString = s.
Proof. induction s as [|a s IH]; [done|]. by rewrite string_app_cons, IH. Qed.
