(* ===== verification/Cells.v ===== *)
(** * Cells, pieces and boards: the data of [game.ts]

    The interfaces [Cell] and [Piece] (src/src/stores/game.ts, lines 3-21)
    as records, a board as the array of cells the store holds, the lookup
    [boardState.find(cell => cell.id === k)] used by every action, the
    row-major id formula of line 32 with its inverse, and the occupancy
    update the placement and removal actions apply to a cell. *)

From S2P Require Import Prelude.

Open Scope Z_scope.

(** ** Data *)

Module Cell.
(** [interface Cell]. JavaScript numbers are modelled as [Z]: ids, row
    and column indices are small integers in every layout; the pixel
    attributes [x], [y], [width], [height] ([number | undefined]) are
    carried and never inspected. [pieceId : number | null] is an
    [option Z]. *)
Record t := mk {
  id : Z;
  x : option Z;
  y : option Z;
  type : string;
  value : string;
  rowIndex : Z;
  colIndex : Z;
  width : option Z;
  height : option Z;
  isOccupied : bool;
  pieceId : option Z
}.
End Cell.

Module Piece.
(** [interface Piece]: [anchorCell?: number] is an [option Z]. *)
Record t := mk {
  id : Z;
  shape : list (list Z);
  anchorCell : option Z
}.
End Piece.

#[export] Instance cell_eq_dec : EqDecision Cell.t.
Proof. solve_decision. Defined.

#[export] Instance piece_eq_dec : EqDecision Piece.t.
Proof. solve_decision. Defined.

(** A board snapshot: the array [Cell[]] of the store, in array order. *)
Abbreviation Board := (list Cell.t).

(** The [type] strings the store compares against. *)
Definition blocked : string := "blocked".
Definition day : string := "day".
Definition month : string := "month".
Definition date : string := "date".

(** ** Lookup by id: [boardState.find(cell => cell.id === k)] *)

Definition find_by_id (board : Board) (k : Z) : option Cell.t :=
  List.find (λ c, Cell.id c === k) board.

(** ** The row-major id formula (line 32) *)

(** [const boardCols = 9] (line 26). *)
Definition boardCols : Z := 9.

(** [newIndex[0] * boardCols + newIndex[1] + 1]. *)
Definition cell_index (r c : Z) : Z := r * boardCols + c + 1.

(** The inverse the formula is meant to have: an id to its row and
    column. *)
Definition cell_coords (k : Z) : Z * Z :=
  ((k - 1) / boardCols, (k - 1) mod boardCols).

(** ** Occupancy updates (lines 79-80 and 91-92) *)

(** [cell.isOccupied = occ; cell.pieceId = pid]. *)
Definition set_occupancy (occ : bool) (pid : option Z) (c : Cell.t) : Cell.t :=
  Cell.mk (Cell.id c) (Cell.x c) (Cell.y c) (Cell.type c) (Cell.value c)
    (Cell.rowIndex c) (Cell.colIndex c) (Cell.width c) (Cell.height c)
    occ pid.

(** The part of a cell the actions never write: everything but
    [isOccupied] and [pieceId]. *)
Definition skeleton (c : Cell.t) : Cell.t := set_occupancy false None c.

(** The flag and the owner agree: a cell is occupied exactly when it
    names a piece. *)
Definition cell_consistent (c : Cell.t) : bool :=
  Bool.eqb (Cell.isOccupied c) (bool_decide (is_Some (Cell.pieceId c))).

(** The board with every cell whose id is in [ids] set to [(occ, pid)]:
    the pointwise form of the placement and removal loops. *)
Definition mark_ids (occ : bool) (pid : option Z) (ids : list Z) (board : Board) : Board :=
  (λ c, if bool_decide (Cell.id c ∈ ids) then set_occupancy occ pid c else c) <$> board.

(** ** A layout with well-formed ids *)

(** Every cell sits in one of the [boardCols] columns, its id is the
    formula of its coordinates, and no two cells share an id. *)
Definition layout_wf (board : Board) : Prop :=
  Forall (λ c, 0 ≤ Cell.rowIndex c ∧ 0 ≤ Cell.colIndex c < boardCols ∧
               Cell.id c = cell_index (Cell.rowIndex c) (Cell.colIndex c)) board ∧
  NoDup (Cell.id <$> board).

(** ** Lemmas *)

Lemma set_occupancy_id occ pid c : Cell.id (set_occupancy occ pid c) = Cell.id c.
Proof. done. Qed.

Lemma skeleton_set_occupancy occ pid c : skeleton (set_occupancy occ pid c) = skeleton c.
Proof. done. Qed.

Lemma set_occupancy_skeleton occ pid c :
  set_occupancy occ pid (skeleton c) = set_occupancy occ pid c.
Proof. done. Qed.

Lemma skeleton_id c : Cell.id (skeleton c) = Cell.id c.
Proof. done. Qed.

Lemma set_occupancy_consistent occ pid c :
  cell_consistent (set_occupancy occ pid c) = Bool.eqb occ (bool_decide (is_Some pid)).
Proof. done. Qed.

Lemma set_occupancy_same c :
  set_occupancy (Cell.isOccupied c) (Cell.pieceId c) c = c.
Proof. by destruct c. Qed.

#[export] Hint Rewrite set_occupancy_id skeleton_set_occupancy
  set_occupancy_skeleton skeleton_id set_occupancy_same : calendar_rw.

Lemma find_by_id_Some board k c :
  find_by_id board k = Some c → c ∈ board ∧ Cell.id c = k.
Proof.
  unfold find_by_id. intros [? Hk]%find_elem_of. split; [done|]. by apply (js_strict_eq_true (A:=Z)).
Qed.

(** Lookup by id only reads ids: boards with the same ids in the same
    order find cells at the same positions. *)
Lemma find_by_id_map_skeleton board k :
  find_by_id (skeleton <$> board) k = skeleton <$> find_by_id board k.
Proof.
  unfold find_by_id. induction board as [|c board IH]; simpl; [done|].
  by destruct (Cell.id c === k).
Qed.

Lemma find_by_id_elem_of board k c :
  NoDup (Cell.id <$> board) → c ∈ board → Cell.id c = k → find_by_id board k = Some c.
Proof.
  unfold find_by_id. intros Hnd Hc <-.
  induction board as [|c' board IH]; [set_solver|]; simpl.
  apply NoDup_cons in Hnd as [Hnin Hnd].
  apply elem_of_cons in Hc as [<-|Hc]; [by rewrite js_strict_eq_refl|].
  destruct (js_strict_eq_reflect (Cell.id c') (Cell.id c)) as [Heq|]; [|by apply IH].
  exfalso. apply Hnin. rewrite Heq. by apply list_elem_of_fmap_2.
Qed.

(** On a well-formed layout the id of a cell is its coordinates. *)
Lemma cell_index_inj r1 c1 r2 c2 :
  0 ≤ c1 < boardCols → 0 ≤ c2 < boardCols →
  cell_index r1 c1 = cell_index r2 c2 → r1 = r2 ∧ c1 = c2.
Proof. unfold cell_index, boardCols. intros. lia. Qed.

#[export] Instance layout_wf_dec board : Decision (layout_wf board).
Proof. unfold layout_wf. apply _. Defined.

(** A cell of a well-formed layout is found by its id. *)
Lemma layout_wf_find board c :
  layout_wf board → c ∈ board → find_by_id board (Cell.id c) = Some c.
Proof. intros [_ Hnd] Hc. by apply find_by_id_elem_of. Qed.

Lemma layout_wf_cell board c :
  layout_wf board → c ∈ board →
  0 ≤ Cell.rowIndex c ∧ 0 ≤ Cell.colIndex c < boardCols ∧
  Cell.id c = cell_index (Cell.rowIndex c) (Cell.colIndex c).
Proof. intros [Hf _] Hc. rewrite Forall_forall in Hf. by apply Hf. Qed.

(** ** Boards with the same skeleton *)

Lemma find_by_id_mark_ids occ pid ids (board : Board) k :
  find_by_id (mark_ids occ pid ids board) k =
  (λ c, if bool_decide (Cell.id c ∈ ids) then set_occupancy occ pid c else c)
    <$> find_by_id board k.
Proof.
  unfold find_by_id, mark_ids. induction board as [|c board IH]; [done|].
  rewrite fmap_cons. simpl. case_bool_decide as Hin; simpl; destruct (Cell.id c === k); simpl;
    [by rewrite bool_decide_true|exact IH|by rewrite bool_decide_false|exact IH].
Qed.

Lemma mark_ids_not_elem_of occ pid ids (board : Board) :
  (∀ c, c ∈ board → Cell.id c ∉ ids) → mark_ids occ pid ids board = board.
Proof.
  intros Hb. unfold mark_ids. rewrite <- (list_fmap_id board) at 2.
  apply list_fmap_ext. intros i c Hc%list_elem_of_lookup_2. simpl.
  case_bool_decide; [|done]. by destruct (Hb c).
Qed.

Lemma skeleton_mark_ids occ pid ids board :
  skeleton <$> mark_ids occ pid ids board = skeleton <$> board.
Proof.
  unfold mark_ids. rewrite <- list_fmap_compose. apply list_fmap_ext.
  intros _ c _. simpl. by case_bool_decide.
Qed.

Lemma ids_skeleton (board : Board) : Cell.id <$> (skeleton <$> board) = Cell.id <$> board.
Proof. rewrite <- list_fmap_compose. done. Qed.

Lemma Forall_skeleton (P : Cell.t → Prop) (b1 b2 : Board) :
  (∀ c, P (skeleton c) ↔ P c) →
  skeleton <$> b1 = skeleton <$> b2 → Forall P b1 → Forall P b2.
Proof.
  intros HP Hsk H1. apply Forall_forall. intros c Hc. apply HP.
  assert (skeleton c ∈ skeleton <$> b1) as (c' & -> & Hc')%list_elem_of_fmap
    by (rewrite Hsk; by apply list_elem_of_fmap_2).
  apply HP. by eapply Forall_forall in H1.
Qed.

(** Well-formedness reads only the skeleton. *)
Lemma layout_wf_skeleton (b1 b2 : Board) :
  skeleton <$> b1 = skeleton <$> b2 → layout_wf b1 → layout_wf b2.
Proof.
  intros Hsk [Hf Hnd]. split.
  - eapply Forall_skeleton; [|done|done]. intros c. reflexivity.
  - by rewrite <- ids_skeleton, <- Hsk, ids_skeleton.
Qed.

(** ** The id formula *)

(** The formula [rowIndex * 9 + colIndex + 1] is a bijection from the
    positions of the 9 columns onto the ids: [cell_coords] inverts it on
    every position whose column is in [0 .. 8], and every id is the
    formula of its coordinates, which lie in those columns. *)
Theorem cell_index_roundtrip r c k :
  (0 ≤ c < boardCols → cell_coords (cell_index r c) = (r, c)) ∧
  cell_index (cell_coords k).1 (cell_coords k).2 = k ∧
  0 ≤ (cell_coords k).2 < boardCols.
Proof.
  unfold cell_coords, cell_index, boardCols. split_and!.
  - intros Hc. f_equal.
    + replace (r * 9 + c + 1 - 1) with (c + r * 9) by lia. rewrite Z.div_add by lia.
      rewrite Z.div_small by lia. lia.
    + replace (r * 9 + c + 1 - 1) with (c + r * 9) by lia. rewrite Z.mod_add by lia.
      by apply Z.mod_small.
  - simpl. pose proof (Z.div_mod (k - 1) 9 ltac:(lia)). lia.
  - simpl. pose proof (Z.mod_pos_bound (k - 1) 9 ltac:(lia)). lia.
  - simpl. pose proof (Z.mod_pos_bound (k - 1) 9 ltac:(lia)). lia.
Qed.

