(* ===== verification/Layouts.v ===== *)
(** * Layouts: boards the witnesses evaluate on

    The store receives its layout from the UI ([setboardState]); the
    repository does not ship it under src/. This file builds layouts as
    the UI does, one row of [(type, value)] pairs per grid row, ids by
    the row-major formula, every cell free, and a 6 x 9 calendar board
    with the 12 months, the 7 weekdays, the dates 1-31 and four blocked
    cells. *)

From S2P Require Import Prelude Cells.

Open Scope Z_scope.

Definition mk_cell (r c : Z) (ty v : string) : Cell.t :=
  Cell.mk (cell_index r c) None None ty v r c None None false None.

Fixpoint mk_row (r c : Z) (row : list (string * string)) : Board :=
  match row with
  | [] => []
  | (ty, v) :: row' => mk_cell r c ty v :: mk_row r (c + 1) row'
  end.

Fixpoint mk_layout_from (r : Z) (rows : list (list (string * string))) : Board :=
  match rows with
  | [] => []
  | row :: rows' => mk_row r 0 row ++ mk_layout_from (r + 1) rows'
  end.

Definition mk_layout (rows : list (list (string * string))) : Board :=
  mk_layout_from 0 rows.

Definition cells_of (ty : string) (vs : list string) : list (string * string) :=
  (λ v, (ty, v)) <$> vs.

(** The calendar board:
<<
    JAN FEB MAR APR MAY JUN SUN MON TUE
    JUL AUG SEP OCT NOV DEC WED THU FRI
     1   2   3   4   5   6   7   8   9
    10  11  12  13  14  15  16  17  18
    19  20  21  22  23  24  25  26  27
    28  29  30  31  SAT  #   #   #   #
>> *)
Definition calendar_board : Board :=
  mk_layout
    [ cells_of month ["JAN"; "FEB"; "MAR"; "APR"; "MAY"; "JUN"] ++
      cells_of day ["SUN"; "MON"; "TUE"];
      cells_of month ["JUL"; "AUG"; "SEP"; "OCT"; "NOV"; "DEC"] ++
      cells_of day ["WED"; "THU"; "FRI"];
      cells_of date ["1"; "2"; "3"; "4"; "5"; "6"; "7"; "8"; "9"];
      cells_of date ["10"; "11"; "12"; "13"; "14"; "15"; "16"; "17"; "18"];
      cells_of date ["19"; "20"; "21"; "22"; "23"; "24"; "25"; "26"; "27"];
      cells_of date ["28"; "29"; "30"; "31"] ++ cells_of day ["SAT"] ++
      cells_of blocked [EmptyString; EmptyString; EmptyString; EmptyString] ].

Lemma calendar_board_wf : layout_wf calendar_board.
Proof. apply (bool_decide_unpack _). vm_compute. reflexivity. Qed.
