(* ===== verification/Coverage.v ===== *)
(** * Coverage resolver: [findOccupiedCells] (game.ts, lines 23-38)

    The two nested [forEach] loops over the shape matrix, each pushing the
    cell found for a [1] entry, are [scan_row] and [scan_shape]. They are
    written once over an abstract lookup [Z -> option A], because the same
    loop returns cell values when run on a board snapshot
    ([findOccupiedCells]) and object references when run on the store's
    heap ([Store.findOccupiedCells_h]).

    The reference definition [covered_ids] lists, in row-major order, the
    ids [(r + dr) * 9 + (c + dc) + 1] of the [1] entries at offset
    [(dr, dc)]; [scan_shape_spec] shows that the loop is [omap lookup] of
    that list. The theorems of this file then characterise the covered
    cells, bound their number by the shape's area, show full coverage
    when the piece fits inside a complete grid, and show what the formula
    does when the piece overhangs the right edge. *)

From S2P Require Import Prelude Cells Layouts.

Open Scope Z_scope.

Module Coverage.

(** ** The loops *)

Section scan.
Context {A : Type} (lookup : Z → option A).

(** [row.forEach((col, ColIndex) => { if (col === 1) { ...;
    if (cell) occupiedCells.push(cell) } })], for the row at absolute
    row [r] of an anchor in column [c0]. *)
Fixpoint scan_row (r c0 : Z) (row : list Z) (ColIndex : Z) (acc : list A)
    : list A :=
  match row with
  | [] => acc
  | col :: row' =>
      let acc' :=
        if col === 1 then
          match lookup (cell_index r (c0 + ColIndex)) with
          | Some cell => acc ++ [cell]
          | None => acc
          end
        else acc in
      scan_row r c0 row' (ColIndex + 1) acc'
  end.

(** [pieceShapeMatrix.forEach((row, RowIndex) => ...)]. *)
Fixpoint scan_shape (r0 c0 : Z) (shape : list (list Z)) (RowIndex : Z)
    (acc : list A) : list A :=
  match shape with
  | [] => acc
  | row :: shape' =>
      scan_shape r0 c0 shape' (RowIndex + 1)
        (scan_row (r0 + RowIndex) c0 row 0 acc)
  end.
End scan.

(** [findOccupiedCells(pieceShapeMatrix, boardState, anchorCell)]: the
    anchor contributes only its [rowIndex] and [colIndex]. *)
Definition findOccupiedCells (pieceShapeMatrix : list (list Z))
    (boardState : Board) (anchorCell : Cell.t) : list Cell.t :=
  scan_shape (find_by_id boardState) (Cell.rowIndex anchorCell)
    (Cell.colIndex anchorCell) pieceShapeMatrix 0 [].

(** ** The reference definition *)

(** Columns [ColIndex] of a row that hold [1], starting at index [i]. *)
Fixpoint row_offsets (row : list Z) (i : Z) : list Z :=
  match row with
  | [] => []
  | col :: row' => (if col === 1 then [i] else []) ++ row_offsets row' (i + 1)
  end.

(** Offsets [(RowIndex, ColIndex)] of the [1] entries, row-major. *)
Fixpoint shape_offsets_from (shape : list (list Z)) (i : Z) : list (Z * Z) :=
  match shape with
  | [] => []
  | row :: shape' => ((λ j, (i, j)) <$> row_offsets row 0) ++ shape_offsets_from shape' (i + 1)
  end.

Definition shape_offsets (shape : list (list Z)) : list (Z * Z) :=
  shape_offsets_from shape 0.

(** Number of [1] entries of the shape. *)
Definition shape_area (shape : list (list Z)) : nat := length (shape_offsets shape).

(** The cell id the formula gives to one offset from an anchor at
    [(r, c)]. *)
Definition offset_id (r c : Z) (o : Z * Z) : Z := cell_index (r + o.1) (c + o.2).

Definition covered_ids (shape : list (list Z)) (r c : Z) : list Z :=
  offset_id r c <$> shape_offsets shape.

(** ** The loops compute the reference *)

Section scan_lemmas.
Context {A : Type} (lookup : Z → option A).

Lemma scan_row_spec r c0 row i acc :
  scan_row lookup r c0 row i acc =
  acc ++ omap lookup ((λ j, cell_index r (c0 + j)) <$> row_offsets row i).
Proof.
  revert i acc. induction row as [|col row IH]; intros i acc; simpl.
  - by rewrite app_nil_r.
  - rewrite IH. destruct (col === 1); simpl; [|done].
    destruct (lookup _); simpl; by rewrite <- ?app_assoc.
Qed.

Lemma scan_shape_spec r0 c0 shape i acc :
  scan_shape lookup r0 c0 shape i acc =
  acc ++ omap lookup (offset_id r0 c0 <$> shape_offsets_from shape i).
Proof.
  revert i acc. induction shape as [|row shape IH]; intros i acc; simpl.
  - by rewrite app_nil_r.
  - rewrite IH, scan_row_spec, fmap_app, omap_app, <- app_assoc, <- list_fmap_compose.
    done.
Qed.
End scan_lemmas.

Lemma findOccupiedCells_spec shape board a :
  findOccupiedCells shape board a =
  omap (find_by_id board) (covered_ids shape (Cell.rowIndex a) (Cell.colIndex a)).
Proof. unfold findOccupiedCells. by rewrite scan_shape_spec. Qed.

(** ** Shape offsets *)

Lemma elem_of_row_offsets row i j :
  j ∈ row_offsets row i ↔ ∃ n, row !! n = Some 1 ∧ j = i + Z.of_nat n.
Proof.
  revert i. induction row as [|col row IH]; intros i; simpl.
  - split; [set_solver|]. intros (? & ? & _); done.
  - rewrite elem_of_app, IH. destruct (js_strict_eq_reflect col 1) as [->|Hc].
    + split.
      * intros [->%list_elem_of_singleton|(n & Hn & ->)]; [exists 0%nat; split; [done|lia]|].
        exists (S n). split; [done|lia].
      * intros ([|n] & Hn & ->); simpl in Hn; [left; set_solver by lia|].
        right. exists n. split; [done|lia].
    + split.
      * intros [Hin%elem_of_nil|(n & Hn & ->)]; [done|]. exists (S n). split; [done|lia].
      * intros ([|n] & Hn & ->); simpl in Hn; [by simplify_eq|].
        right. exists n. split; [done|lia].
Qed.

Lemma elem_of_shape_offsets_from shape i o :
  o ∈ shape_offsets_from shape i ↔
  ∃ m n row, shape !! m = Some row ∧ row !! n = Some 1 ∧
             o = (i + Z.of_nat m, Z.of_nat n).
Proof.
  revert i. induction shape as [|row shape IH]; intros i; simpl.
  - split; [set_solver|]. intros (? & ? & ? & ? & _); done.
  - rewrite elem_of_app, IH, list_elem_of_fmap. split.
    + intros [(j & -> & (n & Hn & ->)%elem_of_row_offsets)|(m & n & row' & Hm & Hn & ->)].
      * exists 0%nat, n, row. split_and!; [done|done|f_equal; lia].
      * exists (S m), n, row'. split_and!; [done|done|f_equal; lia].
    + intros ([|m] & n & row' & Hm & Hn & ->); simpl in Hm; simplify_eq.
      * left. exists (Z.of_nat n). split; [f_equal; lia|].
        apply elem_of_row_offsets. exists n. split; [done|lia].
      * right. exists m, n, row'. split_and!; [done|done|f_equal; lia].
Qed.

(** An offset of the shape: a [1] entry at row [m], column [n] of the
    matrix. *)
Lemma elem_of_shape_offsets shape o :
  o ∈ shape_offsets shape ↔
  ∃ m n row, shape !! m = Some row ∧ row !! n = Some 1 ∧ o = (Z.of_nat m, Z.of_nat n).
Proof.
  unfold shape_offsets. rewrite elem_of_shape_offsets_from.
  by setoid_rewrite Z.add_0_l.
Qed.

Lemma shape_offsets_nonneg shape o :
  o ∈ shape_offsets shape → 0 ≤ o.1 ∧ 0 ≤ o.2.
Proof. intros (m & n & row & _ & _ & ->)%elem_of_shape_offsets. simpl. lia. Qed.

(** ** Grids and pieces that fit *)

(** Every position of the first [rows] rows of the [boardCols] columns
    holds a cell. *)
Definition grid_complete (rows : Z) (board : Board) : Prop :=
  ∀ r c, 0 ≤ r < rows → 0 ≤ c < boardCols →
    ∃ cell, cell ∈ board ∧ Cell.rowIndex cell = r ∧ Cell.colIndex cell = c.

Definition grid_complete_b (rows : Z) (board : Board) : bool :=
  forallb (λ r, forallb (λ c,
      existsb (λ cell, (Cell.rowIndex cell =? r) && (Cell.colIndex cell =? c)) board)
    (seqZ 0 boardCols)) (seqZ 0 rows).

Lemma grid_complete_b_sound rows board :
  grid_complete_b rows board = true → grid_complete rows board.
Proof.
  unfold grid_complete_b. intros Hb r c Hr Hc.
  assert (∀ i n, 0 ≤ i < n → In i (seqZ 0 n)) as Hseq.
  { intros i n Hi. apply list_elem_of_In, elem_of_seqZ. lia. }
  rewrite forallb_forall in Hb. specialize (Hb r (Hseq _ _ Hr)).
  rewrite forallb_forall in Hb. specialize (Hb c (Hseq _ _ Hc)).
  apply existsb_exists in Hb as (cell & Hin & Hcell).
  apply andb_true_iff in Hcell as [?%Z.eqb_eq ?%Z.eqb_eq].
  exists cell. rewrite list_elem_of_In. done.
Qed.

(** Every [1] entry of the shape, placed at the anchor, lands inside the
    first [rows] rows and the [boardCols] columns. *)
Definition piece_fits (rows : Z) (shape : list (list Z)) (a : Cell.t) : Prop :=
  ∀ o, o ∈ shape_offsets shape →
    Cell.rowIndex a + o.1 < rows ∧ Cell.colIndex a + o.2 < boardCols.

Lemma calendar_board_complete : grid_complete 6 calendar_board.
Proof. apply grid_complete_b_sound. vm_compute. reflexivity. Qed.

(** ** Which cells are covered *)

Lemma elem_of_findOccupiedCells shape board a c :
  c ∈ findOccupiedCells shape board a ↔
  ∃ o, o ∈ shape_offsets shape ∧
       find_by_id board (offset_id (Cell.rowIndex a) (Cell.colIndex a) o) = Some c.
Proof.
  rewrite findOccupiedCells_spec, list_elem_of_omap. unfold covered_ids.
  setoid_rewrite list_elem_of_fmap. naive_solver.
Qed.

Lemma findOccupiedCells_subset shape board a c :
  c ∈ findOccupiedCells shape board a → c ∈ board.
Proof. intros (o & _ & [? _]%find_by_id_Some)%elem_of_findOccupiedCells. done. Qed.

(** The id a cell of a well-formed layout has, seen from an offset that
    stays inside the columns. *)
Lemma offset_id_cell board a o cell :
  layout_wf board → cell ∈ board →
  Cell.rowIndex cell = Cell.rowIndex a + o.1 →
  Cell.colIndex cell = Cell.colIndex a + o.2 →
  find_by_id board (offset_id (Cell.rowIndex a) (Cell.colIndex a) o) = Some cell.
Proof.
  intros Hwf Hc Hr Hcol. destruct (layout_wf_cell _ _ Hwf Hc) as (_ & _ & Hid).
  unfold offset_id. rewrite <- Hr, <- Hcol, <- Hid. by apply layout_wf_find.
Qed.

#[export] Instance piece_fits_dec rows shape a : Decision (piece_fits rows shape a).
Proof.
  refine (cast_if (decide (Forall (λ o, Cell.rowIndex a + o.1 < rows ∧
                                        Cell.colIndex a + o.2 < boardCols)
                            (shape_offsets shape))));
    unfold piece_fits; rewrite <- Forall_forall; done.
Defined.

(** ** Properties of the resolver *)

(** C8: the contract of §4.1: [findOccupiedCells] is the row-major list
    of the cells that the id formula [(r + dr) * 9 + (c + dc) + 1] finds
    for the [1] entries of the shape, an id with no cell contributing
    nothing (the two [forEach] loops with their [push] compute
    [omap (find_by_id board)] of [covered_ids]); so a cell is covered
    exactly when it is the cell found for some entry [shape[dr][dc] = 1]. *)
Theorem findOccupiedCells_reference shape board a :
  findOccupiedCells shape board a =
    omap (find_by_id board) (covered_ids shape (Cell.rowIndex a) (Cell.colIndex a)) ∧
  ∀ c, c ∈ findOccupiedCells shape board a ↔
    ∃ dr dc row, shape !! dr = Some row ∧ row !! dc = Some 1 ∧
      find_by_id board (cell_index (Cell.rowIndex a + Z.of_nat dr)
                                   (Cell.colIndex a + Z.of_nat dc)) = Some c.
Proof.
  split; [apply findOccupiedCells_spec|]. intros c.
  rewrite elem_of_findOccupiedCells. setoid_rewrite elem_of_shape_offsets.
  split.
  - intros (o & (dr & dc & row & Hr & Hc & ->) & Hf). by exists dr, dc, row.
  - intros (dr & dc & row & Hr & Hc & Hf). exists (Z.of_nat dr, Z.of_nat dc).
    split; [by exists dr, dc, row|done].
Qed.

(** The resolver never returns more cells than the shape has [1]
    entries. *)
Theorem findOccupiedCells_length shape board a :
  (length (findOccupiedCells shape board a) ≤ shape_area shape)%nat.
Proof.
  rewrite findOccupiedCells_spec. unfold shape_area, covered_ids.
  etrans; [apply length_omap_le|]. by rewrite length_fmap.
Qed.

(** C14: on a well-formed layout whose first [rows] rows are complete, a
    piece that fits below and right of its anchor covers exactly the
    cells of its [1] entries: their ids are [covered_ids], in order, and
    there are as many as the shape's area. *)
Theorem findOccupiedCells_complete rows shape board a :
  layout_wf board → grid_complete rows board → a ∈ board → piece_fits rows shape a →
  Cell.id <$> findOccupiedCells shape board a =
    covered_ids shape (Cell.rowIndex a) (Cell.colIndex a) ∧
  length (findOccupiedCells shape board a) = shape_area shape.
Proof.
  intros Hwf Hgrid Ha Hfit.
  assert (Cell.id <$> findOccupiedCells shape board a =
          covered_ids shape (Cell.rowIndex a) (Cell.colIndex a)) as Hids.
  { rewrite findOccupiedCells_spec. apply fmap_omap_inverse.
    intros k (o & -> & Ho)%list_elem_of_fmap.
    destruct (layout_wf_cell _ _ Hwf Ha) as (Hr & Hc & _).
    destruct (shape_offsets_nonneg _ _ Ho), (Hfit o Ho).
    destruct (Hgrid (Cell.rowIndex a + o.1) (Cell.colIndex a + o.2))
      as (cell & Hcell & Hr' & Hc'); [lia|lia|].
    exists cell. split; [by apply offset_id_cell|].
    destruct (layout_wf_cell _ _ Hwf Hcell) as (_ & _ & ->).
    by rewrite Hr', Hc'. }
  split; [done|]. unfold shape_area.
  rewrite <- (length_fmap Cell.id), Hids. unfold covered_ids. by rewrite length_fmap.
Qed.

Lemma findOccupiedCells_complete_witness :
  let a := mk_cell 0 0 month "JAN" in
  (layout_wf calendar_board ∧ grid_complete 6 calendar_board ∧
   a ∈ calendar_board ∧ piece_fits 6 [[1; 1]] a) ∧
  Cell.id <$> findOccupiedCells [[1; 1]] calendar_board a = [1; 2].
Proof.
  intros a.
  assert (layout_wf calendar_board ∧ grid_complete 6 calendar_board ∧
          a ∈ calendar_board ∧ piece_fits 6 [[1; 1]] a) as H.
  { split_and!; [apply calendar_board_wf|apply calendar_board_complete|vm_decide..]. }
  split; [done|].
  destruct H as (H1 & H2 & H3 & H4).
  destruct (findOccupiedCells_complete 6 [[1; 1]] calendar_board a H1 H2 H3 H4) as [-> _].
  reflexivity.
Defined.

(** C15: the formula does not drop the part of a piece that overhangs the
    right edge of the 9 columns: an entry that lands in column [9 + j]
    of row [r] is resolved to the cell in column [j] of row [r + 1], which
    is then covered. *)
Theorem findOccupiedCells_wraps_right_edge shape board a o cell :
  layout_wf board → o ∈ shape_offsets shape →
  boardCols ≤ Cell.colIndex a + o.2 < 2 * boardCols →
  cell ∈ board →
  Cell.rowIndex cell = Cell.rowIndex a + o.1 + 1 →
  Cell.colIndex cell = Cell.colIndex a + o.2 - boardCols →
  cell ∈ findOccupiedCells shape board a.
Proof.
  intros Hwf Ho Hcol Hc Hr Hc'. apply elem_of_findOccupiedCells.
  exists o. split; [done|].
  destruct (layout_wf_cell _ _ Hwf Hc) as (_ & _ & Hid).
  replace (offset_id (Cell.rowIndex a) (Cell.colIndex a) o) with (Cell.id cell).
  - by apply layout_wf_find.
  - rewrite Hid, Hr, Hc'. unfold offset_id, cell_index, boardCols in *. lia.
Qed.

(** A domino laid on [TUE], the last cell of the first row, covers
    [JUL], the first cell of the second row. *)
Lemma findOccupiedCells_wraps_right_edge_witness :
  mk_cell 1 0 month "JUL" ∈ findOccupiedCells [[1; 1]] calendar_board (mk_cell 0 8 day "TUE").
Proof.
  apply (findOccupiedCells_wraps_right_edge _ _ _ (0, 1)).
  - apply calendar_board_wf.
  - vm_decide.
  - simpl. unfold boardCols. lia.
  - vm_decide.
  - reflexivity.
  - reflexivity.
Defined.

(** ** The resolver reads only the skeleton *)

Lemma omap_find_by_id_skeleton board (ids : list Z) :
  skeleton <$> omap (find_by_id board) ids = omap (find_by_id (skeleton <$> board)) ids.
Proof.
  induction ids as [|k ids IH]; [done|]. rewrite !omap_cons, find_by_id_map_skeleton.
  destruct (find_by_id board k); rewrite ?fmap_cons, IH; done.
Qed.

Lemma findOccupiedCells_skeleton shape board a :
  skeleton <$> findOccupiedCells shape board a =
  findOccupiedCells shape (skeleton <$> board) a.
Proof. rewrite !findOccupiedCells_spec. apply omap_find_by_id_skeleton. Qed.

(** Two boards with the same skeleton, two anchors at the same place:
    the same ids are covered. *)
Lemma findOccupiedCells_ids_skeleton shape b1 b2 a1 a2 :
  skeleton <$> b1 = skeleton <$> b2 →
  Cell.rowIndex a1 = Cell.rowIndex a2 → Cell.colIndex a1 = Cell.colIndex a2 →
  Cell.id <$> findOccupiedCells shape b1 a1 = Cell.id <$> findOccupiedCells shape b2 a2.
Proof.
  intros Hsk Hr Hc.
  rewrite <- (ids_skeleton (findOccupiedCells shape b1 a1)),
          <- (ids_skeleton (findOccupiedCells shape b2 a2)),
          !findOccupiedCells_skeleton, Hsk.
  unfold findOccupiedCells. by rewrite Hr, Hc.
Qed.

End Coverage.
