(* ===== verification/Legality.v ===== *)
(** * Legality checker: [canPlay] (game.ts, lines 56-70)

    [canPlay(piece, startingCellId)] looks the anchor up by id, returns
    [false] when it is missing, resolves the covered cells and returns
    [false] at the first one that is occupied or blocked. The theorems
    characterise the result over the shape's offsets (so that an offset
    whose id names no cell is visibly ignored), show that an occupied or
    blocked anchor is refused when the shape's top-left entry is [1], and
    exhibit the boards on which the permissive policy of the code shows. *)

From S2P Require Import Prelude Cells Layouts Coverage.
Import Coverage.

Open Scope Z_scope.

Module Legality.

(** [cell.isOccupied === true || cell.type === 'blocked'] (line 64). *)
Definition cell_blocks (cell : Cell.t) : bool :=
  (Cell.isOccupied cell === true) || (Cell.type cell === blocked).

(** [for (const cell of occupiedCells) { if (...) return false }
    return true] (lines 63-69). *)
Fixpoint all_free (occupiedCells : list Cell.t) : bool :=
  match occupiedCells with
  | [] => true
  | cell :: rest => if cell_blocks cell then false else all_free rest
  end.

Definition canPlay (boardState : Board) (piece : Piece.t) (startingCellId : Z) : bool :=
  match find_by_id boardState startingCellId with
  | None => false
  | Some anchorCell =>
      all_free (findOccupiedCells (Piece.shape piece) boardState anchorCell)
  end.

(** A cell a piece may cover: free and not blocked. *)
Definition cell_free (cell : Cell.t) : Prop :=
  Cell.isOccupied cell = false ∧ Cell.type cell ≠ blocked.

(** ** Lemmas *)

Lemma cell_blocks_false cell : cell_blocks cell = false ↔ cell_free cell.
Proof.
  unfold cell_blocks, cell_free. rewrite orb_false_iff, !js_strict_eq_false.
  destruct (Cell.isOccupied cell); naive_solver.
Qed.

Lemma all_free_true cells : all_free cells = true ↔ ∀ cell, cell ∈ cells → cell_free cell.
Proof.
  induction cells as [|cell cells IH]; simpl; [set_solver|].
  destruct (cell_blocks cell) eqn:Hb.
  - split; [done|]. intros Hall.
    assert (cell_free cell) as Hf%cell_blocks_false by (apply Hall; set_solver).
    congruence.
  - rewrite IH. apply cell_blocks_false in Hb. set_solver.
Qed.

#[export] Hint Resolve -> all_free_true : calendar.

Lemma canPlay_true board piece k :
  canPlay board piece k = true ↔
  ∃ a, find_by_id board k = Some a ∧
       ∀ cell, cell ∈ findOccupiedCells (Piece.shape piece) board a → cell_free cell.
Proof.
  unfold canPlay. destruct (find_by_id board k) as [a|]; [|naive_solver].
  rewrite all_free_true. naive_solver.
Qed.

(** The anchor itself is covered when the top-left entry of the shape is
    [1]: on a well-formed layout, offset [(0, 0)] resolves to it. *)
Lemma anchor_covered board shape row a :
  layout_wf board → a ∈ board → shape !! 0%nat = Some (1 :: row) →
  a ∈ findOccupiedCells shape board a.
Proof.
  intros Hwf Ha Hrow. apply elem_of_findOccupiedCells. exists (0, 0). split.
  - apply elem_of_shape_offsets. exists 0%nat, 0%nat, (1 :: row). done.
  - apply offset_id_cell; [done|done|simpl; lia|simpl; lia].
Qed.

(** ** Properties *)

(** C7: [canPlay] holds exactly when the anchor id names a cell and every
    [1] entry of the shape whose formula id names a cell names a free,
    non-blocked one. Entries whose id names no cell are not looked at:
    this is the permissive off-grid policy of the code. *)
Theorem canPlay_spec board piece k :
  canPlay board piece k = true ↔
  ∃ a, find_by_id board k = Some a ∧
       ∀ o cell, o ∈ shape_offsets (Piece.shape piece) →
         find_by_id board (offset_id (Cell.rowIndex a) (Cell.colIndex a) o) = Some cell →
         cell_free cell.
Proof.
  rewrite canPlay_true. setoid_rewrite elem_of_findOccupiedCells. naive_solver.
Qed.

(** C21: on a well-formed layout, a piece whose shape starts with a [1]
    cannot be played on an anchor that is occupied or blocked. *)
Theorem canPlay_occupied_anchor board piece k a row :
  layout_wf board → find_by_id board k = Some a →
  Piece.shape piece !! 0%nat = Some (1 :: row) →
  ¬ cell_free a →
  canPlay board piece k = false.
Proof.
  intros Hwf Hk Hrow Hocc. apply not_true_iff_false. intros (a' & Ha' & Hfree)%canPlay_true.
  rewrite Hk in Ha'. injection Ha' as <-.
  apply find_by_id_Some in Hk as [Ha _].
  by eapply Hocc, Hfree, anchor_covered.
Qed.

Lemma canPlay_occupied_anchor_witness :
  let board := mark_ids true (Some 7) [1] calendar_board in
  let a := set_occupancy true (Some 7) (mk_cell 0 0 month "JAN") in
  (layout_wf board ∧ find_by_id board 1 = Some a ∧
   Piece.shape (Piece.mk 1 [[1; 1]] None) !! 0%nat = Some [1; 1] ∧ ¬ cell_free a) ∧
  canPlay board (Piece.mk 1 [[1; 1]] None) 1 = false.
Proof.
  intros board a.
  assert (layout_wf board ∧ find_by_id board 1 = Some a ∧
          Piece.shape (Piece.mk 1 [[1; 1]] None) !! 0%nat = Some [1; 1] ∧ ¬ cell_free a)
    as (H1 & H2 & H3 & H4).
  { split_and!.
    - eapply layout_wf_skeleton; [symmetry; apply skeleton_mark_ids|apply calendar_board_wf].
    - vm_compute. reflexivity.
    - reflexivity.
    - intros [Hocc _]. discriminate Hocc. }
  split; [done|]. exact (canPlay_occupied_anchor board _ 1 a [1] H1 H2 H3 H4).
Defined.

(** The guard of the code is on the covered cells, not on the anchor:
    an L-shaped piece whose top-left entry is [0], anchored on the
    occupied [JAN] cell, is reported playable. *)
Theorem canPlay_accepts_occupied_anchor :
  Cell.isOccupied (set_occupancy true (Some 7) (mk_cell 0 0 month "JAN")) = true ∧
  find_by_id (mark_ids true (Some 7) [1] calendar_board) 1 =
    Some (set_occupancy true (Some 7) (mk_cell 0 0 month "JAN")) ∧
  canPlay (mark_ids true (Some 7) [1] calendar_board) (Piece.mk 2 [[0; 1]; [1; 1]] None) 1 = true.
Proof. split_and!; vm_compute; reflexivity. Qed.

(** A piece hanging below the last row is legal: the vertical domino
    anchored on the date [28] in the last row covers one cell of its
    two, and [canPlay] accepts it. *)
Theorem canPlay_accepts_partial_coverage :
  canPlay calendar_board (Piece.mk 3 [[1]; [1]] None) 46 = true ∧
  length (findOccupiedCells [[1]; [1]] calendar_board (mk_cell 5 0 date "28")) = 1%nat ∧
  shape_area [[1]; [1]] = 2%nat.
Proof. split_and!; vm_compute; reflexivity. Qed.

(** ** [canPlay] reads only the covered cells *)

(** The resolver reads the cells only through [find]: marking cells
    marks the cells it returns, and the anchor counts only by its row and
    column. *)
Lemma findOccupiedCells_mark_ids occ pid ids shape board a a' :
  Cell.rowIndex a' = Cell.rowIndex a → Cell.colIndex a' = Cell.colIndex a →
  findOccupiedCells shape (mark_ids occ pid ids board) a' =
  mark_ids occ pid ids (findOccupiedCells shape board a).
Proof.
  intros Hr Hc. rewrite !findOccupiedCells_spec, Hr, Hc.
  unfold mark_ids at 2. rewrite <- omap_fmap_result.
  induction (covered_ids shape (Cell.rowIndex a) (Cell.colIndex a)) as [|k ks IH]; [done|].
  rewrite !omap_cons, find_by_id_mark_ids. cbn beta.
  destruct (find_by_id board k); simpl; by rewrite IH.
Qed.

(** C22: [canPlay] reads only the cells the piece covers: occupying or
    freeing any cells the piece anchored at [k] does not cover (the
    anchor itself, when the shape's top-left entry is [0]) never changes
    its answer. So a piece can be played on an occupied anchor, against
    Scenario B of §8. *)
Theorem canPlay_reads_covered_only board piece k a occ pid ids :
  find_by_id board k = Some a →
  (∀ c, c ∈ findOccupiedCells (Piece.shape piece) board a → Cell.id c ∉ ids) →
  canPlay (mark_ids occ pid ids board) piece k = canPlay board piece k.
Proof.
  intros Ha Hcov. unfold canPlay. rewrite find_by_id_mark_ids, Ha. simpl.
  rewrite (findOccupiedCells_mark_ids _ _ _ _ _ a)
    by (case_bool_decide; reflexivity).
  by rewrite mark_ids_not_elem_of.
Qed.

Lemma canPlay_reads_covered_only_witness :
  canPlay (mark_ids true (Some 7) [1] calendar_board) (Piece.mk 2 [[0; 1]; [1; 1]] None) 1 =
  canPlay calendar_board (Piece.mk 2 [[0; 1]; [1; 1]] None) 1.
Proof.
  apply (canPlay_reads_covered_only _ _ _ (mk_cell 0 0 month "JAN")); [vm_compute; reflexivity|].
  apply Forall_forall. vm_decide.
Defined.

End Legality.
