(* ===== verification/Placement.v ===== *)
(** * Placement and removal on a board snapshot (game.ts, lines 72-94)

    [placePiece(piece, startingCellId)] finds the anchor, resolves the
    covered cells and writes [isOccupied = true], [pieceId = piece.id]
    into each; [removePiece(piece)] finds the anchor recorded in
    [piece.anchorCell], resolves the cells again from the geometry and
    writes [false] and [null]. The writes go through the objects [find]
    returned, that is, to the first cell of the array with the found id:
    [update_first]. This file models the two actions on the array of
    cell values; [Store.v] models the same code on a heap of cell objects
    and proves that it refines these definitions.

    The theorems: both actions keep the skeleton of every cell (ids,
    types, values, positions) and keep every cell's flag and owner in
    agreement; on a layout with unique ids the write loop is [mark_ids];
    placing a piece where [canPlay] allows it and removing it again gives
    back the board; and without the [canPlay] guard the round trip
    fails. *)

From S2P Require Import Prelude Cells Layouts Coverage Legality.
Import Coverage Legality.

Open Scope Z_scope.

Module Placement.

(** ** Definitions *)

(** A write through the reference [boardState.find(...)] returned: the
    first cell with id [k] is replaced by [f] of it. *)
Fixpoint update_first (k : Z) (f : Cell.t → Cell.t) (board : Board) : Board :=
  match board with
  | [] => []
  | c :: board' => if Cell.id c === k then f c :: board' else c :: update_first k f board'
  end.

(** [affectedCells.forEach(cell => { cell.isOccupied = occ;
    cell.pieceId = pid })]. *)
Definition write_cells (occ : bool) (pid : option Z) (affectedCells : list Cell.t)
    (board : Board) : Board :=
  foldl (λ b cell, update_first (Cell.id cell) (set_occupancy occ pid) b) board affectedCells.

Definition placePiece (boardState : Board) (piece : Piece.t) (startingCellId : Z) : Board :=
  match find_by_id boardState startingCellId with
  | None => boardState
  | Some anchorCell =>
      write_cells true (Some (Piece.id piece))
        (findOccupiedCells (Piece.shape piece) boardState anchorCell) boardState
  end.

(** [boardState.find(cell => cell.id === piece.anchorCell)]: with
    [anchorCell] undefined no id is [===] to it and nothing is found. *)
Definition find_by_anchor (boardState : Board) (anchorCell : option Z) : option Cell.t :=
  match anchorCell with
  | Some k => find_by_id boardState k
  | None => None
  end.

Definition removePiece (boardState : Board) (piece : Piece.t) : Board :=
  match find_by_anchor boardState (Piece.anchorCell piece) with
  | None => boardState
  | Some anchorCell =>
      write_cells false None
        (findOccupiedCells (Piece.shape piece) boardState anchorCell) boardState
  end.

(** The piece as the UI keeps it after a placement at [k]: with its
    anchor recorded. *)
Definition with_anchor (piece : Piece.t) (k : Z) : Piece.t :=
  Piece.mk (Piece.id piece) (Piece.shape piece) (Some k).

(** The cell at index [i] is shadowed: an earlier cell of the array has
    its id, so every [boardState.find] by that id stops before it. *)
Definition shadowed (board : Board) (i : nat) : Prop :=
  ∃ j, (j < i)%nat ∧ is_Some (board !! i) ∧ Cell.id <$> board !! j = Cell.id <$> board !! i.

(** The number of cells no piece occupies, the measure legal placements
    decrease. *)
Definition free_count (board : Board) : nat :=
  length (List.filter (λ c, negb (Cell.isOccupied c)) board).

(** A placement the UI may make on [board]: [canPlay] allows it and the
    piece covers at least one cell. *)
Definition legal_placement (board' board : Board) : Prop :=
  ∃ piece k a, find_by_id board k = Some a ∧ canPlay board piece k = true ∧
    findOccupiedCells (Piece.shape piece) board a ≠ [] ∧ board' = placePiece board piece k.

Lemma write_cells_cons occ pid c cells (board : Board) :
  write_cells occ pid (c :: cells) board =
  write_cells occ pid cells (update_first (Cell.id c) (set_occupancy occ pid) board).
Proof. done. Qed.

(** ** The skeleton and the flag/owner agreement are kept *)

Section update_first.
Context (occ : bool) (pid : option Z).

Lemma skeleton_update_first k (board : Board) :
  skeleton <$> update_first k (set_occupancy occ pid) board = skeleton <$> board.
Proof.
  induction board as [|c board IH]; [done|]. simpl.
  destruct (Cell.id c === k); rewrite !fmap_cons; [done|]. by rewrite IH.
Qed.

Lemma skeleton_write_cells cells (board : Board) :
  skeleton <$> write_cells occ pid cells board = skeleton <$> board.
Proof.
  unfold write_cells. revert board.
  induction cells as [|cell cells IH]; intros board; [done|]. simpl.
  by rewrite IH, skeleton_update_first.
Qed.

Lemma update_first_consistent k (board : Board) :
  Bool.eqb occ (bool_decide (is_Some pid)) = true →
  Forall (λ c, cell_consistent c = true) board →
  Forall (λ c, cell_consistent c = true) (update_first k (set_occupancy occ pid) board).
Proof.
  intros Hop Hb. induction Hb as [|c board Hc Hb IH]; simpl; [done|].
  destruct (Cell.id c === k); constructor; by rewrite ?set_occupancy_consistent.
Qed.

Lemma write_cells_consistent cells (board : Board) :
  Bool.eqb occ (bool_decide (is_Some pid)) = true →
  Forall (λ c, cell_consistent c = true) board →
  Forall (λ c, cell_consistent c = true) (write_cells occ pid cells board).
Proof.
  unfold write_cells. intros Hop. revert board.
  induction cells as [|cell cells IH]; intros board Hb; [done|]. simpl.
  apply IH. by apply update_first_consistent.
Qed.
End update_first.

#[export] Hint Rewrite skeleton_update_first skeleton_write_cells : calendar_rw.

Lemma skeleton_placePiece board piece k :
  skeleton <$> placePiece board piece k = skeleton <$> board.
Proof. unfold placePiece. destruct (find_by_id board k); [|done]. apply skeleton_write_cells. Qed.

Lemma skeleton_removePiece board piece :
  skeleton <$> removePiece board piece = skeleton <$> board.
Proof. unfold removePiece. destruct (find_by_anchor _ _); [|done]. apply skeleton_write_cells. Qed.

(** ** On unique ids the write loop is [mark_ids] *)

Lemma update_first_mark_ids occ pid k (board : Board) :
  NoDup (Cell.id <$> board) →
  update_first k (set_occupancy occ pid) board = mark_ids occ pid [k] board.
Proof.
  induction board as [|c board IH]; intros Hnd; [done|].
  rewrite fmap_cons in Hnd. apply NoDup_cons in Hnd as [Hnin Hnd].
  unfold mark_ids. rewrite fmap_cons. simpl.
  destruct (js_strict_eq_reflect (Cell.id c) k) as [<-|Hne].
  - rewrite bool_decide_true by set_solver. f_equal.
    symmetry. apply mark_ids_not_elem_of. intros c' Hc' Heq%list_elem_of_singleton.
    apply Hnin. rewrite <- Heq. by apply list_elem_of_fmap_2.
  - rewrite bool_decide_false by set_solver. f_equal. by apply IH.
Qed.

Lemma mark_ids_app occ pid ids1 ids2 (board : Board) :
  mark_ids occ pid ids2 (mark_ids occ pid ids1 board) = mark_ids occ pid (ids1 ++ ids2) board.
Proof.
  unfold mark_ids. rewrite <- list_fmap_compose. apply list_fmap_ext.
  intros _ c _. simpl. repeat case_bool_decide; set_solver.
Qed.

Lemma ids_mark_ids occ pid ids (board : Board) :
  Cell.id <$> mark_ids occ pid ids board = Cell.id <$> board.
Proof. by rewrite <- ids_skeleton, skeleton_mark_ids, ids_skeleton. Qed.

Lemma write_cells_mark_ids occ pid cells (board : Board) :
  NoDup (Cell.id <$> board) →
  write_cells occ pid cells board = mark_ids occ pid (Cell.id <$> cells) board.
Proof.
  unfold write_cells. revert board.
  induction cells as [|cell cells IH]; intros board Hnd.
  - symmetry. apply mark_ids_not_elem_of. set_solver.
  - simpl. rewrite update_first_mark_ids by done.
    rewrite IH by (by rewrite ids_mark_ids). by rewrite mark_ids_app.
Qed.

Lemma mark_ids_mark_ids occ pid occ' pid' ids (board : Board) :
  mark_ids occ' pid' ids (mark_ids occ pid ids board) = mark_ids occ' pid' ids board.
Proof.
  unfold mark_ids. rewrite <- list_fmap_compose. apply list_fmap_ext.
  intros _ c _. simpl. destruct (decide (Cell.id c ∈ ids)).
  - rewrite (bool_decide_true (Cell.id c ∈ ids)) by done. simpl. by rewrite bool_decide_true.
  - rewrite (bool_decide_false (Cell.id c ∈ ids)) by done. by rewrite bool_decide_false.
Qed.

Lemma NoDup_ids_inj (board : Board) c1 c2 :
  NoDup (Cell.id <$> board) → c1 ∈ board → c2 ∈ board → Cell.id c1 = Cell.id c2 → c1 = c2.
Proof.
  intros Hnd H1 H2 Heq.
  pose proof (find_by_id_elem_of _ _ _ Hnd H1 eq_refl) as E1.
  pose proof (find_by_id_elem_of _ _ _ Hnd H2 (eq_sym Heq)) as E2. congruence.
Qed.

Lemma consistent_free c :
  cell_consistent c = true → Cell.isOccupied c = false → Cell.pieceId c = None.
Proof.
  unfold cell_consistent. intros Hc Hocc. rewrite Hocc in Hc.
  destruct (Cell.pieceId c); [|done]. by rewrite bool_decide_true in Hc.
Qed.

(** Clearing cells that are already clear changes nothing. *)
Lemma mark_ids_clear_free ids (board : Board) :
  (∀ c, c ∈ board → Cell.id c ∈ ids → Cell.isOccupied c = false ∧ Cell.pieceId c = None) →
  mark_ids false None ids board = board.
Proof.
  intros Hb. unfold mark_ids. rewrite <- (list_fmap_id board) at 2.
  apply list_fmap_ext. intros i c Hc%list_elem_of_lookup_2. simpl.
  case_bool_decide as Hin; [|done].
  destruct (Hb c Hc Hin) as [Ho Hp]. destruct c; simpl in *; by subst.
Qed.

Lemma placePiece_mark_ids board piece k a :
  NoDup (Cell.id <$> board) → find_by_id board k = Some a →
  placePiece board piece k =
  mark_ids true (Some (Piece.id piece))
    (Cell.id <$> findOccupiedCells (Piece.shape piece) board a) board.
Proof.
  intros Hnd Ha. unfold placePiece. rewrite Ha. by apply write_cells_mark_ids.
Qed.

(** ** Properties *)

(** C17: on a layout with unique ids, [placePiece] is a no-op when the
    anchor id names no cell, and otherwise sets [isOccupied = true] and
    [pieceId = piece.id] on exactly the cells whose id the resolver
    returns, leaving every other cell as it was. *)
Theorem placePiece_spec board piece k :
  NoDup (Cell.id <$> board) →
  placePiece board piece k =
  match find_by_id board k with
  | None => board
  | Some a => mark_ids true (Some (Piece.id piece))
                (Cell.id <$> findOccupiedCells (Piece.shape piece) board a) board
  end.
Proof.
  intros Hnd. destruct (find_by_id board k) eqn:Ha; [by apply placePiece_mark_ids|].
  unfold placePiece. by rewrite Ha.
Qed.

(** C18: on a layout with unique ids, [removePiece] is a no-op when the
    piece has no recorded anchor or the anchor names no cell, and
    otherwise clears [isOccupied] and [pieceId] on exactly the cells the
    resolver returns from the recorded anchor. *)
Theorem removePiece_spec board piece :
  NoDup (Cell.id <$> board) →
  removePiece board piece =
  match find_by_anchor board (Piece.anchorCell piece) with
  | None => board
  | Some a => mark_ids false None
                (Cell.id <$> findOccupiedCells (Piece.shape piece) board a) board
  end.
Proof.
  intros Hnd. unfold removePiece.
  destruct (find_by_anchor _ _); [by apply write_cells_mark_ids|done].
Qed.

Lemma placePiece_spec_witness :
  NoDup (Cell.id <$> calendar_board) ∧
  placePiece calendar_board (Piece.mk 1 [[1; 1]] None) 1 =
    mark_ids true (Some 1) [1; 2] calendar_board.
Proof.
  assert (NoDup (Cell.id <$> calendar_board)) as Hnd by apply calendar_board_wf.
  split; [done|]. rewrite (placePiece_spec _ _ _ Hnd). vm_compute. reflexivity.
Defined.

Lemma removePiece_spec_witness :
  NoDup (Cell.id <$> calendar_board) ∧
  removePiece (mark_ids true (Some 1) [1; 2] calendar_board) (Piece.mk 1 [[1; 1]] (Some 1)) =
    calendar_board.
Proof.
  assert (NoDup (Cell.id <$> mark_ids true (Some 1) [1; 2] calendar_board)) as Hnd
    by (rewrite ids_mark_ids; apply calendar_board_wf).
  split; [apply calendar_board_wf|]. rewrite (removePiece_spec _ _ Hnd). vm_compute. reflexivity.
Defined.

(** C19: both actions keep the skeleton of every cell (id, type, value,
    position) and keep the agreement of [isOccupied] with [pieceId] on
    every cell. *)
Theorem place_remove_invariant board piece k :
  Forall (λ c, cell_consistent c = true) board →
  (skeleton <$> placePiece board piece k = skeleton <$> board ∧
   Forall (λ c, cell_consistent c = true) (placePiece board piece k)) ∧
  (skeleton <$> removePiece board piece = skeleton <$> board ∧
   Forall (λ c, cell_consistent c = true) (removePiece board piece)).
Proof.
  intros Hb. split_and!.
  - apply skeleton_placePiece.
  - unfold placePiece. destruct (find_by_id board k); [|done].
    by apply write_cells_consistent.
  - apply skeleton_removePiece.
  - unfold removePiece. destruct (find_by_anchor _ _); [|done].
    by apply write_cells_consistent.
Qed.

Lemma place_remove_invariant_witness :
  Forall (λ c, cell_consistent c = true) calendar_board ∧
  Forall (λ c, cell_consistent c = true) (placePiece calendar_board (Piece.mk 1 [[1; 1]] None) 1).
Proof.
  assert (Forall (λ c, cell_consistent c = true) calendar_board) as H by vm_decide.
  split; [done|]. apply (place_remove_invariant _ (Piece.mk 1 [[1; 1]] None) 1 H).
Defined.

(** C1: the round trip of §8: on a layout with unique ids whose cells
    agree on flag and owner, placing a piece where [canPlay] allows it,
    recording the anchor as the UI does, and removing it gives back the
    board, every cell's [isOccupied] and [pieceId] included. *)
Theorem place_remove_roundtrip board piece k :
  NoDup (Cell.id <$> board) →
  Forall (λ c, cell_consistent c = true) board →
  canPlay board piece k = true →
  removePiece (placePiece board piece k) (with_anchor piece k) = board.
Proof.
  intros Hnd Hcons (a & Ha & Hfree)%canPlay_true.
  rewrite (placePiece_mark_ids _ _ _ _ Hnd Ha).
  unfold removePiece. simpl. rewrite find_by_id_mark_ids, Ha. simpl.
  rewrite write_cells_mark_ids by (by rewrite ids_mark_ids).
  erewrite (findOccupiedCells_ids_skeleton _ _ board _ a);
    [|apply skeleton_mark_ids|by case_bool_decide..].
  rewrite mark_ids_mark_ids. apply mark_ids_clear_free.
  intros c Hc (cell & Heq & Hcell)%list_elem_of_fmap.
  assert (cell = c) as <-.
  { eapply NoDup_ids_inj; [done| |done|done]. by eapply findOccupiedCells_subset. }
  destruct (Hfree cell Hcell) as [Hocc _]. split; [done|].
  apply consistent_free; [|done]. by eapply Forall_forall in Hcons.
Qed.

Lemma place_remove_roundtrip_witness :
  (NoDup (Cell.id <$> calendar_board) ∧
   Forall (λ c, cell_consistent c = true) calendar_board ∧
   canPlay calendar_board (Piece.mk 1 [[1; 1]; [0; 1]] None) 13 = true) ∧
  removePiece (placePiece calendar_board (Piece.mk 1 [[1; 1]; [0; 1]] None) 13)
    (with_anchor (Piece.mk 1 [[1; 1]; [0; 1]] None) 13) = calendar_board.
Proof.
  assert (NoDup (Cell.id <$> calendar_board) ∧
          Forall (λ c, cell_consistent c = true) calendar_board ∧
          canPlay calendar_board (Piece.mk 1 [[1; 1]; [0; 1]] None) 13 = true)
    as (H1 & H2 & H3).
  { split_and!; [apply calendar_board_wf|vm_decide|vm_compute; reflexivity]. }
  split; [done|]. exact (place_remove_roundtrip _ _ _ H1 H2 H3).
Defined.

(** The round trip needs the [canPlay] guard, which [placePiece]
    does not check: a second domino placed over half of a first one and
    removed again clears the shared cell, so the board does not come back
    to what it was. *)
Theorem place_remove_overlap_breaks_roundtrip :
  let b1 := placePiece calendar_board (Piece.mk 1 [[1; 1]] None) 1 in
  let p2 := Piece.mk 2 [[1; 1]] None in
  canPlay b1 p2 2 = false ∧
  removePiece (placePiece b1 p2 2) (with_anchor p2 2) ≠ b1.
Proof. split; [vm_compute; reflexivity|vm_decide]. Qed.

(** A layout with a repeated id, which [setboardState] accepts
    without a check (spec §7 asks for the check at initialisation), is
    only half written: with a second [JAN] cell of id 1 appended to the
    calendar board, placing a one-cell piece on id 1 occupies the first
    [JAN] cell and leaves the copy free, and no piece can ever be played
    on the copy, since every lookup of id 1 finds the first cell. *)
Theorem placePiece_duplicate_id :
  let b := calendar_board ++ [mk_cell 0 0 month "JAN"] in
  let b' := placePiece b (Piece.mk 1 [[1]] None) 1 in
  ¬ NoDup (Cell.id <$> b) ∧
  canPlay b (Piece.mk 1 [[1]] None) 1 = true ∧
  find_by_id b' 1 = Some (set_occupancy true (Some 1) (mk_cell 0 0 month "JAN")) ∧
  last b' = Some (mk_cell 0 0 month "JAN") ∧
  canPlay b' (Piece.mk 2 [[1]] None) 1 = false.
Proof. split; [vm_decide|split_and!; vm_compute; reflexivity]. Qed.

(** ** Legal placements terminate *)

Lemma free_count_update_first k pid (board : Board) :
  (free_count (update_first k (set_occupancy true pid) board) ≤ free_count board)%nat.
Proof.
  unfold free_count. induction board as [|c board IH]; simpl; [done|].
  destruct (Cell.id c === k); simpl; destruct (Cell.isOccupied c); simpl; lia.
Qed.

Lemma free_count_update_first_lt k pid (board : Board) c :
  find_by_id board k = Some c → Cell.isOccupied c = false →
  (free_count (update_first k (set_occupancy true pid) board) < free_count board)%nat.
Proof.
  unfold find_by_id, free_count. induction board as [|c' board IH]; simpl; [done|].
  destruct (Cell.id c' === k).
  - intros [= ->] ->. simpl. lia.
  - intros Hf Hc. specialize (IH Hf Hc). simpl. destruct (Cell.isOccupied c'); simpl; lia.
Qed.

Lemma free_count_write_cells pid cells (board : Board) :
  (free_count (write_cells true pid cells board) ≤ free_count board)%nat.
Proof.
  revert board. induction cells as [|c cells IH]; intros board; [done|].
  rewrite write_cells_cons. etrans; [apply IH|apply free_count_update_first].
Qed.

(** A legal placement occupies at least one free cell: the first cell it
    covers was found by its id and is free, and no write frees a cell. *)
Lemma legal_placement_free_count board' board :
  legal_placement board' board → (free_count board' < free_count board)%nat.
Proof.
  intros (piece & k & a & Ha & Hplay & Hne & ->).
  apply canPlay_true in Hplay as (a' & Ha' & Hfree). rewrite Ha in Ha'. injection Ha' as <-.
  unfold placePiece. rewrite Ha.
  destruct (findOccupiedCells (Piece.shape piece) board a) as [|c cells] eqn:Hcov; [done|].
  assert (Hc : c ∈ findOccupiedCells (Piece.shape piece) board a) by (rewrite Hcov; set_solver).
  destruct (proj1 (elem_of_findOccupiedCells _ _ _ _) Hc) as (o & _ & Hfind).
  destruct (find_by_id_Some _ _ _ Hfind) as [_ Hid].
  rewrite write_cells_cons. eapply Nat.le_lt_trans; [apply free_count_write_cells|].
  apply (free_count_update_first_lt _ _ _ c); [by rewrite Hid|]. apply Hfree. set_solver.
Qed.

(** C10: placing pieces terminates: every sequence of placements that
    [canPlay] allows and that each cover a cell is finite, since each one
    occupies a free cell and none frees one; a board of [n] free cells
    takes at most [n] such placements. *)
Theorem legal_placements_terminate : well_founded legal_placement.
Proof. apply (wf_projected (<)%nat free_count); [apply legal_placement_free_count|apply lt_wf]. Qed.

(** ** Cells shadowed by a repeated id are never written *)

Lemma update_first_other k f (board : Board) i c :
  board !! i = Some c → Cell.id c ≠ k → update_first k f board !! i = Some c.
Proof.
  revert i. induction board as [|c0 board IH]; intros [|i] Hi Hk; simpl in *; try done.
  - injection Hi as ->. by rewrite (proj2 (js_strict_eq_false _ _) Hk).
  - destruct (Cell.id c0 === k); [done|]. by apply IH.
Qed.

Lemma update_first_ids k f (board : Board) i :
  (∀ c, Cell.id (f c) = Cell.id c) →
  Cell.id <$> update_first k f board !! i = Cell.id <$> board !! i.
Proof.
  intros Hf. revert i. induction board as [|c0 board IH]; intros [|i]; simpl; try done;
    destruct (Cell.id c0 === k); simpl; rewrite ?Hf; done.
Qed.

Lemma update_first_shadowed k f (board : Board) i :
  shadowed board i → update_first k f board !! i = board !! i.
Proof.
  revert i. induction board as [|c0 board IH]; intros [|i] (j & Hj & [c Hc] & Hid); try lia;
    [done|]. simpl in *.
  destruct (js_strict_eq_reflect (Cell.id c0) k) as [Hk|Hk]; [done|].
  destruct j as [|j]; simpl in Hid.
  - rewrite Hc in Hid |- *. injection Hid as Hid. apply update_first_other; [done|congruence].
  - apply IH. exists j. split_and!; [lia|by eexists|done].
Qed.

Lemma write_cells_shadowed occ pid cells (board : Board) i :
  shadowed board i → write_cells occ pid cells board !! i = board !! i.
Proof.
  revert board. induction cells as [|cell cells IH]; intros board Hsh; [done|].
  rewrite write_cells_cons, IH.
  - by apply update_first_shadowed.
  - destruct Hsh as (j & Hj & Hi & Hid). exists j.
    rewrite !update_first_ids by apply set_occupancy_id.
    split_and!; [done| |done]. by rewrite update_first_shadowed by (by exists j).
Qed.

(** C20: a layout with a repeated id, which [setboardState] stores without
    a check (§7 asks a hardened version to reject it), is only partly
    playable: every cell behind an earlier cell with its id keeps its
    state through every [placePiece] and [removePiece], since each write
    goes to the object [boardState.find] returned, the first cell with the
    id. *)
Theorem duplicate_id_never_written board piece k i :
  shadowed board i →
  placePiece board piece k !! i = board !! i ∧ removePiece board piece !! i = board !! i.
Proof.
  intros Hsh. unfold placePiece, removePiece.
  split; case_match; try done; by apply write_cells_shadowed.
Qed.

Lemma duplicate_id_never_written_witness :
  let b := calendar_board ++ [mk_cell 0 0 month "JAN"] in
  placePiece b (Piece.mk 1 [[1]] (Some 1)) 1 !! length calendar_board = b !! length calendar_board ∧
  removePiece b (Piece.mk 1 [[1]] (Some 1)) !! length calendar_board = b !! length calendar_board.
Proof.
  intros b. apply duplicate_id_never_written.
  exists 0%nat. split_and!; [vm_compute; lia|vm_compute; by eexists|vm_compute; reflexivity].
Defined.

End Placement.

