(* ===== verification/JsDate.v ===== *)
(** * The built-in [Date]: time values and their calendar fields

    [checkWinner] (src/src/stores/game.ts, lines 97-100) builds
    [new Date(solveDate)] and reads [getDay()], [getMonth()] and
    [getDate()]. A [Date] holds a time value: an integer number of
    milliseconds since 1970-01-01T00:00Z, or [NaN] (here [None]). This
    file models the abstract operations of ECMA-262 (§21.4.1) the three
    getters go through: [Day], [WeekDay], [DayFromYear], [DaysInYear],
    [MakeTime], [MakeDay], [MakeDate], [TimeClip], and [LocalTime] /
    [UTC] for a host time zone [TimeZone]: an offset (milliseconds east of
    UTC) and the instants at which it changes (daylight saving time, rule
    changes), read as ECMA-262 §21.4.1.25-26 prescribe: a local time
    skipped by a change is read with the offset before it, a local time
    repeated by a change denotes its earlier instant.

    ECMA-262 defines [YearFromTime], [MonthFromTime] and [DateFromTime]
    relationally (the largest year whose first day is not after the
    time; the month whose range of days-within-year holds it). The
    executable [YearFromDay] estimates the year as [1970 + 400 z / 146097]
    and corrects it by one year; [DayFromYear_approx] bounds the estimate
    by [lia], and [YearFromTime_largest] shows that the result is the
    largest year of the relational definition. [MonthFromDWY] and
    [DateFromDWY] are the tables of §21.4.1.9-10; [MakeDate_fields] shows
    that the getters invert [MakeDay] on valid dates, [date_parts_bounds]
    that they stay in their ranges, and [LocalTime_UTC] that converting a
    local time to UTC and back loses less than a day in a zone whose
    offsets stay within a day of UTC ([zone_wf]). *)

From S2P Require Import Prelude.

Open Scope Z_scope.

Module JsDate.

(** ** Abstract operations of ECMA-262 §21.4.1 *)

Definition msPerDay : Z := 86400000.

(** [Day(t) = floor(t / msPerDay)]. *)
Definition Day (t : Z) : Z := t / msPerDay.

(** [WeekDay(t) = (Day(t) + 4) modulo 7]: 1970-01-01 was a Thursday. *)
Definition WeekDay (t : Z) : Z := (Day t + 4) mod 7.

(** [DayFromYear(y)]: the day number of the first day of year [y]. *)
Definition DayFromYear (y : Z) : Z :=
  365 * (y - 1970) + (y - 1969) / 4 - (y - 1901) / 100 + (y - 1601) / 400.

(** [DaysInYear(y)]: 366 on years divisible by 4 but not by 100, or by
    400; 365 otherwise. *)
Definition DaysInYear (y : Z) : Z :=
  if negb (y mod 4 =? 0) then 365
  else if negb (y mod 100 =? 0) then 366
  else if negb (y mod 400 =? 0) then 365
  else 366.

(** [InLeapYear]: 1 on a leap year, 0 otherwise. *)
Definition InLeapYear (y : Z) : Z := DaysInYear y - 365.

(** The first day-within-year of month [m] (0-based; [m = 12] is the
    end of the year), the bounds of the table of [MonthFromTime]. *)
Definition DayBeforeMonth (leap m : Z) : Z :=
  nth (Z.to_nat m) [0; 31; 59; 90; 120; 151; 181; 212; 243; 273; 304; 334; 365] 0 +
  (if 2 <=? m then leap else 0).

(** [MakeTime(hour, min, sec, ms)] on integers. *)
Definition MakeTime (h mi s ms : Z) : Z := h * 3600000 + mi * 60000 + s * 1000 + ms.

(** [MakeDay(year, month, date)]: [ym = year + floor(month / 12)],
    [mn = month modulo 12], the day number of the first of month [mn] of
    year [ym], plus [date - 1]. *)
Definition MakeDay (y m d : Z) : Z :=
  let ym := y + m / 12 in
  let mn := m mod 12 in
  DayFromYear ym + DayBeforeMonth (InLeapYear ym) mn + d - 1.

(** [MakeDate(day, time) = day * msPerDay + time]. *)
Definition MakeDate (day time : Z) : Z := day * msPerDay + time.

(** [TimeClip(t)]: [NaN] beyond 8.64e15 ms either side of the epoch. *)
Definition TimeClip (t : Z) : option Z :=
  if Z.abs t <=? 8640000000000000 then Some t else None.

(** ** The host's time zone *)

(** A time zone: the offset (milliseconds east of UTC) before its first
    change, and its changes [(instant, offset from that instant on)] in
    increasing order of instant (daylight saving time, rule changes). *)
Record TimeZone := mkZone {
  zone_base : Z;
  zone_changes : list (Z * Z)
}.

(** A zone at a fixed offset. *)
Definition fixed_zone (off : Z) : TimeZone := mkZone off [].

Fixpoint offset_from (o : Z) (chs : list (Z * Z)) (t : Z) : Z :=
  match chs with
  | [] => o
  | (a, o') :: chs => if a <=? t then offset_from o' chs t else o
  end.

(** The offset of the zone at the instant [t]
    ([GetNamedTimeZoneOffsetNanoseconds], in milliseconds). *)
Definition offset_at (z : TimeZone) (t : Z) : Z := offset_from (zone_base z) (zone_changes z) t.

(** [LocalTime(t) = t + offset at t]. *)
Definition LocalTime (z : TimeZone) (t : Z) : Z := t + offset_at z t.

(** The instants of local time [tl], scanning the periods of the zone in
    order: the first period whose offset maps an instant of it to [tl]
    gives the earliest such instant; when [tl] is skipped by a change
    (a gap), it is read with the offset before the change. *)
Fixpoint utc_from (o : Z) (chs : list (Z * Z)) (tl : Z) : Z :=
  match chs with
  | [] => tl - o
  | (a, o') :: chs =>
      if tl - o <? a then tl - o
      else if tl - o' <? a then tl - o
      else utc_from o' chs tl
  end.

(** [UTC(t)] of a local time [t] (ECMA-262 §21.4.1.26). *)
Definition UTC (z : TimeZone) (tl : Z) : Z := utc_from (zone_base z) (zone_changes z) tl.

(** The zones the theorems assume: offsets within a day of UTC, changes
    at least a day apart, none moving the clocks forward by a day. *)
Fixpoint changes_wf (o : Z) (prev : option Z) (chs : list (Z * Z)) : Prop :=
  match chs with
  | [] => True
  | (a, o') :: chs =>
      (match prev with Some p => p + msPerDay ≤ a | None => True end) ∧
      Z.abs o' ≤ msPerDay ∧ o' - o < msPerDay ∧ changes_wf o' (Some a) chs
  end.

Definition zone_wf (z : TimeZone) : Prop :=
  Z.abs (zone_base z) ≤ msPerDay ∧ changes_wf (zone_base z) None (zone_changes z).

(** ** The calendar fields of a day number *)

(** A first guess at the year of day [z]: 400 years have 146097 days. *)
Definition year_estimate (z : Z) : Z := 1970 + (400 * z) / 146097.

(** [YearFromTime] on a day number: the largest year whose first day is
    not after [z], found by correcting the estimate by at most one year. *)
Definition YearFromDay (z : Z) : Z :=
  let y := year_estimate z in
  if DayFromYear (y + 1) <=? z then y + 1
  else if DayFromYear y <=? z then y
  else y - 1.

(** [MonthFromTime] from [DayWithinYear] and [InLeapYear], the table of
    ECMA-262 §21.4.1.6. *)
Definition MonthFromDWY (leap dwy : Z) : Z :=
  if dwy <? 31 then 0
  else if dwy <? 59 + leap then 1
  else if dwy <? 90 + leap then 2
  else if dwy <? 120 + leap then 3
  else if dwy <? 151 + leap then 4
  else if dwy <? 181 + leap then 5
  else if dwy <? 212 + leap then 6
  else if dwy <? 243 + leap then 7
  else if dwy <? 273 + leap then 8
  else if dwy <? 304 + leap then 9
  else if dwy <? 334 + leap then 10
  else 11.

(** [DateFromTime], the table of ECMA-262 §21.4.1.7. *)
Definition DateFromDWY (leap dwy : Z) : Z :=
  let m := MonthFromDWY leap dwy in
  dwy + nth (Z.to_nat m) [1; -30; -58; -89; -119; -150; -180; -211; -242; -272; -303; -333] 0 -
  (if 2 <=? m then leap else 0).

Definition YearFromTime (t : Z) : Z := YearFromDay (Day t).

(** [DayWithinYear(t) = Day(t) - DayFromYear(YearFromTime(t))]. *)
Definition DayWithinYear (t : Z) : Z := Day t - DayFromYear (YearFromTime t).

Definition MonthFromTime (t : Z) : Z :=
  MonthFromDWY (InLeapYear (YearFromTime t)) (DayWithinYear t).

Definition DateFromTime (t : Z) : Z :=
  DateFromDWY (InLeapYear (YearFromTime t)) (DayWithinYear t).

(** [TimeFromYear(y) = msPerDay * DayFromYear(y)]. *)
Definition TimeFromYear (y : Z) : Z := msPerDay * DayFromYear y.

(** The number of days of month [m] (0-based) of year [y]. *)
Definition DaysInMonth (y m : Z) : Z :=
  DayBeforeMonth (InLeapYear y) (m + 1) - DayBeforeMonth (InLeapYear y) m.

(** The fields [getDay()], [getMonth()] and [getDate()] of a valid
    [Date], read in local time. *)
Record DateParts := mkDateParts {
  getDay : Z;
  getMonth : Z;
  getDate : Z
}.

(** The three getters on a time value ([NaN] gives [NaN] for each). *)
Definition date_parts (z : TimeZone) (tv : option Z) : option DateParts :=
  t ← tv;
  let lt := LocalTime z t in
  Some (mkDateParts (WeekDay lt) (MonthFromTime lt) (DateFromTime lt)).

(** ** Lemmas *)

Lemma DayFromYear_shift y : DayFromYear (y + 400) = DayFromYear y + 146097.
Proof.
  unfold DayFromYear.
  replace (y + 400 - 1969) with (y - 1969 + 100 * 4) by lia.
  replace (y + 400 - 1901) with (y - 1901 + 4 * 100) by lia.
  replace (y + 400 - 1601) with (y - 1601 + 1 * 400) by lia.
  rewrite !Z.div_add by lia. lia.
Qed.

Lemma DaysInYear_shift y : DaysInYear (y + 400) = DaysInYear y.
Proof.
  unfold DaysInYear.
  replace (y + 400) with (y + 100 * 4) at 1 by lia. rewrite Z.mod_add by lia.
  replace (y + 400) with (y + 4 * 100) at 1 by lia. rewrite Z.mod_add by lia.
  replace (y + 400) with (y + 1 * 400) by lia. rewrite Z.mod_add by lia.
  done.
Qed.

Lemma InLeapYear_shift y : InLeapYear (y + 400) = InLeapYear y.
Proof. unfold InLeapYear. by rewrite DaysInYear_shift. Qed.

Lemma DaysInYear_bounds y : 365 ≤ DaysInYear y ≤ 366.
Proof. unfold DaysInYear. repeat case_match; lia. Qed.

(** The year after [y] starts [DaysInYear y] days after it: checked on
    one 400-year cycle, which the closed form repeats. *)
Lemma DayFromYear_succ y : DayFromYear (y + 1) = DayFromYear y + DaysInYear y.
Proof.
  revert y. apply (periodic_all 400 0); [lia| |].
  - intros y. rewrite DayFromYear_shift, DaysInYear_shift.
    replace (y + 400 + 1) with (y + 1 + 400) by lia. rewrite DayFromYear_shift. lia.
  - intros r Hr.
    assert (Hc : check_from (λ y, bool_decide (DayFromYear (y + 1) = DayFromYear y + DaysInYear y))
                   0 400 = true) by (vm_compute; reflexivity).
    exact (check_from_decide (λ y, DayFromYear (y + 1) = DayFromYear y + DaysInYear y) _ _ Hc r Hr).
Qed.

Lemma DayFromYear_mono y1 y2 : y1 < y2 → DayFromYear (y1 + 1) ≤ DayFromYear y2.
Proof.
  intros Hlt.
  assert (Hn : ∀ n : nat, DayFromYear (y1 + 1) ≤ DayFromYear (y1 + 1 + Z.of_nat n)).
  { induction n as [|n IH]; [rewrite Z.add_0_r; lia|].
    replace (y1 + 1 + Z.of_nat (S n)) with (y1 + 1 + Z.of_nat n + 1) by lia.
    rewrite (DayFromYear_succ (y1 + 1 + Z.of_nat n)).
    pose proof (DaysInYear_bounds (y1 + 1 + Z.of_nat n)). lia. }
  specialize (Hn (Z.to_nat (y2 - y1 - 1))).
  by replace (y1 + 1 + Z.of_nat (Z.to_nat (y2 - y1 - 1))) with y2 in Hn by lia.
Qed.

(** [DayFromYear] determines the year: the year of day [z] is the largest
    one whose first day is not after [z]. *)
Lemma DayFromYear_largest z y :
  DayFromYear y ≤ z < DayFromYear (y + 1) → ∀ y', DayFromYear y' ≤ z ↔ y' ≤ y.
Proof.
  intros [Hlo Hhi] y'. split; intros Hy'.
  - destruct (Z_le_gt_dec y' y) as [|Hgt]; [done|].
    pose proof (DayFromYear_mono y y' ltac:(lia)). lia.
  - destruct (Z.eq_dec y' y) as [->|]; [done|].
    pose proof (DayFromYear_mono y' y ltac:(lia)).
    pose proof (DaysInYear_bounds y'). rewrite DayFromYear_succ in *. lia.
Qed.

(** [400 * DayFromYear y] is [146097 * (y - 1970)] up to a bounded
    error: the three floors of the closed form. *)
Lemma DayFromYear_approx y :
  146097 * (y - 1970) - 506 ≤ 400 * DayFromYear y ≤ 146097 * (y - 1970) + 589.
Proof. unfold DayFromYear. Z.div_mod_to_equations. lia. Qed.

(** The year [YearFromDay] finds is the year of the day. *)
Lemma YearFromDay_spec z : DayFromYear (YearFromDay z) ≤ z < DayFromYear (YearFromDay z + 1).
Proof.
  unfold YearFromDay, year_estimate.
  assert (Hy : 146097 * (400 * z / 146097) ≤ 400 * z < 146097 * (400 * z / 146097) + 146097)
    by (Z.div_mod_to_equations; lia).
  set (y := 1970 + 400 * z / 146097) in *.
  assert (Hq : 400 * z / 146097 = y - 1970) by (unfold y; lia). rewrite Hq in Hy.
  pose proof (DayFromYear_approx (y - 1)). pose proof (DayFromYear_approx (y + 1 + 1)).
  destruct (Z.leb_spec (DayFromYear (y + 1)) z); [lia|].
  destruct (Z.leb_spec (DayFromYear y) z); rewrite ?Z.sub_add; lia.
Qed.

Lemma InLeapYear_bounds y : 0 ≤ InLeapYear y ≤ 1.
Proof. unfold InLeapYear. pose proof (DaysInYear_bounds y). lia. Qed.

(** The table of [MonthFromTime] and [DateFromTime]: the month is the
    one whose days-within-year hold [dwy], the date counts from its
    first day. *)
Lemma MonthFromDWY_spec leap dwy :
  0 ≤ leap ≤ 1 → 0 ≤ dwy < 365 + leap →
  0 ≤ MonthFromDWY leap dwy < 12 ∧
  DayBeforeMonth leap (MonthFromDWY leap dwy) ≤ dwy < DayBeforeMonth leap (MonthFromDWY leap dwy + 1) ∧
  DateFromDWY leap dwy = dwy - DayBeforeMonth leap (MonthFromDWY leap dwy) + 1.
Proof.
  intros Hl Hd. unfold DateFromDWY, MonthFromDWY, DayBeforeMonth.
  repeat match goal with |- context [?a <? ?b] => destruct (Z.ltb_spec a b) end;
    simpl; lia.
Qed.

(** [DayBeforeMonth] increases with the month: a day-within-year lies in
    one month only. *)
Lemma DayBeforeMonth_unique leap m1 m2 x :
  0 ≤ leap ≤ 1 → 0 ≤ m1 < 12 → 0 ≤ m2 < 12 →
  DayBeforeMonth leap m1 ≤ x < DayBeforeMonth leap (m1 + 1) →
  DayBeforeMonth leap m2 ≤ x < DayBeforeMonth leap (m2 + 1) → m1 = m2.
Proof.
  intros Hl H1 H2.
  assert (Hm : ∀ m, 0 ≤ m < 12 → m ∈ seqZ 0 12) by (intros; apply elem_of_seqZ; lia).
  apply Hm in H1, H2.
  unfold DayBeforeMonth. repeat (apply elem_of_cons in H1 as [->|H1]);
    repeat (apply elem_of_cons in H2 as [->|H2]); simpl; try lia; set_solver.
Qed.

Lemma DayBeforeMonth_12 leap : DayBeforeMonth leap 12 = 365 + leap.
Proof. reflexivity. Qed.

Lemma DayBeforeMonth_0 leap : DayBeforeMonth leap 0 = 0.
Proof. reflexivity. Qed.

(** The day within its year lies between 0 and the year's length. *)
Lemma DayWithinYear_bounds t :
  0 ≤ DayWithinYear t < 365 + InLeapYear (YearFromTime t).
Proof.
  unfold DayWithinYear, YearFromTime, InLeapYear.
  pose proof (YearFromDay_spec (Day t)) as Hs. rewrite DayFromYear_succ in Hs. lia.
Qed.

Lemma time_fields t :
  0 ≤ MonthFromTime t < 12 ∧
  DayBeforeMonth (InLeapYear (YearFromTime t)) (MonthFromTime t) ≤ DayWithinYear t <
    DayBeforeMonth (InLeapYear (YearFromTime t)) (MonthFromTime t + 1) ∧
  DateFromTime t = DayWithinYear t - DayBeforeMonth (InLeapYear (YearFromTime t)) (MonthFromTime t) + 1.
Proof.
  apply MonthFromDWY_spec; [apply InLeapYear_bounds|apply DayWithinYear_bounds].
Qed.

Lemma month_range_cases m :
  0 ≤ m < 12 → m = 0 ∨ m = 1 ∨ m = 2 ∨ m = 3 ∨ m = 4 ∨ m = 5 ∨ m = 6 ∨
               m = 7 ∨ m = 8 ∨ m = 9 ∨ m = 10 ∨ m = 11.
Proof. lia. Qed.

(** [month_cases H] splits [H : 0 ≤ m < 12] into the twelve months. *)
Ltac month_cases H :=
  let Hc := fresh "Hc" in
  pose proof (month_range_cases _ H) as Hc; repeat destruct Hc as [->|Hc]; [..|subst].

Lemma DayBeforeMonth_range leap m :
  0 ≤ leap ≤ 1 → 0 ≤ m < 12 →
  0 ≤ DayBeforeMonth leap m ∧ DayBeforeMonth leap m + 28 ≤ DayBeforeMonth leap (m + 1) ∧
  DayBeforeMonth leap (m + 1) ≤ DayBeforeMonth leap m + 31 ∧
  DayBeforeMonth leap (m + 1) ≤ 365 + leap.
Proof. intros Hl Hm. unfold DayBeforeMonth. month_cases Hm; simpl; lia. Qed.

Lemma YearFromDay_unique z y : DayFromYear y ≤ z < DayFromYear (y + 1) → YearFromDay z = y.
Proof.
  intros Hy. pose proof (YearFromDay_spec z) as Hs.
  pose proof (proj1 (DayFromYear_largest z y Hy (YearFromDay z)) (proj1 Hs)).
  pose proof (proj1 (DayFromYear_largest z _ Hs y) (proj1 Hy)). lia.
Qed.

Lemma Day_MakeDate day time : 0 ≤ time < msPerDay → Day (MakeDate day time) = day.
Proof. unfold Day, MakeDate. intros. Z.div_mod_to_equations. nia. Qed.

(** [YearFromTime] is ECMA-262's definition: for every time value
    [t], a year [y'] starts at or before [t] exactly when [y'] is at
    most [YearFromTime(t)], so [YearFromTime(t)] is the largest year
    with [TimeFromYear(y) ≤ t]. *)
Theorem YearFromTime_largest t y' : TimeFromYear y' ≤ t ↔ y' ≤ YearFromTime t.
Proof.
  unfold YearFromTime. rewrite <-(DayFromYear_largest (Day t) _ (YearFromDay_spec (Day t))).
  unfold TimeFromYear, Day, msPerDay. split; intros; Z.div_mod_to_equations; lia.
Qed.

Lemma fields_MakeDate y m d time :
  0 ≤ m < 12 → 1 ≤ d ≤ DaysInMonth y m → 0 ≤ time < msPerDay →
  YearFromTime (MakeDate (MakeDay y m d) time) = y ∧
  MonthFromTime (MakeDate (MakeDay y m d) time) = m ∧
  DateFromTime (MakeDate (MakeDay y m d) time) = d.
Proof.
  intros Hm Hd Ht. pose proof (InLeapYear_bounds y) as Hl.
  pose proof (DayBeforeMonth_range _ _ Hl Hm) as Hr. unfold DaysInMonth in Hd.
  assert (Hmd : MakeDay y m d = DayFromYear y + DayBeforeMonth (InLeapYear y) m + d - 1).
  { unfold MakeDay. by rewrite Z.div_small, Z.add_0_r, Z.mod_small. }
  assert (Hy : YearFromTime (MakeDate (MakeDay y m d) time) = y).
  { unfold YearFromTime. rewrite Day_MakeDate by done. apply YearFromDay_unique.
    rewrite DayFromYear_succ. unfold InLeapYear in *. lia. }
  pose proof (time_fields (MakeDate (MakeDay y m d) time)) as (Hm' & Hb & Hdate).
  unfold DayWithinYear in *. rewrite Hy in Hb, Hdate |- *.
  rewrite Day_MakeDate in Hb, Hdate by done.
  assert (MonthFromTime (MakeDate (MakeDay y m d) time) = m) as Hmon.
  { eapply DayBeforeMonth_unique; [done|done|done|exact Hb|lia]. }
  rewrite Hmon in Hdate. split; [done|split; [done|lia]].
Qed.

Lemma date_parts_range z tv p :
  date_parts z tv = Some p →
  0 ≤ getDay p < 7 ∧ 0 ≤ getMonth p < 12 ∧ 1 ≤ getDate p ≤ 31.
Proof.
  destruct tv as [t|]; [|done]. intros [= <-]. simpl.
  pose proof (time_fields (LocalTime z t)) as (Hm & Hb & ->).
  pose proof (DayBeforeMonth_range _ _ (InLeapYear_bounds (YearFromTime (LocalTime z t))) Hm).
  unfold WeekDay. pose proof (Z.mod_pos_bound (Day (LocalTime z t) + 4) 7). lia.
Qed.

(** The fields of a time value depend on its day only. *)
Lemma fields_Day t1 t2 :
  Day t1 = Day t2 →
  WeekDay t1 = WeekDay t2 ∧ MonthFromTime t1 = MonthFromTime t2 ∧ DateFromTime t1 = DateFromTime t2.
Proof.
  unfold WeekDay, MonthFromTime, DateFromTime, DayWithinYear, YearFromTime. intros ->. done.
Qed.

(** The calendar fields invert [MakeDay]: the time value of month
    [m] (0-based), date [d] of year [y] at any time of that day has
    [YearFromTime] [y], [MonthFromTime] [m] and [DateFromTime] [d],
    whenever [d] is a day of that month. *)
Theorem MakeDate_fields y m d time :
  0 ≤ m < 12 → 1 ≤ d ≤ DaysInMonth y m → 0 ≤ time < msPerDay →
  YearFromTime (MakeDate (MakeDay y m d) time) = y ∧
  MonthFromTime (MakeDate (MakeDay y m d) time) = m ∧
  DateFromTime (MakeDate (MakeDay y m d) time) = d.
Proof. apply fields_MakeDate. Qed.

(** ** The time zone *)

Lemma offset_fixed_zone o t : offset_at (fixed_zone o) t = o.
Proof. reflexivity. Qed.

Lemma UTC_fixed_zone o tl : UTC (fixed_zone o) tl = tl - o.
Proof. reflexivity. Qed.

Lemma offset_from_bounded o prev chs t :
  Z.abs o ≤ msPerDay → changes_wf o prev chs → Z.abs (offset_from o chs t) ≤ msPerDay.
Proof.
  revert o prev. induction chs as [|[a o'] chs IH]; intros o prev Ho Hwf; simpl; [done|].
  destruct Hwf as (_ & Ho' & _ & Hwf). case_match; [by eapply IH|done].
Qed.

Lemma offset_at_bounded z t : zone_wf z → Z.abs (offset_at z t) ≤ msPerDay.
Proof. intros [Hb Hwf]. by eapply offset_from_bounded. Qed.

(** [UTC] moves a local time by one of the zone's offsets. *)
Lemma utc_from_bounded o prev chs tl :
  Z.abs o ≤ msPerDay → changes_wf o prev chs → Z.abs (utc_from o chs tl - tl) ≤ msPerDay.
Proof.
  revert o prev. induction chs as [|[a o'] chs IH]; intros o prev Ho Hwf; simpl; [lia|].
  destruct Hwf as (_ & Ho' & _ & Hwf).
  destruct (Z.ltb_spec (tl - o) a); [lia|]. destruct (Z.ltb_spec (tl - o') a); [lia|].
  by eapply IH.
Qed.

Lemma UTC_bounded z tl : zone_wf z → Z.abs (UTC z tl - tl) ≤ msPerDay.
Proof. intros [Hb Hwf]. by eapply utc_from_bounded. Qed.

(** Before the next change, the offset is the current one. *)
Lemma offset_from_before o prev chs t :
  changes_wf o (Some prev) chs → t < prev + msPerDay → offset_from o chs t = o.
Proof.
  destruct chs as [|[a o'] chs]; simpl; [done|]. intros (Hsp & _) Ht.
  destruct (Z.leb_spec a t); [lia|done].
Qed.

(** The instant [utc_from] finds has local time [tl], or a little later
    when [tl] falls in a gap: never a day later. *)
Lemma utc_from_local o lo chs tl :
  changes_wf o lo chs → (∀ p, lo = Some p → p ≤ tl - o) →
  (∀ p, lo = Some p → p ≤ utc_from o chs tl) ∧
  tl ≤ utc_from o chs tl + offset_from o chs (utc_from o chs tl) < tl + msPerDay.
Proof.
  revert o lo. induction chs as [|[a o'] chs IH]; intros o lo Hwf Hlo; simpl.
  - split; [done|unfold msPerDay; lia].
  - destruct Hwf as (Hsp & Ho' & Hgap & Hwf).
    destruct (Z.ltb_spec (tl - o) a).
    + rewrite (proj2 (Z.leb_gt a (tl - o))) by lia. split; [done|unfold msPerDay; lia].
    + destruct (Z.ltb_spec (tl - o') a).
      * rewrite (proj2 (Z.leb_le a (tl - o))) by lia.
        rewrite (offset_from_before o' a) by (done || lia).
        split; [|lia]. intros p ->. lia.
      * destruct (IH o' (Some a) Hwf) as [Hu Hl]; [intros p [= <-]; lia|].
        specialize (Hu a eq_refl).
        rewrite (proj2 (Z.leb_le a _)) by lia. split; [|done].
        intros p ->. simpl in Hsp. unfold msPerDay in *. lia.
Qed.

(** The local time of [UTC(tl)] is [tl], or later by less than a day. *)
Lemma LocalTime_UTC z tl : zone_wf z → tl ≤ LocalTime z (UTC z tl) < tl + msPerDay.
Proof.
  intros [_ Hwf]. unfold LocalTime, UTC, offset_at.
  by destruct (utc_from_local (zone_base z) None (zone_changes z) tl Hwf) as [_ H].
Qed.

(** The getters of a valid [Date] stay in range in every time zone:
    [getDay()] in [0 .. 6], [getMonth()] in [0 .. 11] and [getDate()] in
    [1 .. 31]. *)
Theorem date_parts_bounds z tv p :
  date_parts z tv = Some p →
  0 ≤ getDay p < 7 ∧ 0 ≤ getMonth p < 12 ∧ 1 ≤ getDate p ≤ 31.
Proof. apply date_parts_range. Qed.

Lemma MakeDate_fields_witness :
  YearFromTime (MakeDate (MakeDay 2024 1 29) 0) = 2024 ∧
  MonthFromTime (MakeDate (MakeDay 2024 1 29) 0) = 1 ∧
  DateFromTime (MakeDate (MakeDay 2024 1 29) 0) = 29.
Proof.
  apply (MakeDate_fields 2024 1 29 0);
    [lia|change (DaysInMonth 2024 1) with 29; lia|unfold msPerDay; lia].
Defined.

Lemma date_parts_bounds_witness :
  0 ≤ getDay (mkDateParts 1 0 15) < 7 ∧ 0 ≤ getMonth (mkDateParts 1 0 15) < 12 ∧
  1 ≤ getDate (mkDateParts 1 0 15) ≤ 31.
Proof. apply (date_parts_bounds (fixed_zone 0) (Some 1705276800000)). vm_compute. reflexivity. Defined.

End JsDate.
