(* ===== verification/DateString.v ===== *)
(** * [new Date(solveDate)]: the Date Time String Format

    [checkWinner(solveDate: string | Date)] starts with
    [new Date(solveDate)] (src/src/stores/game.ts, line 97). A [Date]
    argument gives its time value; a string is parsed as by [Date.parse]
    in the Date Time String Format of ECMA-262 §21.4.1.32:
    [YYYY], [YYYY-MM] or [YYYY-MM-DD] (years also as [+YYYYYY] or
    [-YYYYYY]), optionally followed by [THH:mm], [THH:mm:ss] or
    [THH:mm:ss.sss] and an offset [Z] or [+HH:mm] / [-HH:mm]. A
    date-only form is read as UTC, a date-time form without an offset as
    local time. Out-of-range fields make the string invalid ([NaN]).
    ECMA-262 leaves strings outside this format to the implementation;
    the model reads them as [NaN] as well.

    The theorems: a printed [YYYY-MM-DD] date parses to midnight UTC of
    that day in every time zone ([parse_iso_date]); in a zone west of UTC
    its getters therefore report the previous day
    ([date_only_shows_previous_day]), while the local form [...T00:00]
    reports the day itself ([local_midnight_fields]); and the last day
    [TimeClip] allows is +275760-09-13 ([parse_time_clip_limit]). *)

From Stdlib Require Import Ascii.
From S2P Require Import Prelude JsDate.

Open Scope Z_scope.

Module DateString.
Import JsDate.

(** ** The reader *)

(** A decimal digit. *)
Definition digit (a : ascii) : option Z :=
  let n := Z.of_nat (nat_of_ascii a) in
  if (48 <=? n) && (n <=? 57) then Some (n - 48) else None.

(** Exactly [n] digits, accumulated onto [acc]. *)
Fixpoint digits (n : nat) (acc : Z) (s : string) : option (Z * string) :=
  match n with
  | O => Some (acc, s)
  | S n =>
      match s with
      | EmptyString => None
      | String a s => v ← digit a; digits n (acc * 10 + v) s
      end
  end.

(** The character [c]. *)
Definition lit (c : ascii) (s : string) : option string :=
  match s with
  | String a s => if Ascii.eqb a c then Some s else None
  | EmptyString => None
  end.

(** [YYYY], or a sign and six digits; [-000000] is not a year. *)
Definition year (s : string) : option (Z * string) :=
  match s with
  | String a s' =>
      if Ascii.eqb a "+"%char then digits 6 0 s'
      else if Ascii.eqb a "-"%char then
        '(y, s'') ← digits 6 0 s'; if y =? 0 then None else Some (- y, s'')
      else digits 4 0 s
  | EmptyString => None
  end.

(** [YYYY], [YYYY-MM] or [YYYY-MM-DD]; an absent month or day is [01]. *)
Definition date_part (s : string) : option (Z * Z * Z * string) :=
  '(y, s) ← year s;
  match lit "-"%char s with
  | Some s =>
      '(mo, s) ← digits 2 0 s;
      match lit "-"%char s with
      | Some s => '(d, s) ← digits 2 0 s; Some (y, mo, d, s)
      | None => Some (y, mo, 1, s)
      end
  | None => Some (y, 1, 1, s)
  end.

(** [HH:mm], [HH:mm:ss] or [HH:mm:ss.sss]. *)
Definition time_part (s : string) : option (Z * Z * Z * Z * string) :=
  '(h, s) ← digits 2 0 s;
  s ← lit ":"%char s;
  '(mi, s) ← digits 2 0 s;
  match lit ":"%char s with
  | Some s =>
      '(sec, s) ← digits 2 0 s;
      match lit "."%char s with
      | Some s => '(ms, s) ← digits 3 0 s; Some (h, mi, sec, ms, s)
      | None => Some (h, mi, sec, 0, s)
      end
  | None => Some (h, mi, 0, 0, s)
  end.

(** The UTC offset of a date-time form. *)
Inductive offset := Local | Offset (ms : Z).

(** Nothing (local time), [Z], or [+HH:mm] / [-HH:mm], then the end of
    the string. *)
Definition offset_part (s : string) : option offset :=
  match s with
  | EmptyString => Some Local
  | String a s =>
      if Ascii.eqb a "Z"%char then
        match s with EmptyString => Some (Offset 0) | _ => None end
      else
        sign ← (if Ascii.eqb a "+"%char then Some 1
                else if Ascii.eqb a "-"%char then Some (-1) else None);
        '(h, s) ← digits 2 0 s;
        s ← lit ":"%char s;
        '(mi, s) ← digits 2 0 s;
        match s with
        | EmptyString =>
            if (h <=? 23) && (mi <=? 59) then Some (Offset (sign * MakeTime h mi 0 0))
            else None
        | _ => None
        end
  end.

(** [HH] in [00 .. 24], [mm] and [ss] in [00 .. 59]; [24] only as
    [24:00:00.000]. *)
Definition valid_time (h mi sec ms : Z) : bool :=
  (h <=? 24) && (mi <=? 59) && (sec <=? 59) &&
  (if h =? 24 then (mi =? 0) && (sec =? 0) && (ms =? 0) else true).

(** [Date.parse(s)] on the Date Time String Format, in a host whose
    local time zone is [z]. *)
Definition parse (z : TimeZone) (s : string) : option Z :=
  '(y, mo, d, s) ← date_part s;
  if (1 <=? mo) && (mo <=? 12) && (1 <=? d) && (d <=? 31) then
    match s with
    | EmptyString => TimeClip (MakeDate (MakeDay y (mo - 1) d) 0)
    | String a s =>
        if Ascii.eqb a "T"%char then
          '(h, mi, sec, ms, s) ← time_part s;
          if valid_time h mi sec ms then
            off ← offset_part s;
            let t := MakeDate (MakeDay y (mo - 1) d) (MakeTime h mi sec ms) in
            TimeClip (match off with Local => UTC z t | Offset o => t - o end)
          else None
        else None
    end
  else None.

(** ** Printing a date in the format *)

Definition ascii_of_digit (v : Z) : ascii := ascii_of_nat (Z.to_nat (48 + v)).

(** The low [n] decimal digits of [v], most significant first. *)
Fixpoint show_digits (n : nat) (v : Z) : string :=
  match n with
  | O => EmptyString
  | S n => show_digits n (v / 10) +:+ String (ascii_of_digit (v mod 10)) EmptyString
  end.

(** [YYYY-MM-DD]. *)
Definition iso_date (y m d : Z) : string :=
  show_digits 4 y +:+ String "-"%char (show_digits 2 m +:+ String "-"%char (show_digits 2 d)).

End DateString.

(** ** [new Date(solveDate)] and its getters *)

(** [solveDate: string | Date]: a [Date] carries its time value. *)
Inductive DateArg :=
  | DString (s : string)
  | DDate (tv : option Z).

(** [new Date(value)]: the time value of a [Date], or the string parsed,
    then [TimeClip]. *)
Definition new_Date (z : JsDate.TimeZone) (v : DateArg) : option Z :=
  match v with
  | DDate tv => tv ≫= JsDate.TimeClip
  | DString s => DateString.parse z s ≫= JsDate.TimeClip
  end.

(** [const dt = new Date(solveDate)] and the three getters of lines
    97-100, [None] for an Invalid Date. *)
Definition solveDateParts (z : JsDate.TimeZone) (solveDate : DateArg) : option JsDate.DateParts :=
  JsDate.date_parts z (new_Date z solveDate).

(** A host zone with daylight saving time: America/Sao_Paulo in
    2018-2019, at -03:00 until 2018-11-04T03:00Z (local midnight, when the
    clocks jumped to 01:00), then -02:00 until 2019-02-17T02:00Z (local
    midnight, when they went back to 23:00 of the 16th). *)
Definition sao_paulo_2018 : JsDate.TimeZone :=
  JsDate.mkZone (-10800000) [(1541300400000, -7200000); (1550368800000, -10800000)].

(** ** Lemmas *)

Import JsDate DateString.

Lemma digit_ascii_of_digit v : 0 ≤ v < 10 → digit (ascii_of_digit v) = Some v.
Proof.
  intros Hv.
  assert (Hc : check_from (λ v, bool_decide (digit (ascii_of_digit v) = Some v)) 0 10 = true)
    by (vm_compute; reflexivity).
  exact (check_from_decide (λ v, digit (ascii_of_digit v) = Some v) _ _ Hc v ltac:(lia)).
Qed.

Lemma digits_add n k acc s :
  digits (n + k) acc s = '(x, s') ← digits n acc s; digits k x s'.
Proof.
  revert acc s. induction n as [|n IH]; intros acc s; [done|].
  destruct s as [|a s]; [done|]. simpl. destruct (digit a); simpl; [apply IH|done].
Qed.

Lemma show_digits_S n v :
  show_digits (S n) v = show_digits n (v / 10) +:+ String (ascii_of_digit (v mod 10)) EmptyString.
Proof. reflexivity. Qed.

(** Reading back [n] printed digits. *)
Lemma digits_show n acc v s :
  0 ≤ v < 10 ^ Z.of_nat n →
  digits n acc (show_digits n v +:+ s) = Some (acc * 10 ^ Z.of_nat n + v, s).
Proof.
  revert acc v s. induction n as [|n IH]; intros acc v s Hv.
  - simpl in *. f_equal. f_equal. lia.
  - rewrite show_digits_S, string_app_assoc.
    replace (S n) with (n + 1)%nat by lia. rewrite digits_add.
    rewrite Nat2Z.inj_succ, Z.pow_succ_r in Hv by lia.
    rewrite IH by (split; [apply Z.div_pos|apply Z.div_lt_upper_bound]; lia).
    simpl. rewrite digit_ascii_of_digit by (apply Z.mod_pos_bound; lia). simpl.
    rewrite Nat2Z.inj_add, Z.pow_add_r by lia.
    pose proof (Z.div_mod v 10 ltac:(lia)). f_equal. f_equal. nia.
Qed.

Lemma show_digits_4 v s :
  show_digits 4 v +:+ s =
  String (ascii_of_digit (v / 10 / 10 / 10 mod 10)) (String (ascii_of_digit (v / 10 / 10 mod 10))
    (String (ascii_of_digit (v / 10 mod 10)) (String (ascii_of_digit (v mod 10)) s))).
Proof. reflexivity. Qed.

(** A string that starts with a digit has a four-digit year. *)
Lemma year_digit a s : is_Some (digit a) → year (String a s) = digits 4 0 (String a s).
Proof.
  intros [v Hv]. unfold year.
  destruct (Ascii.eqb_spec a "+"%char) as [->|]; [discriminate Hv|].
  destruct (Ascii.eqb_spec a "-"%char) as [->|]; [discriminate Hv|]. done.
Qed.

(** A printed year of four digits is read as such, not as a signed one. *)
Lemma year_show v s :
  0 ≤ v < 10000 → year (show_digits 4 v +:+ s) = Some (v, s).
Proof.
  intros Hv. rewrite show_digits_4, year_digit, <-show_digits_4.
  - rewrite digits_show by (simpl; lia). repeat f_equal; lia.
  - eexists. apply digit_ascii_of_digit, Z.mod_pos_bound. lia.
Qed.

(** The time value of a day of the years [0 .. 9999] is well inside the
    range [TimeClip] allows. *)
Lemma TimeClip_years y m d time :
  0 ≤ y ≤ 9999 → 0 ≤ m < 12 → 1 ≤ d ≤ 31 → Z.abs time ≤ 2 * msPerDay →
  TimeClip (MakeDate (MakeDay y m d) time) = Some (MakeDate (MakeDay y m d) time).
Proof.
  intros Hy Hm Hd Ht. pose proof (DayFromYear_approx y). pose proof (InLeapYear_bounds y).
  pose proof (DayBeforeMonth_range _ _ (InLeapYear_bounds y) Hm).
  unfold TimeClip, MakeDate, MakeDay, msPerDay in *.
  rewrite Z.div_small, Z.add_0_r, Z.mod_small by lia.
  rewrite (proj2 (Z.leb_le _ _)); [done|lia].
Qed.

(** Any instant within two days of such a day is kept too. *)
Lemma TimeClip_near y m d t :
  0 ≤ y ≤ 9999 → 0 ≤ m < 12 → 1 ≤ d ≤ 31 →
  Z.abs (t - MakeDate (MakeDay y m d) 0) ≤ 2 * msPerDay → TimeClip t = Some t.
Proof.
  intros Hy Hm Hd Ht.
  replace t with (MakeDate (MakeDay y m d) (t - MakeDate (MakeDay y m d) 0))
    by (unfold MakeDate; lia).
  apply TimeClip_years; [done..|]. unfold MakeDate in *. lia.
Qed.

Lemma lit_cons c s : lit c (String c s) = Some s.
Proof. unfold lit. by rewrite Ascii.eqb_refl. Qed.

(** A printed [YYYY-MM-DD] is read back field by field. *)
Lemma date_part_iso y m d s :
  0 ≤ y ≤ 9999 → 0 ≤ m < 100 → 0 ≤ d < 100 →
  date_part (iso_date y m d +:+ s) = Some (y, m, d, s).
Proof.
  intros Hy Hm Hd. unfold date_part, iso_date.
  repeat rewrite ?string_app_assoc, ?string_app_cons.
  rewrite year_show by lia. cbn [mbind option_bind].
  rewrite lit_cons, digits_show by (simpl; lia). cbn [mbind option_bind].
  rewrite lit_cons, digits_show by (simpl; lia). cbn [mbind option_bind].
  repeat f_equal; simpl; lia.
Qed.

Lemma month_day_ok m d :
  1 ≤ m ≤ 12 → 1 ≤ d ≤ 31 → (1 <=? m) && (m <=? 12) && (1 <=? d) && (d <=? 31) = true.
Proof. intros. repeat rewrite andb_true_iff; rewrite !Z.leb_le; lia. Qed.

Lemma parse_iso_date_h z y m d :
  0 ≤ y ≤ 9999 → 1 ≤ m ≤ 12 → 1 ≤ d ≤ 31 →
  parse z (iso_date y m d) = Some (MakeDate (MakeDay y (m - 1) d) 0).
Proof.
  intros Hy Hm Hd. unfold parse.
  rewrite <-(string_app_nil_r (iso_date y m d)), date_part_iso by lia.
  cbn [mbind option_bind]. rewrite month_day_ok by lia.
  apply TimeClip_years; unfold msPerDay; lia.
Qed.

(** The local form [YYYY-MM-DDT00:00] is midnight of that day in the
    host's time zone. *)
Lemma parse_iso_local_h z y m d :
  0 ≤ y ≤ 9999 → 1 ≤ m ≤ 12 → 1 ≤ d ≤ 31 → zone_wf z →
  parse z (iso_date y m d +:+ "T00:00") = Some (UTC z (MakeDate (MakeDay y (m - 1) d) 0)).
Proof.
  intros Hy Hm Hd Hz. unfold parse. rewrite date_part_iso by lia.
  cbn [mbind option_bind]. rewrite month_day_ok by lia.
  change (time_part "00:00") with (Some (0, 0, 0, 0, EmptyString)).
  rewrite Ascii.eqb_refl. cbn [mbind option_bind offset_part].
  change (valid_time 0 0 0 0) with true. cbn iota beta. change (MakeTime 0 0 0 0) with 0.
  pose proof (UTC_bounded z (MakeDate (MakeDay y (m - 1) d) 0) Hz).
  apply (TimeClip_near y (m - 1) d); unfold msPerDay in *; lia.
Qed.

Lemma DaysInMonth_le_31 y m : 0 ≤ m < 12 → DaysInMonth y m ≤ 31.
Proof.
  intros Hm. pose proof (DayBeforeMonth_range _ _ (InLeapYear_bounds y) Hm).
  unfold DaysInMonth. lia.
Qed.

(** A date printed as [YYYY-MM-DD] (years 0 to 9999) is read by
    [new Date] as midnight UTC of that day, whatever the host's time
    zone: the date-only form is UTC. *)
Theorem parse_iso_date z y m d :
  0 ≤ y ≤ 9999 → 1 ≤ m ≤ 12 → 1 ≤ d ≤ 31 →
  new_Date z (DString (iso_date y m d)) = Some (MakeDate (MakeDay y (m - 1) d) 0).
Proof.
  intros Hy Hm Hd. unfold new_Date. rewrite parse_iso_date_h by done. simpl.
  apply TimeClip_years; unfold msPerDay; lia.
Qed.

Lemma solveDateParts_date_only_west z y m d :
  0 ≤ y ≤ 9999 → 1 ≤ m ≤ 12 → 1 ≤ d ≤ 31 →
  - msPerDay ≤ offset_at z (MakeDate (MakeDay y (m - 1) d) 0) < 0 →
  solveDateParts z (DString (iso_date y m d)) =
    Some (let t := MakeDate (MakeDay y (m - 1) d - 1) 0 in
          mkDateParts (WeekDay t) (MonthFromTime t) (DateFromTime t)).
Proof.
  intros Hy Hm Hd Htz. unfold solveDateParts, new_Date.
  rewrite parse_iso_date_h by done. simpl.
  rewrite !TimeClip_years by (unfold msPerDay in *; lia). simpl. f_equal.
  destruct (fields_Day (LocalTime z (MakeDate (MakeDay y (m - 1) d) 0))
                       (MakeDate (MakeDay y (m - 1) d - 1) 0)) as (-> & -> & ->); [|done].
  unfold LocalTime. rewrite Day_MakeDate by (unfold msPerDay in *; lia).
  revert Htz. generalize (offset_at z (MakeDate (MakeDay y (m - 1) d) 0)). intros o Ho.
  unfold Day, MakeDate, msPerDay in *.
  replace (MakeDay y (m - 1) d * 86400000 + 0 + o)
    with ((MakeDay y (m - 1) d - 1) * 86400000 + (86400000 + o)) by lia.
  rewrite Z.div_add_l, Z.div_small by lia. lia.
Qed.

(** C12: in a host west of UTC (its offset at that instant in
    [-24h, 0)), [new Date('YYYY-MM-DD')] shows the PREVIOUS day:
    [getDay()], [getMonth()] and [getDate()] are those of the day before
    the date the string names. *)
Theorem date_only_shows_previous_day z y m d :
  0 ≤ y ≤ 9999 → 1 ≤ m ≤ 12 → 1 ≤ d ≤ 31 →
  - msPerDay ≤ offset_at z (MakeDate (MakeDay y (m - 1) d) 0) < 0 →
  solveDateParts z (DString (iso_date y m d)) =
    Some (let t := MakeDate (MakeDay y (m - 1) d - 1) 0 in
          mkDateParts (WeekDay t) (MonthFromTime t) (DateFromTime t)).
Proof. apply solveDateParts_date_only_west. Qed.

(** C25: the local form [YYYY-MM-DDT00:00] shows the date it names in
    every time zone whose offsets stay within a day of UTC, daylight
    saving time included: its month and date are the string's, its
    weekday that of the day, also when midnight is skipped or repeated by
    a change of offset. *)
Theorem local_midnight_fields z y m d :
  0 ≤ y ≤ 9999 → 1 ≤ m ≤ 12 → 1 ≤ d ≤ DaysInMonth y (m - 1) → zone_wf z →
  solveDateParts z (DString (iso_date y m d +:+ "T00:00")) =
    Some (mkDateParts (WeekDay (MakeDate (MakeDay y (m - 1) d) 0)) (m - 1) d).
Proof.
  intros Hy Hm Hd Hz. pose proof (DaysInMonth_le_31 y (m - 1) ltac:(lia)).
  unfold solveDateParts, new_Date. rewrite parse_iso_local_h by (done || lia). simpl.
  pose proof (UTC_bounded z (MakeDate (MakeDay y (m - 1) d) 0) Hz).
  rewrite (TimeClip_near y (m - 1) d) by (unfold msPerDay in *; lia). simpl.
  pose proof (LocalTime_UTC z (MakeDate (MakeDay y (m - 1) d) 0) Hz) as Hl.
  destruct (fields_Day (LocalTime z (UTC z (MakeDate (MakeDay y (m - 1) d) 0)))
                       (MakeDate (MakeDay y (m - 1) d) 0)) as (-> & -> & ->).
  { rewrite Day_MakeDate by (unfold msPerDay; lia). unfold Day, MakeDate in *.
    symmetry. apply Z.div_unique with (LocalTime z (UTC z (MakeDay y (m - 1) d * msPerDay + 0)) -
                                       MakeDay y (m - 1) d * msPerDay); unfold msPerDay in *; lia. }
  destruct (fields_MakeDate y (m - 1) d 0) as (_ & -> & ->); [lia|done|unfold msPerDay; lia|done].
Qed.

(** [TimeClip] bounds the dates [new Date] accepts: +275760-09-13
    is 8.64e15 ms, the last valid instant's day, and the day after is an
    Invalid Date; -271821-04-20 is the first valid day and the day before
    is invalid, in every time zone. *)
Theorem parse_time_clip_limit z :
  new_Date z (DString "+275760-09-13") = Some 8640000000000000 ∧
  new_Date z (DString "+275760-09-14") = None ∧
  new_Date z (DString "-271821-04-20") = Some (-8640000000000000) ∧
  new_Date z (DString "-271821-04-19") = None.
Proof. vm_compute. repeat split. Qed.

(** Strings out of the format's ranges are Invalid Dates: month 13,
    day 32, a one-digit month, hour 24 with minutes, minute 60, and an
    offset of 24 hours. *)
Theorem parse_rejects_out_of_range z :
  new_Date z (DString "2024-13-01") = None ∧
  new_Date z (DString "2024-01-32") = None ∧
  new_Date z (DString "2024-1-15") = None ∧
  new_Date z (DString "2024-01-15T24:30") = None ∧
  new_Date z (DString "2024-01-15T10:60") = None ∧
  new_Date z (DString "2024-01-15T10:00+24:00") = None.
Proof. vm_compute. repeat split. Qed.

Lemma parse_iso_date_witness :
  new_Date (fixed_zone 0) (DString (iso_date 2024 1 15)) = Some (MakeDate (MakeDay 2024 0 15) 0).
Proof. apply (parse_iso_date (fixed_zone 0) 2024 1 15); lia. Defined.

Lemma date_only_shows_previous_day_witness :
  solveDateParts (fixed_zone (-18000000)) (DString (iso_date 2024 1 15)) =
    Some (let t := MakeDate (MakeDay 2024 0 15 - 1) 0 in
          mkDateParts (WeekDay t) (MonthFromTime t) (DateFromTime t)).
Proof.
  apply (date_only_shows_previous_day (fixed_zone (-18000000)) 2024 1 15);
    rewrite ?offset_fixed_zone; unfold msPerDay; lia.
Defined.

Lemma local_midnight_fields_witness :
  solveDateParts sao_paulo_2018 (DString (iso_date 2018 11 4 +:+ "T00:00")) =
    Some (mkDateParts (WeekDay (MakeDate (MakeDay 2018 (11 - 1) 4) 0)) (11 - 1) 4).
Proof.
  apply (local_midnight_fields sao_paulo_2018 2018 11 4);
    [lia|lia|change (DaysInMonth 2018 (11 - 1)) with 30; lia|].
  split; simpl; unfold msPerDay; lia.
Defined.
