(* ===== verification/Winner.v ===== *)
(** * Win evaluator: [checkWinner] (game.ts, lines 96-118)

    [checkWinner(solveDate)] builds [new Date(solveDate)], reads its
    weekday, month and day of the month in local time, keeps the cells
    that are neither occupied nor blocked, and, when more than two
    remain, compares the [value] of the FIRST free cell of type [day],
    [month] and [date] (in array order) with [dayName[day]],
    [monthName[month]] and [date.toString()].

    The date comes from [DateString.solveDateParts] ([new Date] and the
    getters, in a host whose time zone is [z], with its changes of offset); an Invalid
    Date has [NaN] getters, so that [dayName[NaN]] is [undefined] and no
    comparison holds.

    The theorems: [checkWinner] holds exactly when the date is valid and
    the first free cells of the three types carry the date's names, so
    the [> 2] gate and the truthiness tests never decide anything; a
    board in the spec's solved state is reported solved; the
    name lookups of a valid date are never [undefined];
    [date.toString()] is the decimal numeral, read back by the decimal
    parser; an Invalid Date never wins; and, against the spec, nothing
    requires the other cells to be covered or the three free cells to be
    the only ones of their type, a date-only string is checked against
    the previous day in a time zone west of UTC, and an impossible date
    such as 2024-02-30 is checked as the day it rolls over to. *)

From Stdlib Require Import DecimalZ.
From S2P Require Import Prelude Cells Layouts Coverage Legality Placement JsDate DateString.
Import Coverage Legality Placement.

Open Scope Z_scope.

(** ** Definitions *)

Import JsDate DateString.

Module Winner.

Definition dayName : list string := ["SUN"; "MON"; "TUE"; "WED"; "THU"; "FRI"; "SAT"].

Definition monthName : list string :=
  ["JAN"; "FEB"; "MAR"; "APR"; "MAY"; "JUN"; "JUL"; "AUG"; "SEP"; "OCT"; "NOV"; "DEC"].

(** [Number.prototype.toString()] on an integer: its decimal numeral,
    with a minus sign when negative and no leading zero. *)
Definition number_toString (z : Z) : string := NilZero.string_of_int (Z.to_int z).

(** The decimal reader the numeral is read back with. *)
Definition parse_decimal (s : string) : option Z := Z.of_int <$> NilZero.int_of_string s.

(** [value === arr[i]] where [arr[i]] may be [undefined]. *)
Definition eq_index (v : string) (o : option string) : bool :=
  match o with Some s => v === s | None => false end.

(** [boardState.filter(cell => cell.isOccupied === false &&
    cell.type !== 'blocked')] (line 104). *)
Definition unOccupiedCells (boardState : Board) : Board :=
  List.filter (λ cell, (Cell.isOccupied cell === false) && negb (Cell.type cell === blocked))
    boardState.

(** [unOccupiedCells.find(cell => cell.type === ty)]. *)
Definition find_type (cells : Board) (ty : string) : option Cell.t :=
  List.find (λ cell, Cell.type cell === ty) cells.

(** [checkWinner(solveDate)] in a host whose time zone is [z]: [dt] and its getters (lines 97-100), the
    free cells (line 104), the gate (line 105), the first cell of each
    type (lines 106-108), the truthiness tests (line 110) and the three
    comparisons (line 112). *)
Definition checkWinner (z : TimeZone) (boardState : Board) (solveDate : DateArg) : bool :=
  let dt := solveDateParts z solveDate in
  let cells := unOccupiedCells boardState in
  if (2 <? length cells)%nat then
    match find_type cells day, find_type cells month, find_type cells date with
    | Some selectedDay, Some selectedMonth, Some selectedDate =>
        if js_truthy_string (Cell.value selectedDay) &&
           js_truthy_string (Cell.value selectedMonth) &&
           js_truthy_string (Cell.value selectedDate) then
          match dt with
          | Some p =>
              eq_index (Cell.value selectedDay) (js_index dayName (getDay p)) &&
              eq_index (Cell.value selectedMonth) (js_index monthName (getMonth p)) &&
              (Cell.value selectedDate === number_toString (getDate p))
          | None => false
          end
        else false
    | _, _, _ => false
    end
  else false.

(** The property the three comparisons express, without the gate. *)
Definition shows_date (board : Board) (p : DateParts) : Prop :=
  (∃ d, find_type (unOccupiedCells board) day = Some d ∧
        js_index dayName (getDay p) = Some (Cell.value d)) ∧
  (∃ m, find_type (unOccupiedCells board) month = Some m ∧
        js_index monthName (getMonth p) = Some (Cell.value m)) ∧
  (∃ t, find_type (unOccupiedCells board) date = Some t ∧
        Cell.value t = number_toString (getDate p)).

(** The solved state of the spec (§4.5 and its glossary): the free,
    non-blocked cells are exactly one [day], one [month] and one [date]
    cell, and they spell out the date. *)
Definition solved (board : Board) (p : DateParts) : Prop :=
  ∃ d m t,
    (∀ c, c ∈ unOccupiedCells board ↔ c = d ∨ c = m ∨ c = t) ∧
    Cell.type d = day ∧ Cell.type m = month ∧ Cell.type t = date ∧
    js_index dayName (getDay p) = Some (Cell.value d) ∧
    js_index monthName (getMonth p) = Some (Cell.value m) ∧
    Cell.value t = number_toString (getDate p).

(** ** Lemmas *)

Lemma eq_index_true v o : eq_index v o = true ↔ o = Some v.
Proof.
  destruct o as [s|]; simpl; [|done].
  rewrite js_strict_eq_true. naive_solver.
Qed.

Lemma dayName_truthy i v : js_index dayName i = Some v → js_truthy_string v = true.
Proof.
  intros [_ Hi]%js_index_Some. apply list_elem_of_lookup_2 in Hi.
  unfold dayName in Hi. repeat (apply elem_of_cons in Hi as [->|Hi]; [done|]). set_solver.
Qed.

Lemma monthName_truthy i v : js_index monthName i = Some v → js_truthy_string v = true.
Proof.
  intros [_ Hi]%js_index_Some. apply list_elem_of_lookup_2 in Hi.
  unfold monthName in Hi. repeat (apply elem_of_cons in Hi as [->|Hi]; [done|]). set_solver.
Qed.

Lemma Z_to_int_not_nil z : Z.to_int z ≠ Decimal.Pos Decimal.Nil ∧ Z.to_int z ≠ Decimal.Neg Decimal.Nil.
Proof.
  pose proof (DecimalZ.of_to z) as Hz.
  split; intros Hnil; rewrite Hnil in Hz; simpl in Hz; subst; discriminate Hnil.
Qed.

Lemma number_toString_truthy z : js_truthy_string (number_toString z) = true.
Proof.
  unfold js_truthy_string, number_toString. apply negb_true_iff, String.eqb_neq.
  intros Hnil. pose proof (NilZero.isi (Z.to_int z)) as Hisi.
  rewrite Hnil in Hisi. destruct (Z_to_int_not_nil z) as [H1 H2].
  specialize (Hisi H1 H2). discriminate Hisi.
Qed.

Lemma find_type_elem_of cells ty c :
  find_type cells ty = Some c → c ∈ cells ∧ Cell.type c = ty.
Proof.
  unfold find_type. intros [? Ht]%find_elem_of. split; [done|].
  by apply (js_strict_eq_true (A:=string)).
Qed.

(** Three cells of three different types among the free ones: the
    [> 2] gate passes. *)
Lemma gate_passes board d m t :
  find_type (unOccupiedCells board) day = Some d →
  find_type (unOccupiedCells board) month = Some m →
  find_type (unOccupiedCells board) date = Some t →
  (2 < length (unOccupiedCells board))%nat.
Proof.
  intros [Hd Td]%find_type_elem_of [Hm Tm]%find_type_elem_of [Ht Tt]%find_type_elem_of.
  enough (3 ≤ length (unOccupiedCells board))%nat by lia.
  apply (length_ge_3_of_exclusive (λ c, Cell.type c === day) (λ c, Cell.type c === month)
           (λ c, Cell.type c === date) _ d m t); try done;
    [by rewrite Td, js_strict_eq_refl|by rewrite Tm, js_strict_eq_refl
    |by rewrite Tt, js_strict_eq_refl|..];
    intros w Hw; apply (js_strict_eq_true (A:=string)) in Hw; simpl; rewrite Hw; reflexivity.
Qed.

(** ** Properties *)

(** [checkWinner] with the date's getters computed. *)
Lemma checkWinner_unfold z board sd :
  checkWinner z board sd =
    let cells := unOccupiedCells board in
    if (2 <? length cells)%nat then
      match find_type cells day, find_type cells month, find_type cells date with
      | Some selectedDay, Some selectedMonth, Some selectedDate =>
          if js_truthy_string (Cell.value selectedDay) &&
             js_truthy_string (Cell.value selectedMonth) &&
             js_truthy_string (Cell.value selectedDate) then
            match solveDateParts z sd with
            | Some p =>
                eq_index (Cell.value selectedDay) (js_index dayName (getDay p)) &&
                eq_index (Cell.value selectedMonth) (js_index monthName (getMonth p)) &&
                (Cell.value selectedDate === number_toString (getDate p))
            | None => false
            end
          else false
      | _, _, _ => false
      end
    else false.
Proof. reflexivity. Qed.

Lemma checkWinner_true z board sd :
  checkWinner z board sd = true ↔ ∃ p, solveDateParts z sd = Some p ∧ shows_date board p.
Proof.
  rewrite checkWinner_unfold. unfold shows_date. split.
  - destruct (2 <? _)%nat; [|done].
    destruct (find_type _ day) as [d|] eqn:Hd; [|done].
    destruct (find_type _ month) as [m|] eqn:Hm; [|done].
    destruct (find_type _ date) as [t|] eqn:Ht; [|done].
    destruct (_ && _ && _); [|done].
    destruct (solveDateParts z sd) as [p|]; [|done].
    intros [[H1%eq_index_true H2%eq_index_true]%andb_true_iff H3]%andb_true_iff.
    apply (js_strict_eq_true (A:=string)) in H3.
    exists p. split; [done|]. split_and!; eexists; split; eauto.
  - intros (p & Hp & (d & Hd & Hdv) & (m & Hm & Hmv) & (t & Ht & Htv)). simpl.
    rewrite (proj2 (Nat.ltb_lt _ _)) by (eapply gate_passes; eauto).
    rewrite Hd, Hm, Ht, (dayName_truthy _ _ Hdv), (monthName_truthy _ _ Hmv), Htv,
      number_toString_truthy, Hp. simpl.
    rewrite (proj2 (eq_index_true _ _) Hdv), (proj2 (eq_index_true _ _) Hmv).
    by rewrite js_strict_eq_refl.
Qed.

(** [checkWinner] reads the date through its getters only. *)
Lemma checkWinner_parts z1 z2 board sd1 sd2 :
  solveDateParts z1 sd1 = solveDateParts z2 sd2 →
  checkWinner z1 board sd1 = checkWinner z2 board sd2.
Proof. intros Hp. rewrite !checkWinner_unfold. by rewrite Hp. Qed.

(** ** Properties *)

(** C9: [checkWinner] holds exactly when [new Date(solveDate)] is valid
    and the first free, non-blocked cell of type [day], of type [month]
    and of type [date] carry [dayName[getDay()]],
    [monthName[getMonth()]] and [getDate().toString()]. The [> 2] gate
    and the truthiness tests of line 110 are implied by the three
    comparisons and never decide the result. *)
Theorem checkWinner_spec z board sd :
  checkWinner z board sd = true ↔ ∃ p, solveDateParts z sd = Some p ∧ shows_date board p.
Proof. apply checkWinner_true. Qed.

(** A free cell of a type is the first one when it is the only one. *)
Lemma find_type_only cells ty x :
  x ∈ cells → Cell.type x = ty → (∀ y, y ∈ cells → Cell.type y = ty → y = x) →
  find_type cells ty = Some x.
Proof.
  intros Hx Ht Hu. apply find_unique; [done|by rewrite Ht, js_strict_eq_refl|].
  intros y Hy Hty. apply (js_strict_eq_true (A:=string)) in Hty. by apply Hu.
Qed.

(** C23: [checkWinner] is complete for the spec's solved state: when the
    free, non-blocked cells are exactly one [day], one [month] and one
    [date] cell naming the date [new Date(solveDate)] gives, the board is
    reported solved. *)
Theorem checkWinner_complete z board sd p :
  solveDateParts z sd = Some p → solved board p → checkWinner z board sd = true.
Proof.
  intros Hp (d & m & t & Hcells & Hd & Hm & Ht & Hdv & Hmv & Htv).
  apply checkWinner_true. exists p. split; [done|].
  assert (Honly : ∀ x ty, x ∈ [d; m; t] → Cell.type x = ty →
            find_type (unOccupiedCells board) ty = Some x).
  { intros x ty Hx Hxt. apply find_type_only; [apply Hcells; set_solver|done|].
    intros y Hy Hyt. rewrite <-Hxt in Hyt. apply Hcells in Hy.
    assert (Hx' : x = d ∨ x = m ∨ x = t) by set_solver.
    destruct Hy as [ -> | [ -> | -> ] ], Hx' as [ -> | [ -> | -> ] ];
      rewrite ?Hd, ?Hm, ?Ht in Hyt; done || discriminate. }
  split_and!; [exists d|exists m|exists t]; (split; [apply Honly; [set_solver|eassumption]|]);
    eassumption.
Qed.

(** Freeing a cell changes which cell [find] meets first only for the
    cell's own type, and not even there when a free cell of that type
    comes earlier in the array. *)
Lemma find_type_free_later board i c ty :
  board !! i = Some c → ty ∈ [day; month; date] →
  (Cell.type c ∉ [day; month; date] ∨
   ∃ j d, (j < i)%nat ∧ board !! j = Some d ∧ Cell.isOccupied d = false ∧
          Cell.type d = Cell.type c) →
  find_type (unOccupiedCells (<[i := set_occupancy false None c]> board)) ty =
  find_type (unOccupiedCells board) ty.
Proof.
  intros Hi Hty Hlater. unfold find_type, unOccupiedCells. rewrite !find_filter.
  assert (Hnb : ty ≠ blocked) by (intros ->; vm_compute in Hty; set_solver).
  destruct (decide (Cell.type c = ty)) as [<-|Hne].
  - destruct Hlater as [Hn|(j & d & Hj & Hd & Hfree & Htd)]; [done|].
    apply (find_insert_after _ _ _ j _ d Hj Hd).
    rewrite Hfree, Htd, (proj2 (js_strict_eq_false _ _) Hnb), !js_strict_eq_refl. done.
  - apply (find_insert_false _ _ _ _ c Hi); simpl;
      by rewrite (proj2 (js_strict_eq_false _ _) Hne), andb_false_r.
Qed.

(** C16: [checkWinner] never asks the rest of the board to be covered
    (§4.5's solved state does): it reads only the first free cell of each
    type, so lifting the piece off any cell behind it, or off a cell of
    another type, keeps a win a win. On a layout listing each type's
    cells in one run, a board solved for a date stays solved whatever
    is uncovered behind the three target cells. *)
Theorem checkWinner_ignores_later_cells z board sd i c :
  board !! i = Some c →
  (Cell.type c ∉ [day; month; date] ∨
   ∃ j d, (j < i)%nat ∧ board !! j = Some d ∧ Cell.isOccupied d = false ∧
          Cell.type d = Cell.type c) →
  checkWinner z board sd = true →
  checkWinner z (<[i := set_occupancy false None c]> board) sd = true.
Proof.
  intros Hi Hlater (p & Hp & Hd & Hm & Ht)%checkWinner_true.
  apply checkWinner_true. exists p. split; [done|]. unfold shows_date.
  rewrite !(find_type_free_later board i c) by (done || set_solver). done.
Qed.

(** An Invalid Date never wins: when [new Date(solveDate)] is
    [NaN], [checkWinner] is false on every board, in every time zone. *)
Theorem checkWinner_invalid_date z board sd :
  new_Date z sd = None → checkWinner z board sd = false.
Proof.
  intros Hnan. rewrite checkWinner_unfold. unfold solveDateParts. rewrite Hnan. simpl.
  repeat case_match; done.
Qed.

(** C24: the name lookups of line 112 are never [undefined] on a valid
    date: [dayName[dt.getDay()]] and [monthName[dt.getMonth()]] are names
    of the two tables, whatever the time zone. *)
Theorem checkWinner_names_defined z sd p :
  solveDateParts z sd = Some p →
  (∃ n, js_index dayName (getDay p) = Some n ∧ n ∈ dayName) ∧
  (∃ n, js_index monthName (getMonth p) = Some n ∧ n ∈ monthName).
Proof.
  intros (Hd & Hm & _)%date_parts_range.
  split; [destruct (lookup_lt_is_Some_2 dayName (Z.to_nat (getDay p))) as [n Hn]
         |destruct (lookup_lt_is_Some_2 monthName (Z.to_nat (getMonth p))) as [n Hn]];
    try (simpl; lia); exists n; (split; [apply js_index_Some; split; [lia|done]
                                       |by eapply list_elem_of_lookup_2]).
Qed.

(** [date.toString()] writes the day of the month as the decimal
    numeral the decimal reader reads back, so a cell matches a date only
    when its value is that numeral, with no leading zero. *)
Theorem number_toString_roundtrip z : parse_decimal (number_toString z) = Some z.
Proof.
  unfold parse_decimal, number_toString. destruct (Z_to_int_not_nil z) as [H1 H2].
  rewrite (NilZero.isi _ H1 H2). simpl. by rewrite DecimalZ.of_to.
Qed.

(** The board on which only [ids] are free. *)
Definition free_only (ids : list Z) (board : Board) : Board :=
  mark_ids true (Some 0) (List.filter (λ k, negb (bool_decide (k ∈ ids))) (Cell.id <$> board)) board.

(** Scenario D of the spec: with only [MON], [JAN] and [15] free on
    the calendar board, checked at UTC, Monday, January 15 wins (in 2024
    and in 2018); Tuesday, January 16, Thursday, February 15, Monday,
    January 5 (2015) and an Invalid Date do not, and no date's numeral
    is ["015"] or ["05"]. *)
Theorem checkWinner_scenario_D :
  let b := free_only [8; 1; 33] calendar_board in
  checkWinner (fixed_zone 0) b (DString "2024-01-15") = true ∧
  checkWinner (fixed_zone 0) b (DString "2018-01-15") = true ∧
  checkWinner (fixed_zone 0) b (DString "2024-01-16") = false ∧
  checkWinner (fixed_zone 0) b (DString "2024-02-15") = false ∧
  checkWinner (fixed_zone 0) b (DString "2015-01-05") = false ∧
  checkWinner (fixed_zone 0) b (DDate None) = false ∧
  parse_decimal "015" = Some 15 ∧ number_toString 15 ≠ "015" ∧
  parse_decimal "05" = Some 5 ∧ number_toString 5 ≠ "05".
Proof. split_and!; vm_compute; congruence. Qed.

(** Nothing requires the pieces to cover the rest of the board: on
    the calendar board with every cell free, the first day, month and
    date cells in array order are [SUN], [JAN] and [1], and
    [checkWinner] reports Sunday, January 1, 2023 as solved. *)
Theorem checkWinner_empty_board_wins :
  Forall (λ c, Cell.isOccupied c = false) calendar_board ∧
  checkWinner (fixed_zone 0) calendar_board (DString "2023-01-01") = true.
Proof. split; [vm_decide|vm_compute; reflexivity]. Qed.

(** The first free cell of a type is compared, not the only one:
    with [MON] and [TUE] both free (and [JAN], [15]), Monday, January 15,
    2024 is reported solved, although §4.5 asks for exactly one free
    [day] cell; and Tuesday, January 15, 2019 is refused although [TUE]
    is free. *)
Theorem checkWinner_first_match :
  let b := free_only [8; 9; 1; 33] calendar_board in
  length (List.filter (λ c, Cell.type c === day) (unOccupiedCells b)) = 2%nat ∧
  checkWinner (fixed_zone 0) b (DString "2024-01-15") = true ∧
  checkWinner (fixed_zone 0) b (DString "2019-01-15") = false.
Proof. split_and!; vm_compute; reflexivity. Qed.

(** A date-only [solveDate] in a time zone west of UTC: on the board
    where only [MON], [JAN] and [15] are free, [checkWinner('2024-01-15')]
    is false at UTC-5 (the [Date] is Sunday, January 14 there) and true at
    UTC; the board showing [SUN], [JAN], [14] wins for '2024-01-15' at
    UTC-5; and the local form '2024-01-15T00:00' wins at UTC-5. In
    Sao Paulo on the day daylight saving time began in 2018 (midnight of
    November 4 skipped), the board showing [SUN], [NOV], [4] loses for
    '2018-11-04' (Saturday evening there) and wins for the nonexistent
    local midnight '2018-11-04T00:00', read as 01:00. *)
Theorem checkWinner_time_zone :
  let b := free_only [8; 1; 33] calendar_board in
  let utc_5 := fixed_zone (-18000000) in
  checkWinner utc_5 b (DString "2024-01-15") = false ∧
  checkWinner (fixed_zone 0) b (DString "2024-01-15") = true ∧
  checkWinner utc_5 (free_only [7; 1; 32] calendar_board) (DString "2024-01-15") = true ∧
  checkWinner utc_5 b (DString "2024-01-15T00:00") = true ∧
  checkWinner sao_paulo_2018 (free_only [7; 14; 22] calendar_board) (DString "2018-11-04") = false ∧
  checkWinner sao_paulo_2018 (free_only [7; 14; 22] calendar_board) (DString "2018-11-04T00:00") = true.
Proof. split_and!; vm_compute; reflexivity. Qed.

(** C13: west of UTC a date-only [solveDate] is checked as the previous
    day: for every board and every date [YYYY-MM-DD], [checkWinner] at an
    time zone whose offset at that midnight is in [-24h, 0),
    daylight saving time included, gives what it gives at UTC for midnight UTC of
    the day before. *)
Theorem checkWinner_date_only_west z board y m d :
  0 ≤ y ≤ 9999 → 1 ≤ m ≤ 12 → 1 ≤ d ≤ 31 →
  - msPerDay ≤ offset_at z (MakeDate (MakeDay y (m - 1) d) 0) < 0 →
  checkWinner z board (DString (iso_date y m d)) =
    checkWinner (fixed_zone 0) board (DDate (Some (MakeDate (MakeDay y (m - 1) d - 1) 0))).
Proof.
  intros Hy Hm Hd Htz. apply checkWinner_parts.
  rewrite solveDateParts_date_only_west by done.
  unfold solveDateParts, new_Date. simpl.
  pose proof (DayFromYear_approx y). pose proof (InLeapYear_bounds y).
  pose proof (DayBeforeMonth_range (InLeapYear y) (m - 1) (InLeapYear_bounds y) ltac:(lia)).
  unfold TimeClip. rewrite (proj2 (Z.leb_le _ _)).
  - simpl. unfold LocalTime. by rewrite offset_fixed_zone, Z.add_0_r.
  - unfold MakeDate, MakeDay, msPerDay. rewrite Z.div_small, !Z.add_0_r, Z.mod_small by lia. lia.
Qed.

(** An impossible date rolls over: '2024-02-30' is read as Friday,
    March 1, 2024 ([MakeDay] counts the 30th day from February 1), so the
    board showing [FRI], [MAR], [1] is reported solved for it. *)
Theorem checkWinner_rolls_over :
  checkWinner (fixed_zone 0) (free_only [18; 3; 19] calendar_board) (DString "2024-02-30") = true ∧
  checkWinner (fixed_zone 0) (free_only [18; 3; 19] calendar_board) (DString "2024-03-01") = true.
Proof. split; vm_compute; reflexivity. Qed.

Lemma checkWinner_invalid_date_witness :
  new_Date (fixed_zone 0) (DString "2024-13-01") = None ∧
  checkWinner (fixed_zone 0) calendar_board (DString "2024-13-01") = false.
Proof.
  assert (H : new_Date (fixed_zone 0) (DString "2024-13-01") = None) by (vm_compute; reflexivity).
  split; [exact H|exact (checkWinner_invalid_date (fixed_zone 0) calendar_board _ H)].
Defined.

Lemma checkWinner_names_defined_witness :
  (∃ n, js_index dayName (getDay (mkDateParts 1 0 15)) = Some n ∧ n ∈ dayName) ∧
  (∃ n, js_index monthName (getMonth (mkDateParts 1 0 15)) = Some n ∧ n ∈ monthName).
Proof.
  apply (checkWinner_names_defined (fixed_zone 0) (DString "2024-01-15")). vm_compute. reflexivity.
Defined.

Lemma checkWinner_date_only_west_witness :
  checkWinner (fixed_zone (-18000000)) (free_only [8; 1; 33] calendar_board) (DString (iso_date 2024 1 15)) =
    checkWinner (fixed_zone 0) (free_only [8; 1; 33] calendar_board)
      (DDate (Some (MakeDate (MakeDay 2024 (1 - 1) 15 - 1) 0))).
Proof. apply (checkWinner_date_only_west (fixed_zone (-18000000))); rewrite ?offset_fixed_zone; unfold msPerDay; lia. Defined.

Lemma checkWinner_complete_witness :
  checkWinner (fixed_zone 0) (free_only [8; 1; 33] calendar_board) (DString "2024-01-15") = true.
Proof.
  apply (checkWinner_complete (fixed_zone 0) _ _ (mkDateParts 1 0 15)); [vm_compute; reflexivity|].
  exists (mk_cell 0 7 day "MON"), (mk_cell 0 0 month "JAN"), (mk_cell 3 5 date "15").
  split; [|split_and!; reflexivity].
  intros c. change (unOccupiedCells (free_only [8; 1; 33] calendar_board))
    with [mk_cell 0 0 month "JAN"; mk_cell 0 7 day "MON"; mk_cell 3 5 date "15"].
  set_solver.
Defined.

Lemma checkWinner_ignores_later_cells_witness :
  let b := free_only [8; 1; 33] calendar_board in
  let tue := default (mk_cell 0 8 day "TUE") (b !! 8%nat) in
  checkWinner (fixed_zone 0) (<[8%nat := set_occupancy false None tue]> b) (DString "2024-01-15") = true.
Proof.
  intros b tue. apply checkWinner_ignores_later_cells; [vm_compute; reflexivity| |vm_compute; reflexivity].
  right. exists 7%nat, (default (mk_cell 0 7 day "MON") (b !! 7%nat)).
  split_and!; [lia|vm_compute; reflexivity..].
Defined.

End Winner.
