(* ===== verification/Json.v ===== *)
(** * The JSON round trip the store copies boards with

    [setboardState] and [resetGame] copy a board with
    [JSON.parse(JSON.stringify(cells))] (game.ts, lines 52-53 and 121).
    This file models the value layer of that round trip for a cell:
    [JSON.stringify] turns the object into a JSON object whose members are
    the fields in declaration order, omitting the fields whose value is
    [undefined] and writing [null] for [pieceId = null];
    [JSON.parse] gives back an object whose absent members read as
    [undefined]. The text layer (printing and lexing the string) is the
    identity on JSON values and is not modelled.

    The theorem [cell_json_roundtrip] shows that the copy of a cell has
    every field of the original: the [undefined] pixel attributes, which
    JSON drops, read back as [undefined]. *)

From S2P Require Import Prelude Cells.

Open Scope Z_scope.

Inductive json :=
  | JNull
  | JBool (b : bool)
  | JNumber (z : Z)
  | JString (s : string)
  | JObject (members : list (string * json)).

(** A member [k: v], or nothing when the value is [undefined]. *)
Definition member (k : string) (v : option json) : list (string * json) :=
  match v with Some j => [(k, j)] | None => [] end.

(** [JSON.stringify] of a [Cell], fields in the order of [interface Cell]. *)
Definition cell_to_json (c : Cell.t) : json :=
  JObject (
    member "id" (Some (JNumber (Cell.id c))) ++
    member "x" (JNumber <$> Cell.x c) ++
    member "y" (JNumber <$> Cell.y c) ++
    member "type" (Some (JString (Cell.type c))) ++
    member "value" (Some (JString (Cell.value c))) ++
    member "rowIndex" (Some (JNumber (Cell.rowIndex c))) ++
    member "colIndex" (Some (JNumber (Cell.colIndex c))) ++
    member "width" (JNumber <$> Cell.width c) ++
    member "height" (JNumber <$> Cell.height c) ++
    member "isOccupied" (Some (JBool (Cell.isOccupied c))) ++
    member "pieceId" (Some (match Cell.pieceId c with Some p => JNumber p | None => JNull end))).

(** Reading a member of a parsed object: [undefined] when absent. *)
Fixpoint get_member (k : string) (ms : list (string * json)) : option json :=
  match ms with
  | [] => None
  | (k', v) :: ms' => if String.eqb k k' then Some v else get_member k ms'
  end.

Definition as_number (v : option json) : option Z :=
  match v with Some (JNumber z) => Some z | _ => None end.

(** A [number | undefined] field. *)
Definition opt_number (v : option json) : option (option Z) :=
  match v with
  | None => Some None
  | Some (JNumber z) => Some (Some z)
  | Some _ => None
  end.

Definition as_string (v : option json) : option string :=
  match v with Some (JString s) => Some s | _ => None end.

Definition as_bool (v : option json) : option bool :=
  match v with Some (JBool b) => Some b | _ => None end.

(** A [number | null] field. *)
Definition nullable_number (v : option json) : option (option Z) :=
  match v with
  | Some JNull => Some None
  | Some (JNumber z) => Some (Some z)
  | _ => None
  end.

(** The parsed object read as a [Cell]; [None] when a member does not
    have the type [interface Cell] gives it. *)
Definition cell_of_json (j : json) : option Cell.t :=
  match j with
  | JObject ms =>
      id ← as_number (get_member "id" ms);
      x ← opt_number (get_member "x" ms);
      y ← opt_number (get_member "y" ms);
      ty ← as_string (get_member "type" ms);
      v ← as_string (get_member "value" ms);
      r ← as_number (get_member "rowIndex" ms);
      c ← as_number (get_member "colIndex" ms);
      w ← opt_number (get_member "width" ms);
      hg ← opt_number (get_member "height" ms);
      occ ← as_bool (get_member "isOccupied" ms);
      pid ← nullable_number (get_member "pieceId" ms);
      Some (Cell.mk id x y ty v r c w hg occ pid)
  | _ => None
  end.

(** [JSON.parse(JSON.stringify(cells))] on an array of cells. *)
Definition json_clone (cells : Board) : Board :=
  omap (λ c, cell_of_json (cell_to_json c)) cells.

(** The JSON copy of a cell is the cell: every member written is read
    back with its type, and the [undefined] members JSON omits read back
    as [undefined]. *)
Theorem cell_json_roundtrip c : cell_of_json (cell_to_json c) = Some c.
Proof.
  destruct c as [id x y ty v r col w hg occ pid].
  destruct x, y, w, hg, pid; reflexivity.
Qed.

Lemma json_clone_id cells : json_clone cells = cells.
Proof.
  unfold json_clone. induction cells as [|[id x y ty v r col w hg occ pid] cells IH];
    [done|].
  rewrite omap_cons, IH.
  destruct x, y, w, hg, pid; reflexivity.
Qed.
