(* ===== verification/Engine.v ===== *)
(** * The interface of the store (spec §6)

    [BoardEngine S] lists the actions of [useGameStore] on a store state
    [S]: the initial state [eng_empty] (both arrays empty),
    [setboardState], the getter [getboardState], [canPlay], [placePiece],
    [removePiece], [checkWinner] and [resetGame], with the initial
    snapshot [initBoard] the store keeps. [BoardEngineLaws] is
    what an implementation promises its client: on the states satisfying
    its invariant [engine_wf], every action acts on the current board as
    the snapshot definitions of [Legality], [Placement] and [Winner] do,
    and only [setboardState] touches the initial snapshot, which
    [resetGame] copies back.

    [Store.v] discharges the laws for the heap model of the Pinia store;
    [Game.v] proves the invariants of a play session against the laws
    alone. *)

From S2P Require Import Prelude Cells Coverage Legality Placement JsDate DateString Winner.
Import Coverage Legality Placement Winner.

Class BoardEngine (S : Type) := {
  engine_wf : S → Prop;
  eng_empty : S;
  eng_getboardState : S → Board;
  eng_initBoard : S → Board;
  eng_setboardState : S → Board → S;
  eng_canPlay : S → Piece.t → Z → bool;
  eng_placePiece : S → Piece.t → Z → S;
  eng_removePiece : S → Piece.t → S;
  eng_checkWinner : S → JsDate.TimeZone → DateArg → bool;
  eng_resetGame : S → S
}.

Class BoardEngineLaws (S : Type) `{BoardEngine S} := {
  empty_wf : engine_wf eng_empty;
  empty_current : eng_getboardState eng_empty = [];
  empty_initial : eng_initBoard eng_empty = [];
  set_wf s b : engine_wf s → engine_wf (eng_setboardState s b);
  set_current s b : eng_getboardState (eng_setboardState s b) = b;
  set_initial s b : eng_initBoard (eng_setboardState s b) = b;
  canPlay_law s p k :
    engine_wf s → eng_canPlay s p k = canPlay (eng_getboardState s) p k;
  place_wf s p k : engine_wf s → engine_wf (eng_placePiece s p k);
  place_current s p k :
    engine_wf s → eng_getboardState (eng_placePiece s p k) = placePiece (eng_getboardState s) p k;
  place_initial s p k : engine_wf s → eng_initBoard (eng_placePiece s p k) = eng_initBoard s;
  remove_wf s p : engine_wf s → engine_wf (eng_removePiece s p);
  remove_current s p :
    engine_wf s → eng_getboardState (eng_removePiece s p) = removePiece (eng_getboardState s) p;
  remove_initial s p : engine_wf s → eng_initBoard (eng_removePiece s p) = eng_initBoard s;
  checkWinner_law s z sd :
    engine_wf s → eng_checkWinner s z sd = checkWinner z (eng_getboardState s) sd;
  reset_wf s : engine_wf s → engine_wf (eng_resetGame s);
  reset_current s : engine_wf s → eng_getboardState (eng_resetGame s) = eng_initBoard s;
  reset_initial s : engine_wf s → eng_initBoard (eng_resetGame s) = eng_initBoard s
}.

(** ** Sequences of calls *)

(** A call the UI makes on the store; [canPlay] and [checkWinner] only
    read and are not listed. *)
Inductive action :=
  | ASet (b : Board)
  | APlace (p : Piece.t) (k : Z)
  | ARemove (p : Piece.t)
  | AReset.

Section run.
Context {S : Type} `{BoardEngine S}.

Definition eng_step (s : S) (a : action) : S :=
  match a with
  | ASet b => eng_setboardState s b
  | APlace p k => eng_placePiece s p k
  | ARemove p => eng_removePiece s p
  | AReset => eng_resetGame s
  end.

Definition eng_run (s : S) (acts : list action) : S := foldl eng_step s acts.
End run.

(** The same calls on the pair (current board, initial board) of
    snapshot values: the abstract semantics of the store. *)
Definition snapshot_step (st : Board * Board) (a : action) : Board * Board :=
  match a with
  | ASet b => (b, b)
  | APlace p k => (placePiece st.1 p k, st.2)
  | ARemove p => (removePiece st.1 p, st.2)
  | AReset => (st.2, st.2)
  end.

Definition snapshot_run (st : Board * Board) (acts : list action) : Board * Board :=
  foldl snapshot_step st acts.
