(* ===== verification/Store.v ===== *)
(** * The Pinia store as a heap of cell objects (game.ts, lines 40-124)

    [useGameStore] keeps two arrays, [initBoardState] and [boardState], of
    references to cell objects. [find] returns a reference, the actions
    write through it, and [setboardState] / [resetGame] build fresh
    objects with [JSON.parse(JSON.stringify(...))]. Whether the two arrays
    can share an object is exactly what decides if a placement can
    corrupt the snapshot [resetGame] restores, so the model keeps the
    objects in a heap [gmap Z Cell.t] and the arrays as lists of
    addresses; [view] reads an array as the list of cell values it
    denotes.

    The invariant [wf]: no address occurs twice in the two arrays, every
    address of the arrays is allocated, and every allocated address is
    below the allocation counter. On such states every action is shown to
    act on [getboardState] as the snapshot definitions do (refinement),
    and the actions that write ([placePiece], [removePiece]) to leave the
    initial snapshot untouched.

    The getter returns the live array, not a copy ([getboardState_ref]),
    so a caller can write the store's cells directly ([caller_write]; a
    [TypeError] past the end). [caller_run] runs calls and such writes in
    sequence: the writes change the current board in place
    ([getter_aliases_live_board]) and never the snapshot [resetGame]
    restores ([reset_target_invariant]). *)

From S2P Require Import Prelude Cells Layouts Coverage Legality Placement JsDate DateString Winner Json Engine.
Import Coverage Legality Placement Winner.

Open Scope Z_scope.

Module Store.

Record t := mk {
  heap : gmap Z Cell.t;
  next_loc : Z;
  initBoardState : list Z;
  boardState : list Z
}.

(** The array of cell values an array of references denotes. *)
Definition view (h : gmap Z Cell.t) (ls : list Z) : Board := omap (λ l, h !! l) ls.

(** Fresh objects for [cells], at [n], [n + 1], ... *)
Fixpoint alloc (h : gmap Z Cell.t) (n : Z) (cells : Board) : gmap Z Cell.t * Z * list Z :=
  match cells with
  | [] => (h, n, [])
  | c :: cells' =>
      let '(h', n', ls) := alloc (<[n := c]> h) (n + 1) cells' in (h', n', n :: ls)
  end.

(** [state: () => ({ initBoardState: [], boardState: [] })]. *)
Definition empty : t := mk ∅ 0 [] [].

(** [this.initBoardState = JSON.parse(JSON.stringify(boardState));
    this.boardState = JSON.parse(JSON.stringify(boardState))]. *)
Definition setboardState (s : t) (cells : Board) : t :=
  let '(h1, n1, init) := alloc (heap s) (next_loc s) (json_clone cells) in
  let '(h2, n2, cur) := alloc h1 n1 (json_clone cells) in
  mk h2 n2 init cur.

(** [getboardState: (state) => state.boardState]. *)
Definition getboardState (s : t) : Board := view (heap s) (boardState s).

Definition initBoard (s : t) : Board := view (heap s) (initBoardState s).

(** [boardState.find(cell => cell.id === k)]: the reference and the
    object it points at. *)
Fixpoint find_ref (h : gmap Z Cell.t) (ls : list Z) (k : Z) : option (Z * Cell.t) :=
  match ls with
  | [] => None
  | l :: ls' =>
      match h !! l with
      | Some c => if Cell.id c === k then Some (l, c) else find_ref h ls' k
      | None => find_ref h ls' k
      end
  end.

(** [findOccupiedCells] run on the store: the loop of [Coverage.v],
    pushing references. *)
Definition findOccupiedCells (shape : list (list Z)) (h : gmap Z Cell.t) (ls : list Z)
    (anchorCell : Cell.t) : list Z :=
  scan_shape (λ k, fst <$> find_ref h ls k) (Cell.rowIndex anchorCell)
    (Cell.colIndex anchorCell) shape 0 [].

Definition canPlay (s : t) (piece : Piece.t) (startingCellId : Z) : bool :=
  match find_ref (heap s) (boardState s) startingCellId with
  | None => false
  | Some (_, anchorCell) =>
      all_free (view (heap s)
        (findOccupiedCells (Piece.shape piece) (heap s) (boardState s) anchorCell))
  end.

(** [affectedCells.forEach(cell => { cell.isOccupied = occ;
    cell.pieceId = pid })] through the references. *)
Definition write (occ : bool) (pid : option Z) (affected : list Z) (h : gmap Z Cell.t)
    : gmap Z Cell.t :=
  foldl (λ h l, alter (set_occupancy occ pid) l h) h affected.

Definition placePiece (s : t) (piece : Piece.t) (startingCellId : Z) : t :=
  match find_ref (heap s) (boardState s) startingCellId with
  | None => s
  | Some (_, anchorCell) =>
      mk (write true (Some (Piece.id piece))
            (findOccupiedCells (Piece.shape piece) (heap s) (boardState s) anchorCell)
            (heap s))
         (next_loc s) (initBoardState s) (boardState s)
  end.

(** [boardState.find(cell => cell.id === piece.anchorCell)]. *)
Definition find_ref_anchor (h : gmap Z Cell.t) (ls : list Z) (anchorCell : option Z)
    : option (Z * Cell.t) :=
  match anchorCell with Some k => find_ref h ls k | None => None end.

Definition removePiece (s : t) (piece : Piece.t) : t :=
  match find_ref_anchor (heap s) (boardState s) (Piece.anchorCell piece) with
  | None => s
  | Some (_, anchorCell) =>
      mk (write false None
            (findOccupiedCells (Piece.shape piece) (heap s) (boardState s) anchorCell)
            (heap s))
         (next_loc s) (initBoardState s) (boardState s)
  end.

(** [checkWinner(solveDate)] reads the cells through [this.boardState]
    only; [z] is the host's time zone. *)
Definition checkWinner (s : t) (z : JsDate.TimeZone) (solveDate : DateArg) : bool :=
  Winner.checkWinner z (getboardState s) solveDate.

(** [this.boardState = JSON.parse(JSON.stringify(this.initBoardState))]. *)
Definition resetGame (s : t) : t :=
  let '(h', n', cur) := alloc (heap s) (next_loc s) (json_clone (initBoard s)) in
  mk h' n' (initBoardState s) cur.

(** The getter [getboardState: (state) => state.boardState] returns the
    live array itself, not a copy: a caller reading [getboardState[i]]
    holds the reference the store holds, [None] ([undefined]) past the
    end of the array. *)
Definition getboardState_ref (s : t) (i : nat) : option Z := boardState s !! i.

(** A caller's write through the array the getter returned,
    [store.getboardState[i].field = v], as the update [f] of the object.
    Past the end the element is [undefined] and the assignment throws a
    [TypeError], here [None]. *)
Definition caller_write (s : t) (i : nat) (f : Cell.t → Cell.t) : option t :=
  match getboardState_ref s i with
  | Some l => Some (mk (alter f l (heap s)) (next_loc s) (initBoardState s) (boardState s))
  | None => None
  end.

Definition wf (s : t) : Prop :=
  NoDup (initBoardState s ++ boardState s) ∧
  (∀ l, l ∈ initBoardState s ++ boardState s → is_Some (heap s !! l)) ∧
  (∀ l, is_Some (heap s !! l) → l < next_loc s).

Implicit Types (h : gmap Z Cell.t) (ls affected : list Z) (l n k : Z).

(** ** Allocation *)

Lemma alloc_spec h n cells h' n' ls :
  alloc h n cells = (h', n', ls) →
  n' = n + Z.of_nat (length cells) ∧
  (∀ l, l ∈ ls ↔ n ≤ l < n') ∧ NoDup ls ∧
  (∀ l, l < n → h' !! l = h !! l) ∧
  view h' ls = cells ∧
  (∀ l, is_Some (h' !! l) → is_Some (h !! l) ∨ n ≤ l < n') ∧
  (∀ l, n ≤ l < n' → is_Some (h' !! l)).
Proof.
  revert h n h' n' ls. induction cells as [|c cells IH]; intros h n h' n' ls Ha; simpl in Ha.
  - injection Ha as <- <- <-.
    split_and!; [simpl; lia|intros l; set_solver by lia|constructor|done|done
                |intros; by left|intros; lia].
  - destruct (alloc (<[n:=c]> h) (n + 1) cells) as [[h'' n''] ls''] eqn:E.
    injection Ha as <- <- <-.
    destruct (IH _ _ _ _ _ E) as (Hn & Hls & Hnd & Hbelow & Hview & Hdom & Halloc).
    split_and!.
    + simpl. lia.
    + intros l. rewrite elem_of_cons, Hls. lia.
    + constructor; [|done]. rewrite Hls. lia.
    + intros l Hl. rewrite Hbelow by lia. apply lookup_insert_ne. lia.
    + unfold view. rewrite omap_cons, Hbelow, lookup_insert_eq by lia. f_equal. apply Hview.
    + intros l Hl. destruct (Hdom l Hl) as [Hs|?]; [|right; lia].
      destruct (decide (l = n)) as [->|Hne]; [right; lia|].
      rewrite lookup_insert_ne in Hs by done. by left.
    + intros l Hl. destruct (decide (l = n)) as [->|Hne]; [|apply Halloc; lia].
      rewrite Hbelow, lookup_insert_eq by lia. done.
Qed.

(** ** Reading an array *)

Lemma view_ext h1 h2 ls :
  (∀ l, l ∈ ls → h1 !! l = h2 !! l) → view h1 ls = view h2 ls.
Proof.
  unfold view. induction ls as [|l ls IH]; intros Hls; [done|].
  rewrite !omap_cons, Hls by set_solver. rewrite IH; [done|]. intros l' ?. apply Hls. set_solver.
Qed.

Lemma view_alter_notin f l h ls : l ∉ ls → view (alter f l h) ls = view h ls.
Proof.
  intros Hl. apply view_ext. intros l' Hl'. apply lookup_alter_ne. set_solver.
Qed.

Lemma view_app h ls1 ls2 : view h (ls1 ++ ls2) = view h ls1 ++ view h ls2.
Proof. apply omap_app. Qed.

(** ** [find] on the heap *)

Lemma find_ref_Some h ls k l c :
  find_ref h ls k = Some (l, c) → l ∈ ls ∧ h !! l = Some c ∧ Cell.id c = k.
Proof.
  induction ls as [|l0 ls IH]; simpl; [done|].
  destruct (h !! l0) as [c0|] eqn:E; [destruct (js_strict_eq_reflect (Cell.id c0) k)|].
  - intros [= <- <-]. set_solver.
  - intros (? & ? & ?)%IH. set_solver.
  - intros (? & ? & ?)%IH. set_solver.
Qed.

Lemma find_ref_view h ls k : find_by_id (view h ls) k = snd <$> find_ref h ls k.
Proof.
  unfold find_by_id, view. induction ls as [|l ls IH]; [done|].
  rewrite omap_cons. simpl. destruct (h !! l) as [c|]; [|done]. simpl.
  by destruct (Cell.id c === k).
Qed.

(** [find] reads only ids: heaps with the same ids give the same
    references. *)
Lemma find_ref_ids h1 h2 ls k :
  (∀ l, Cell.id <$> h1 !! l = Cell.id <$> h2 !! l) →
  fst <$> find_ref h1 ls k = fst <$> find_ref h2 ls k.
Proof.
  intros Hids. induction ls as [|l ls IH]; [done|]. simpl.
  specialize (Hids l).
  destruct (h1 !! l) as [c1|], (h2 !! l) as [c2|]; simplify_eq/=; [|done].
  rewrite Hids. by destruct (Cell.id c2 === k).
Qed.

Lemma ids_alter_set occ pid l h l' :
  Cell.id <$> alter (set_occupancy occ pid) l h !! l' = Cell.id <$> h !! l'.
Proof.
  rewrite lookup_alter. case_decide; [|done]. subst. by destruct (h !! l').
Qed.

(** ** Writing through a reference *)

(** Writing through the reference [find] returned is [update_first] on
    the array's values, when the array holds no address twice. *)
Lemma view_alter_found f h ls k l c :
  NoDup ls → find_ref h ls k = Some (l, c) → (∀ c, Cell.id (f c) = Cell.id c) →
  view (alter f l h) ls = update_first k f (view h ls).
Proof.
  intros Hnd Hfind Hf. induction ls as [|l0 ls IH]; [done|].
  apply NoDup_cons in Hnd as [Hl0 Hnd]. unfold view in *. simpl in Hfind.
  rewrite !omap_cons.
  destruct (h !! l0) as [c0|] eqn:E.
  - destruct (js_strict_eq_reflect (Cell.id c0) k) as [Hk|Hk].
    + injection Hfind as <- <-. rewrite lookup_alter_eq, E. simpl.
      rewrite Hk, js_strict_eq_refl. f_equal. by apply view_alter_notin.
    + destruct (find_ref_Some _ _ _ _ _ Hfind) as (Hl & _).
      rewrite lookup_alter_ne by set_solver. rewrite E. simpl.
      rewrite (proj2 (js_strict_eq_false _ _) Hk). f_equal. by apply IH.
  - destruct (find_ref_Some _ _ _ _ _ Hfind) as (Hl & _).
    rewrite lookup_alter_ne by set_solver. rewrite E. by apply IH.
Qed.

Lemma write_cons occ pid l affected h :
  write occ pid (l :: affected) h = write occ pid affected (alter (set_occupancy occ pid) l h).
Proof. done. Qed.

Lemma ids_write occ pid affected h l :
  Cell.id <$> write occ pid affected h !! l = Cell.id <$> h !! l.
Proof.
  revert h. induction affected as [|l' affected IH]; intros h; [done|].
  by rewrite write_cons, IH, ids_alter_set.
Qed.

Lemma write_is_Some occ pid affected h l :
  is_Some (write occ pid affected h !! l) ↔ is_Some (h !! l).
Proof.
  rewrite <- !(fmap_is_Some Cell.id). by rewrite ids_write.
Qed.

Lemma view_write_notin occ pid affected h ls :
  (∀ l, l ∈ affected → l ∉ ls) → view (write occ pid affected h) ls = view h ls.
Proof.
  revert h. induction affected as [|l affected IH]; intros h Hdis; [done|].
  rewrite write_cons, IH by set_solver. apply view_alter_notin. apply Hdis. set_solver.
Qed.

(** The write loop on the references the resolver found is the write
    loop of [Placement.v] on the cells it found. *)
Lemma view_write occ pid h0 h ls ids :
  NoDup ls → (∀ l, Cell.id <$> h !! l = Cell.id <$> h0 !! l) →
  view (write occ pid (omap (λ k, fst <$> find_ref h0 ls k) ids) h) ls =
  write_cells occ pid (omap (find_by_id (view h0 ls)) ids) (view h ls).
Proof.
  intros Hnd. revert h. induction ids as [|k ids IH]; intros h Hids; [done|].
  rewrite !omap_cons, find_ref_view.
  destruct (find_ref h0 ls k) as [[l c0]|] eqn:E;
    cbn [fmap option_fmap option_map fst snd]; [|by apply IH].
  destruct (find_ref_Some _ _ _ _ _ E) as (_ & _ & Hk).
  pose proof (find_ref_ids h h0 ls k Hids) as Hh. rewrite E in Hh.
  destruct (find_ref h ls k) as [[l' c]|] eqn:E'; [|discriminate Hh].
  injection Hh as ->.
  rewrite write_cons, write_cells_cons, IH by (intros l'; by rewrite ids_alter_set).
  rewrite Hk. f_equal. by eapply view_alter_found.
Qed.
(** ** Each action on [getboardState] *)

Lemma findOccupiedCells_spec_h shape h ls a :
  findOccupiedCells shape h ls a =
  omap (λ k, fst <$> find_ref h ls k) (covered_ids shape (Cell.rowIndex a) (Cell.colIndex a)).
Proof. unfold findOccupiedCells. by rewrite scan_shape_spec. Qed.

Lemma findOccupiedCells_in shape h ls a l : l ∈ findOccupiedCells shape h ls a → l ∈ ls.
Proof.
  rewrite findOccupiedCells_spec_h. intros (k & _ & Hk)%list_elem_of_omap.
  destruct (find_ref h ls k) as [[l' c]|] eqn:E; simplify_eq/=.
  by apply find_ref_Some in E as (? & _).
Qed.

Lemma view_findOccupiedCells shape h ls a :
  view h (findOccupiedCells shape h ls a) = Coverage.findOccupiedCells shape (view h ls) a.
Proof.
  rewrite findOccupiedCells_spec_h, Coverage.findOccupiedCells_spec.
  induction (covered_ids _ _ _) as [|k ids IH]; [done|].
  rewrite !omap_cons, find_ref_view.
  destruct (find_ref h ls k) as [[l c]|] eqn:E; cbn [fmap option_fmap option_map fst snd];
    [|exact IH].
  unfold view. rewrite omap_cons. apply find_ref_Some in E as (_ & -> & _). f_equal. exact IH.
Qed.

Lemma find_ref_anchor_view h ls a :
  find_by_anchor (view h ls) a = snd <$> find_ref_anchor h ls a.
Proof. destruct a; [apply find_ref_view|done]. Qed.

Lemma canPlay_refines s p k : canPlay s p k = Legality.canPlay (getboardState s) p k.
Proof.
  unfold canPlay, Legality.canPlay, getboardState. rewrite find_ref_view.
  destruct (find_ref (heap s) (boardState s) k) as [[l a]|];
    cbn [fmap option_fmap option_map fst snd]; [|done].
  by rewrite view_findOccupiedCells.
Qed.

Lemma placePiece_refines s p k :
  NoDup (boardState s) → getboardState (placePiece s p k) = Placement.placePiece (getboardState s) p k.
Proof.
  intros Hnd. unfold placePiece, Placement.placePiece, getboardState. rewrite find_ref_view.
  destruct (find_ref (heap s) (boardState s) k) as [[l a]|];
    cbn [fmap option_fmap option_map fst snd heap boardState]; [|done].
  rewrite findOccupiedCells_spec_h, Coverage.findOccupiedCells_spec. by apply view_write.
Qed.

Lemma removePiece_refines s p :
  NoDup (boardState s) → getboardState (removePiece s p) = Placement.removePiece (getboardState s) p.
Proof.
  intros Hnd. unfold removePiece, Placement.removePiece, getboardState.
  rewrite find_ref_anchor_view.
  destruct (find_ref_anchor (heap s) (boardState s) _) as [[l a]|];
    cbn [fmap option_fmap option_map fst snd heap boardState]; [|done].
  rewrite findOccupiedCells_spec_h, Coverage.findOccupiedCells_spec. by apply view_write.
Qed.

(** ** The invariant and the initial snapshot *)

Lemma wf_cur_NoDup s : wf s → NoDup (boardState s).
Proof. intros (Hnd & _ & _). by apply NoDup_app in Hnd as (_ & _ & ?). Qed.

Lemma wf_write s occ pid affected :
  wf s → wf (mk (write occ pid affected (heap s)) (next_loc s) (initBoardState s) (boardState s)).
Proof.
  intros (Hnd & Halloc & Hbound). split_and!; simpl; [done|..].
  - intros l Hl. rewrite write_is_Some. auto.
  - intros l Hl. rewrite write_is_Some in Hl. auto.
Qed.

(** A write to cells of [boardState] leaves [initBoardState] alone. *)
Lemma initial_write s occ pid shape a :
  wf s →
  initBoard (mk (write occ pid (findOccupiedCells shape (heap s) (boardState s) a) (heap s))
                (next_loc s) (initBoardState s) (boardState s)) = initBoard s.
Proof.
  intros (Hnd & _ & _). unfold initBoard. cbn [heap initBoardState].
  apply view_write_notin. intros l Hl%findOccupiedCells_in Hinit.
  apply NoDup_app in Hnd as (_ & Hdis & _). by apply (Hdis l).
Qed.

Lemma placePiece_wf_initial s p k :
  wf s → wf (placePiece s p k) ∧ initBoard (placePiece s p k) = initBoard s.
Proof.
  intros Hwf. unfold placePiece.
  destruct (find_ref (heap s) (boardState s) k) as [[l a]|]; [|done].
  split; [by apply wf_write|by apply initial_write].
Qed.

Lemma removePiece_wf_initial s p :
  wf s → wf (removePiece s p) ∧ initBoard (removePiece s p) = initBoard s.
Proof.
  intros Hwf. unfold removePiece.
  destruct (find_ref_anchor (heap s) (boardState s) _) as [[l a]|]; [|done].
  split; [by apply wf_write|by apply initial_write].
Qed.

Lemma resetGame_spec s :
  wf s →
  getboardState (resetGame s) = initBoard s ∧ initBoard (resetGame s) = initBoard s ∧
  wf (resetGame s).
Proof.
  intros (Hnd & Halloc & Hbound). unfold resetGame.
  destruct (alloc (heap s) (next_loc s) (json_clone (initBoard s))) as [[h' n'] cur] eqn:E.
  destruct (alloc_spec _ _ _ _ _ _ E) as (Hn & Hls & Hnd' & Hbelow & Hview & Hdom & Hal).
  assert (∀ l, l ∈ initBoardState s → l < next_loc s) as Hinit
    by (intros l Hl; apply Hbound, Halloc; set_solver).
  split_and!.
  - unfold getboardState. simpl. by rewrite Hview, json_clone_id.
  - unfold initBoard. simpl. apply view_ext. intros l Hl. apply Hbelow, Hinit, Hl.
  - split_and!; simpl.
    + apply NoDup_app in Hnd as (Hnd1 & _ & _). apply NoDup_app. split_and!; [done| |done].
      intros l Hl Hc. apply Hls in Hc. apply Hinit in Hl. lia.
    + intros l [Hl|Hl]%elem_of_app.
      * rewrite Hbelow by (by apply Hinit). apply Halloc. set_solver.
      * apply Hal. by apply Hls.
    + intros l Hl. destruct (Hdom l Hl) as [Hs|?]; [apply Hbound in Hs|]; lia.
Qed.

Lemma setboardState_spec s b :
  getboardState (setboardState s b) = b ∧ initBoard (setboardState s b) = b ∧
  (wf s → wf (setboardState s b)).
Proof.
  unfold setboardState.
  destruct (alloc (heap s) (next_loc s) (json_clone b)) as [[h1 n1] init] eqn:E1.
  destruct (alloc h1 n1 (json_clone b)) as [[h2 n2] cur] eqn:E2.
  destruct (alloc_spec _ _ _ _ _ _ E1) as (Hn1 & Hls1 & Hnd1 & Hbelow1 & Hview1 & Hdom1 & Hal1).
  destruct (alloc_spec _ _ _ _ _ _ E2) as (Hn2 & Hls2 & Hnd2 & Hbelow2 & Hview2 & Hdom2 & Hal2).
  split_and!.
  - unfold getboardState. simpl. by rewrite Hview2, json_clone_id.
  - unfold initBoard. simpl. rewrite <- (json_clone_id b), <- Hview1.
    apply view_ext. intros l Hl. apply Hbelow2. apply Hls1 in Hl. lia.
  - intros (_ & _ & Hbound). split_and!; simpl.
    + apply NoDup_app. split_and!; [done| |done].
      intros l Hl Hc. apply Hls1 in Hl. apply Hls2 in Hc. lia.
    + intros l [Hl|Hl]%elem_of_app.
      * apply Hls1 in Hl. rewrite Hbelow2 by lia. apply Hal1. lia.
      * apply Hal2. by apply Hls2.
    + intros l Hl. destruct (Hdom2 l Hl) as [Hs|?]; [|lia].
      destruct (Hdom1 l Hs) as [Hs'|?]; [apply Hbound in Hs'|]; lia.
Qed.

(** ** Writes through the getter's array *)

Lemma view_length h ls : (∀ l, l ∈ ls → is_Some (h !! l)) → length (view h ls) = length ls.
Proof.
  unfold view. induction ls as [|l ls IH]; intros Hls; [done|].
  rewrite omap_cons. destruct (Hls l) as [c ->]; [set_solver|]. simpl.
  rewrite IH; [done|]. set_solver.
Qed.

(** Writing through the [i]-th reference of an array without repeated
    addresses changes the [i]-th value it denotes and no other. *)
Lemma view_alter_index f h ls i l :
  NoDup ls → ls !! i = Some l → (∀ l', l' ∈ ls → is_Some (h !! l')) →
  view (alter f l h) ls = alter f i (view h ls).
Proof.
  revert i. induction ls as [|l0 ls IH]; intros i Hnd Hi Hls; [done|].
  apply NoDup_cons in Hnd as [Hl0 Hnd].
  destruct (Hls l0) as [c0 E]; [set_solver|].
  unfold view. rewrite !omap_cons, E. fold (view (alter f l h) ls) (view h ls).
  destruct i as [|i]; simpl in Hi.
  - injection Hi as <-. rewrite lookup_alter_eq, E. simpl. f_equal. by apply view_alter_notin.
  - rewrite lookup_alter_ne by (intros ->; apply Hl0; by eapply list_elem_of_lookup_2).
    rewrite E. simpl. f_equal. apply IH; [done|done|set_solver].
Qed.

Lemma caller_write_spec s i f :
  wf s →
  match caller_write s i f with
  | Some s' => getboardState s' = alter f i (getboardState s) ∧
               initBoard s' = initBoard s ∧ wf s'
  | None => (length (getboardState s) ≤ i)%nat
  end.
Proof.
  intros (Hnd & Halloc & Hbound). unfold caller_write, getboardState_ref.
  destruct (boardState s !! i) as [l|] eqn:Hi.
  - assert (l ∈ boardState s) as Hl by (by eapply list_elem_of_lookup_2).
    apply NoDup_app in Hnd as Hnd'. destruct Hnd' as (_ & Hdis & Hcur).
    split_and!.
    + unfold getboardState. simpl. apply view_alter_index; [done|done|].
      intros l' ?. apply Halloc. set_solver.
    + unfold initBoard. simpl. apply view_alter_notin. intros Hin. by apply (Hdis l).
    + split_and!; simpl; [done| |].
      * intros l' Hl'. apply lookup_alter_is_Some. by apply Halloc.
      * intros l' Hl'%lookup_alter_is_Some. by apply Hbound.
  - unfold getboardState. rewrite view_length by (intros l' ?; apply Halloc; set_solver).
    by apply lookup_ge_None.
Qed.

Lemma empty_wf_h : wf empty.
Proof. split_and!; simpl; [constructor|set_solver|intros l [? Hl]; done]. Qed.
End Store.

(** ** The store implements the interface *)

#[export] Instance store_engine : BoardEngine Store.t := {|
  engine_wf := Store.wf;
  eng_empty := Store.empty;
  eng_getboardState := Store.getboardState;
  eng_initBoard := Store.initBoard;
  eng_setboardState := Store.setboardState;
  eng_canPlay := Store.canPlay;
  eng_placePiece := Store.placePiece;
  eng_removePiece := Store.removePiece;
  eng_checkWinner := Store.checkWinner;
  eng_resetGame := Store.resetGame
|}.

#[export] Instance store_engine_laws : BoardEngineLaws Store.t.
Proof.
  split; cbn [engine_wf eng_empty eng_getboardState eng_initBoard eng_setboardState
              eng_canPlay eng_placePiece eng_removePiece eng_checkWinner eng_resetGame
              store_engine].
  - apply Store.empty_wf_h.
  - done.
  - done.
  - intros s b. apply Store.setboardState_spec.
  - intros s b. apply Store.setboardState_spec.
  - intros s b. apply Store.setboardState_spec.
  - intros s p k _. apply Store.canPlay_refines.
  - intros s p k Hwf. by apply Store.placePiece_wf_initial.
  - intros s p k Hwf. by apply Store.placePiece_refines, Store.wf_cur_NoDup.
  - intros s p k Hwf. by apply Store.placePiece_wf_initial.
  - intros s p Hwf. by apply Store.removePiece_wf_initial.
  - intros s p Hwf. by apply Store.removePiece_refines, Store.wf_cur_NoDup.
  - intros s p Hwf. by apply Store.removePiece_wf_initial.
  - done.
  - intros s Hwf. by apply Store.resetGame_spec.
  - intros s Hwf. by apply Store.resetGame_spec.
  - intros s Hwf. by apply Store.resetGame_spec.
Qed.

(** ** Callers holding the getter's array *)

(** What a caller of the store does: call an action, or write through
    the array [getboardState] returned. *)
Inductive caller_op :=
  | CAction (a : action)
  | CWrite (i : nat) (f : Cell.t → Cell.t).

Definition caller_step (s : Store.t) (o : caller_op) : option Store.t :=
  match o with
  | CAction a => Some (eng_step s a)
  | CWrite i f => Store.caller_write s i f
  end.

(** A run stops at the first [TypeError]. *)
Fixpoint caller_run (s : Store.t) (ops : list caller_op) : option Store.t :=
  match ops with
  | [] => Some s
  | o :: ops' => caller_step s o ≫= λ s', caller_run s' ops'
  end.

(** [setboardState] replaces the layout; the other calls keep it. *)
Definition reinitializes (o : caller_op) : bool :=
  match o with CAction (ASet _) => true | _ => false end.

(** ** Sequences of calls *)

Lemma store_step_refines (s : Store.t) (a : action) :
  Store.wf s →
  Store.wf (eng_step s a) ∧
  (Store.getboardState (eng_step s a), Store.initBoard (eng_step s a)) =
    snapshot_step (Store.getboardState s, Store.initBoard s) a.
Proof.
  intros Hwf. destruct a as [b|p k|p|]; cbn [eng_step store_engine eng_setboardState
    eng_placePiece eng_removePiece eng_resetGame snapshot_step fst snd].
  - destruct (Store.setboardState_spec s b) as (-> & -> & Hw). auto.
  - destruct (Store.placePiece_wf_initial s p k Hwf) as [? ->].
    rewrite Store.placePiece_refines by (by apply Store.wf_cur_NoDup). auto.
  - destruct (Store.removePiece_wf_initial s p Hwf) as [? ->].
    rewrite Store.removePiece_refines by (by apply Store.wf_cur_NoDup). auto.
  - destruct (Store.resetGame_spec s Hwf) as (-> & -> & ?). auto.
Qed.

Lemma store_run_wf (s : Store.t) acts : Store.wf s → Store.wf (eng_run s acts).
Proof.
  revert s. induction acts as [|a acts IH]; intros s Hwf; [done|].
  apply IH. by apply store_step_refines.
Qed.

(** C4: the heap store refines the snapshot semantics: from a state with
    no shared or dangling reference, after any sequence of
    [setboardState], [placePiece], [removePiece] and [resetGame] calls,
    the cells [getboardState] shows and the initial snapshot are those
    the snapshot definitions compute, and the invariant still holds. *)
Theorem store_refines_snapshots (s : Store.t) (acts : list action) :
  Store.wf s →
  Store.wf (eng_run s acts) ∧
  (Store.getboardState (eng_run s acts), Store.initBoard (eng_run s acts)) =
    snapshot_run (Store.getboardState s, Store.initBoard s) acts.
Proof.
  revert s. induction acts as [|a acts IH]; intros s Hwf; [done|].
  destruct (store_step_refines s a Hwf) as [Hwf' Hst].
  destruct (IH _ Hwf') as [? Hrun]. split; [done|].
  unfold eng_run, snapshot_run in *. simpl. rewrite <- Hst. exact Hrun.
Qed.

Lemma store_refines_snapshots_witness :
  let acts := [ASet calendar_board; APlace (Piece.mk 1 [[1; 1]] None) 1; AReset] in
  Store.wf Store.empty ∧
  (Store.getboardState (eng_run Store.empty acts), Store.initBoard (eng_run Store.empty acts)) =
    (calendar_board, calendar_board).
Proof.
  intros acts. split; [apply Store.empty_wf_h|].
  rewrite (proj2 (store_refines_snapshots Store.empty acts Store.empty_wf_h)).
  vm_compute. reflexivity.
Defined.

(** §3 and §9 of the spec: the two snapshots never share a cell
    object. From the store's initial state, after any sequence of calls,
    no reference occurs twice in [initBoardState] and [boardState]
    together, and every reference points at an object. *)
Theorem store_snapshots_never_alias acts :
  let s := eng_run Store.empty acts in
  NoDup (Store.initBoardState s ++ Store.boardState s) ∧
  ∀ l, l ∈ Store.initBoardState s ++ Store.boardState s → is_Some (Store.heap s !! l).
Proof.
  intros s. destruct (store_run_wf Store.empty acts Store.empty_wf_h) as (? & ? & _). done.
Qed.

Lemma caller_step_inv s o s' :
  Store.wf s → reinitializes o = false → caller_step s o = Some s' →
  Store.wf s' ∧ Store.initBoard s' = Store.initBoard s.
Proof.
  intros Hwf Hre. destruct o as [a|i f]; simpl.
  - intros [= <-]. destruct (store_step_refines s a Hwf) as [Hwf' Hst].
    split; [done|]. destruct a; simplify_eq/=; congruence.
  - pose proof (Store.caller_write_spec s i f Hwf) as Hw.
    destruct (Store.caller_write s i f) as [s''|]; [|done]. intros [= <-]. tauto.
Qed.

Lemma caller_run_inv s ops s' :
  Store.wf s → forallb (negb ∘ reinitializes) ops = true → caller_run s ops = Some s' →
  Store.wf s' ∧ Store.initBoard s' = Store.initBoard s.
Proof.
  revert s. induction ops as [|o ops IH]; intros s Hwf Hops; simpl; [by intros [= <-]|].
  apply andb_true_iff in Hops as [Ho Hops]. apply negb_true_iff in Ho.
  destruct (caller_step s o) as [s1|] eqn:E; [|done]. simpl. intros Hrun.
  destruct (caller_step_inv s o s1 Hwf Ho E) as [Hwf1 Hi1].
  destruct (IH s1 Hwf1 Hops Hrun) as [? Hi]. split; [done|]. by rewrite Hi, Hi1.
Qed.

(** C6: the getter hands out the live board: from every state the store
    reaches, a caller's write [store.getboardState[i].field = v] changes
    cell [i] of the current board in place, as the store sees it, and
    leaves the initial snapshot untouched; past the end of the array it
    throws. *)
Theorem getter_aliases_live_board acts i f :
  let s := eng_run Store.empty acts in
  match Store.caller_write s i f with
  | Some s' => Store.getboardState s' = alter f i (Store.getboardState s) ∧
               Store.initBoard s' = Store.initBoard s
  | None => (length (Store.getboardState s) ≤ i)%nat
  end.
Proof.
  intros s. pose proof (Store.caller_write_spec s i f (store_run_wf _ acts Store.empty_wf_h)) as Hw.
  destruct (Store.caller_write s i f); tauto.
Qed.

(** C5: §8 of the spec: mutating the current board never alters the
    target of a later [resetGame()]. After [setboardState(b)], any
    sequence of [placePiece], [removePiece], [resetGame] calls and writes
    through the array the getter returned that does not throw leaves the
    initial snapshot equal to [b], and [resetGame()] then restores [b]. *)
Theorem reset_target_invariant b ops s :
  forallb (negb ∘ reinitializes) ops = true →
  caller_run (Store.setboardState Store.empty b) ops = Some s →
  Store.initBoard s = b ∧ Store.getboardState (Store.resetGame s) = b.
Proof.
  intros Hops Hrun. destruct (Store.setboardState_spec Store.empty b) as (_ & Hinit & Hwf).
  destruct (caller_run_inv _ _ _ (Hwf Store.empty_wf_h) Hops Hrun) as [Hwf' Hi].
  rewrite Hinit in Hi. split; [done|].
  destruct (Store.resetGame_spec s Hwf') as (-> & _). done.
Qed.

Lemma reset_target_invariant_witness :
  let ops := [CWrite 0 (set_occupancy true (Some 7)); CAction AReset;
              CWrite 1 (set_occupancy true (Some 8));
              CAction (APlace (Piece.mk 1 [[1; 1]] None) 10)] in
  let s := default Store.empty (caller_run (Store.setboardState Store.empty calendar_board) ops) in
  Store.initBoard s = calendar_board ∧ Store.getboardState (Store.resetGame s) = calendar_board.
Proof.
  intros ops s. apply (reset_target_invariant calendar_board ops s); [vm_compute; reflexivity|].
  vm_compute. reflexivity.
Defined.

