(* ===== verification/Game.v ===== *)
(** * A play session: the UI protocol over the store interface

    The store checks nothing itself: [placePiece] overwrites occupied
    cells and [removePiece] trusts the anchor it is given. The invariants
    of §3 of the spec (at most one piece on a cell; an occupied cell
    belongs to a placed piece that covers it) hold for the sessions in
    which the UI follows the protocol [play]: load a fresh layout, place
    a piece not yet on the board where [canPlay] allows it and record its
    anchor, remove a placed piece, or reset.

    Everything here is proved against [BoardEngineLaws] only, so it holds
    for the heap store of [Store.v] and for any other implementation of
    the interface. *)

From S2P Require Import Prelude Cells Layouts Coverage Legality Placement Winner Engine Store.
Import Coverage Legality Placement Winner.

Open Scope Z_scope.

(** ** Definitions *)

(** The ids of the cells a placed piece holds, recomputed from its
    recorded anchor as [removePiece] does. *)
Definition cover (b : Board) (p : Piece.t) : list Z :=
  match find_by_anchor b (Piece.anchorCell p) with
  | Some a => Cell.id <$> findOccupiedCells (Piece.shape p) b a
  | None => []
  end.

(** A layout as the UI loads it: unique ids, every cell free. *)
Definition fresh_layout (b : Board) : Prop :=
  NoDup (Cell.id <$> b) ∧
  Forall (λ c, Cell.isOccupied c = false ∧ Cell.pieceId c = None) b.

(** The board is tiled by the placed pieces [ps]. *)
Definition tiling (b : Board) (ps : list Piece.t) : Prop :=
  NoDup (Cell.id <$> b) ∧ NoDup (Piece.id <$> ps) ∧
  (∀ p, p ∈ ps → is_Some (find_by_anchor b (Piece.anchorCell p))) ∧
  (∀ c, c ∈ b →
     (∀ p, p ∈ ps → Cell.id c ∈ cover b p →
        Cell.isOccupied c = true ∧ Cell.pieceId c = Some (Piece.id p)) ∧
     (Cell.isOccupied c = false → Cell.pieceId c = None) ∧
     (Cell.isOccupied c = true → ∃ p, p ∈ ps ∧ Cell.id c ∈ cover b p)).

Section game.
Context {S : Type} `{BoardEngineLaws S}.

(** One call of the UI on the store, with the list of placed pieces it
    keeps. *)
Inductive play : S * list Piece.t → S * list Piece.t → Prop :=
  | play_set s ps b :
      fresh_layout b → play (s, ps) (eng_setboardState s b, [])
  | play_place s ps p k :
      eng_canPlay s p k = true → Piece.id p ∉ Piece.id <$> ps →
      play (s, ps) (eng_placePiece s p k, with_anchor p k :: ps)
  | play_remove s ps1 p ps2 :
      play (s, ps1 ++ p :: ps2) (eng_removePiece s p, ps1 ++ ps2)
  | play_reset s ps :
      play (s, ps) (eng_resetGame s, []).

(** A [removePiece] call on one of the placed pieces, and nothing else:
    the moves the player needs to clear the board. *)
Inductive play_remove_only : S * list Piece.t → S * list Piece.t → Prop :=
  | remove_only s ps1 p ps2 :
      play_remove_only (s, ps1 ++ p :: ps2) (eng_removePiece s p, ps1 ++ ps2).

Definition session_inv (g : S * list Piece.t) : Prop :=
  engine_wf g.1 ∧ fresh_layout (eng_initBoard g.1) ∧ tiling (eng_getboardState g.1) g.2.
End game.

(** ** Lemmas on covers and tilings *)

Lemma find_by_anchor_mark_ids occ pid ids (b : Board) a :
  find_by_anchor (mark_ids occ pid ids b) a =
  (λ c, if bool_decide (Cell.id c ∈ ids) then set_occupancy occ pid c else c)
    <$> find_by_anchor b a.
Proof. destruct a; [apply find_by_id_mark_ids|done]. Qed.

(** Covers are recomputed from geometry, which the writes never change. *)
Lemma cover_mark_ids occ pid ids (b : Board) q : cover (mark_ids occ pid ids b) q = cover b q.
Proof.
  unfold cover. rewrite find_by_anchor_mark_ids.
  destruct (find_by_anchor b _) as [a|]; simpl; [|done].
  apply findOccupiedCells_ids_skeleton; [apply skeleton_mark_ids|by case_bool_decide..].
Qed.

Lemma elem_of_mark_ids occ pid ids (b : Board) c' :
  c' ∈ mark_ids occ pid ids b ↔
  ∃ c, c ∈ b ∧ c' = if bool_decide (Cell.id c ∈ ids) then set_occupancy occ pid c else c.
Proof. unfold mark_ids. rewrite list_elem_of_fmap. naive_solver. Qed.

Lemma NoDup_fmap_inj_on {A B} (f : A → B) (l : list A) x y :
  NoDup (f <$> l) → x ∈ l → y ∈ l → f x = f y → x = y.
Proof.
  induction l as [|z l IH]; [set_solver|]. rewrite fmap_cons, NoDup_cons.
  intros [Hz Hnd] [->|Hx]%elem_of_cons [->|Hy]%elem_of_cons Hf; [done|..].
  - destruct Hz. rewrite Hf. by apply list_elem_of_fmap_2.
  - destruct Hz. rewrite <- Hf. by apply list_elem_of_fmap_2.
  - by apply IH.
Qed.

Lemma NoDup_piece_ids_remove (ps1 ps2 : list Piece.t) p :
  NoDup (Piece.id <$> ps1 ++ p :: ps2) →
  NoDup (Piece.id <$> ps1 ++ ps2) ∧ ∀ q, q ∈ ps1 ++ ps2 → Piece.id q ≠ Piece.id p.
Proof.
  rewrite !fmap_app, fmap_cons. intros Hnd.
  apply NoDup_app in Hnd as (Hnd1 & Hdis & Hnd2). apply NoDup_cons in Hnd2 as [Hp Hnd2].
  split.
  - apply NoDup_app. split_and!; [done| |done]. intros x Hx1 Hx2. apply (Hdis x Hx1). set_solver.
  - intros q [Hq|Hq]%elem_of_app Heq.
    + apply (Hdis (Piece.id q)); [by apply list_elem_of_fmap_2|]. rewrite Heq. set_solver.
    + apply Hp. rewrite <- Heq. by apply list_elem_of_fmap_2.
Qed.

Lemma tiling_fresh (b : Board) : fresh_layout b → tiling b [].
Proof.
  intros [Hnd Hfree]. split_and!; [done|constructor|set_solver|].
  intros c Hc. eapply Forall_forall in Hfree as [Hocc Hpid]; [|done].
  split_and!; [set_solver|done|]. by rewrite Hocc.
Qed.

Lemma tiling_place (b : Board) ps p k :
  tiling b ps → canPlay b p k = true → Piece.id p ∉ Piece.id <$> ps →
  tiling (placePiece b p k) (with_anchor p k :: ps).
Proof.
  intros (Hnd & Hpnd & Hanch & Hcells) Hcan Hfresh.
  destruct (proj1 (canPlay_true _ _ _) Hcan) as (a & Ha & Hfree).
  rewrite (placePiece_mark_ids _ _ _ _ Hnd Ha).
  set (ids := Cell.id <$> findOccupiedCells (Piece.shape p) b a).
  assert (cover b (with_anchor p k) = ids) as Hcov by (unfold cover; simpl; by rewrite Ha).
  assert (∀ c, c ∈ b → Cell.id c ∈ ids → cell_free c) as Hcf.
  { intros c Hc (cell & Heq & Hcell)%list_elem_of_fmap.
    assert (cell = c) as <-; [|by apply Hfree].
    eapply NoDup_ids_inj; [done| |done|done]. by eapply findOccupiedCells_subset. }
  split_and!.
  - by rewrite ids_mark_ids.
  - rewrite fmap_cons. by constructor.
  - intros q Hq. rewrite find_by_anchor_mark_ids, fmap_is_Some.
    apply elem_of_cons in Hq as [->|Hq]; [simpl; by rewrite Ha|by apply Hanch].
  - intros c' (c & Hc & ->)%elem_of_mark_ids. setoid_rewrite cover_mark_ids.
    destruct (Hcells c Hc) as (Hown & Hpid & Hocc).
    case_bool_decide as Hin; simpl.
    + destruct (Hcf c Hc Hin) as [Hc_free _]. split_and!; [|done|].
      * intros q [->|Hq]%elem_of_cons Hq'; [done|].
        destruct (Hown q Hq Hq') as [Hocc' _]. congruence.
      * intros _. exists (with_anchor p k). split; [set_solver|by rewrite Hcov].
    + split_and!; [|done|].
      * intros q [->|Hq]%elem_of_cons; [by rewrite Hcov|by apply Hown].
      * intros (q & Hq & Hqc)%Hocc. exists q. split; [set_solver|done].
Qed.

Lemma tiling_remove (b : Board) ps1 p ps2 :
  tiling b (ps1 ++ p :: ps2) → tiling (removePiece b p) (ps1 ++ ps2).
Proof.
  intros (Hnd & Hpnd & Hanch & Hcells).
  destruct (Hanch p ltac:(set_solver)) as [a Ha].
  assert (removePiece b p = mark_ids false None (cover b p) b) as ->.
  { unfold removePiece, cover. rewrite Ha. by apply write_cells_mark_ids. }
  destruct (NoDup_piece_ids_remove _ _ _ Hpnd) as [Hpnd' Hne].
  split_and!.
  - by rewrite ids_mark_ids.
  - done.
  - intros q Hq. rewrite find_by_anchor_mark_ids, fmap_is_Some. apply Hanch. set_solver.
  - intros c' (c & Hc & ->)%elem_of_mark_ids. setoid_rewrite cover_mark_ids.
    destruct (Hcells c Hc) as (Hown & Hpid & Hocc).
    case_bool_decide as Hin; simpl.
    + split_and!; [|done|done].
      intros q Hq Hqc. exfalso. apply (Hne q Hq).
      destruct (Hown q ltac:(set_solver) Hqc) as [_ Hq1].
      destruct (Hown p ltac:(set_solver) Hin) as [_ Hp1]. congruence.
    + split_and!; [intros q Hq; apply Hown; set_solver|done|].
      intros (q & Hq & Hqc)%Hocc. exists q. split; [|done].
      apply elem_of_app in Hq as [Hq|[->|Hq]%elem_of_cons]; set_solver.
Qed.

Section game_proofs.
Context {S : Type} `{BoardEngineLaws S}.

Lemma play_preserves (g g' : S * list Piece.t) : play g g' → session_inv g → session_inv g'.
Proof.
  intros Hplay (Hwf & Hinit & Htile).
  destruct Hplay as [s ps b Hb|s ps p k Hcan Hfresh|s ps1 p ps2|s ps];
    unfold session_inv; cbn [fst snd] in *.
  - split; [by apply set_wf|split; [by rewrite set_initial|]].
    rewrite set_current. by apply tiling_fresh.
  - rewrite canPlay_law in Hcan by done.
    split; [by apply place_wf|split; [by rewrite place_initial|]].
    rewrite place_current by done. by apply tiling_place.
  - split; [by apply remove_wf|split; [by rewrite remove_initial|]].
    rewrite remove_current by done. by apply tiling_remove.
  - split; [by apply reset_wf|split; [by rewrite reset_initial|]].
    rewrite reset_current by done. by apply tiling_fresh.
Qed.

Lemma rtc_play_preserves (g1 g2 : S * list Piece.t) :
  rtc play g1 g2 → session_inv g1 → session_inv g2.
Proof.
  induction 1 as [g|g1 g2 g3 Hstep _ IH]; [done|]. intros Hinv.
  apply IH. by eapply play_preserves.
Qed.

Lemma reachable_inv (g : S * list Piece.t) : rtc play (eng_empty, []) g → session_inv g.
Proof.
  intros Hr. eapply rtc_play_preserves; [exact Hr|].
  split; [apply empty_wf|split]; cbn [fst snd];
    [rewrite empty_initial|rewrite empty_current; apply tiling_fresh]; split; constructor.
Qed.
(** With no piece placed, a tiled board is free. *)
Lemma tiling_nil_free (b : Board) :
  tiling b [] → Forall (λ c, Cell.isOccupied c = false ∧ Cell.pieceId c = None) b.
Proof.
  intros (_ & _ & _ & Hcells). apply Forall_forall. intros c Hc.
  destruct (Hcells c Hc) as (_ & Hpid & Hocc).
  destruct (Cell.isOccupied c) eqn:E.
  - destruct (Hocc eq_refl) as (p & Hp & _). set_solver.
  - split; [done|by apply Hpid].
Qed.

(** Removing the listed pieces one by one from a reachable session. *)
Lemma remove_all_reachable (s : S) ps :
  rtc play (eng_empty, []) (s, ps) →
  ∃ s', rtc play_remove_only (s, ps) (s', []) ∧ rtc play (eng_empty, []) (s', []) ∧
        skeleton <$> eng_getboardState s' = skeleton <$> eng_getboardState s.
Proof.
  revert s. induction ps as [|p ps IH]; intros s Hr.
  - exists s. split_and!; [apply rtc_refl|done|done].
  - assert (Hstep : play (s, [] ++ p :: ps) (eng_removePiece s p, [] ++ ps)) by constructor.
    assert (Hrem : play_remove_only (s, [] ++ p :: ps) (eng_removePiece s p, [] ++ ps))
      by constructor.
    destruct (IH (eng_removePiece s p)) as (s' & Hs' & Hr' & Hsk); [by eapply rtc_r|].
    exists s'. split_and!; [by eapply rtc_l|done|].
    destruct (reachable_inv _ Hr) as (Hwf & _). cbn [fst] in Hwf.
    by rewrite Hsk, remove_current, skeleton_removePiece.
Qed.
End game_proofs.

(** ** Properties of every session *)

Section session.
Context {S : Type} `{BoardEngineLaws S}.

(** C2: in every session that follows the protocol, no cell is covered
    by two placed pieces. *)
Theorem session_no_overlap (s : S) ps p1 p2 c :
  rtc play (eng_empty, []) (s, ps) → p1 ∈ ps → p2 ∈ ps → c ∈ eng_getboardState s →
  Cell.id c ∈ cover (eng_getboardState s) p1 → Cell.id c ∈ cover (eng_getboardState s) p2 →
  p1 = p2.
Proof.
  intros Hr H1 H2 Hc Hc1 Hc2.
  destruct (reachable_inv _ Hr) as (_ & _ & _ & Hpnd & _ & Hcells).
  destruct (Hcells c Hc) as (Hown & _ & _).
  destruct (Hown p1 H1 Hc1) as [_ E1], (Hown p2 H2 Hc2) as [_ E2].
  eapply NoDup_fmap_inj_on; [exact Hpnd|done|done|congruence].
Qed.

(** C3: in every session that follows the protocol, a cell is occupied
    exactly when a placed piece covers it, its [pieceId] is then the id
    of that piece, and a free cell has no [pieceId]. *)
Theorem session_occupancy_exact (s : S) ps c :
  rtc play (eng_empty, []) (s, ps) → c ∈ eng_getboardState s →
  (Cell.isOccupied c = true ↔ ∃ p, p ∈ ps ∧ Cell.id c ∈ cover (eng_getboardState s) p) ∧
  (∀ p, p ∈ ps → Cell.id c ∈ cover (eng_getboardState s) p →
     Cell.pieceId c = Some (Piece.id p)) ∧
  (Cell.isOccupied c = false → Cell.pieceId c = None).
Proof.
  intros Hr Hc. destruct (reachable_inv _ Hr) as (_ & _ & _ & _ & _ & Hcells).
  destruct (Hcells c Hc) as (Hown & Hpid & Hocc). split_and!; [split|..].
  - exact Hocc.
  - intros (p & Hp & Hpc). by destruct (Hown p Hp Hpc).
  - intros p Hp Hpc. by destruct (Hown p Hp Hpc).
  - exact Hpid.
Qed.

(** In every session, [resetGame] discards every placement: the
    board it leaves is the initial snapshot, with every cell free and
    no [pieceId], and the snapshot itself is kept. *)
Theorem session_reset_clears (s : S) ps :
  rtc play (eng_empty, []) (s, ps) →
  eng_getboardState (eng_resetGame s) = eng_initBoard s ∧
  eng_initBoard (eng_resetGame s) = eng_initBoard s ∧
  Forall (λ c, Cell.isOccupied c = false ∧ Cell.pieceId c = None)
    (eng_getboardState (eng_resetGame s)).
Proof.
  intros Hr. destruct (reachable_inv _ Hr) as (Hwf & [_ Hfree] & _). cbn [fst] in *.
  rewrite reset_current, reset_initial by done. done.
Qed.

(** C11: liveness: from every session that follows the protocol the
    player can always clear the board by [removePiece] alone: a sequence
    of [removePiece] calls on the placed pieces, and no other call,
    reaches a session with no piece placed and every cell free, on the
    same layout. *)
Theorem session_can_clear (s : S) ps :
  rtc play (eng_empty, []) (s, ps) →
  ∃ s', rtc play_remove_only (s, ps) (s', []) ∧
        Forall (λ c, Cell.isOccupied c = false ∧ Cell.pieceId c = None) (eng_getboardState s') ∧
        skeleton <$> eng_getboardState s' = skeleton <$> eng_getboardState s.
Proof.
  intros Hr. destruct (remove_all_reachable s ps Hr) as (s' & Hs' & Hr' & Hsk).
  exists s'. split_and!; [done| |done].
  apply tiling_nil_free. exact (proj2 (proj2 (reachable_inv _ Hr'))).
Qed.
End session.

(** ** A session on the heap store *)

Definition domino : Piece.t := Piece.mk 1 [[1; 1]] None.

(** The store after loading the calendar board and placing a domino on
    [JAN], [FEB]. *)
Definition store1 : Store.t :=
  eng_placePiece (eng_setboardState (eng_empty (S:=Store.t)) calendar_board) domino 1.

Definition jan1 : Cell.t := set_occupancy true (Some 1) (mk_cell 0 0 month "JAN").

Lemma session1_reachable : rtc play (eng_empty, []) (store1, [with_anchor domino 1]).
Proof.
  unfold store1.
  eapply rtc_l; [apply (play_set _ _ calendar_board)|].
  { split; [apply calendar_board_wf|vm_decide]. }
  eapply rtc_l; [apply (play_place _ _ domino 1)|].
  - vm_compute. reflexivity.
  - apply not_elem_of_nil.
  - apply rtc_refl.
Qed.

Lemma jan1_in_store1 : jan1 ∈ eng_getboardState store1.
Proof. vm_decide. Qed.

Lemma jan1_covered : Cell.id jan1 ∈ cover (eng_getboardState store1) (with_anchor domino 1).
Proof. vm_decide. Qed.

Lemma session_no_overlap_witness :
  (rtc play (eng_empty, []) (store1, [with_anchor domino 1]) ∧
   with_anchor domino 1 ∈ [with_anchor domino 1] ∧
   jan1 ∈ eng_getboardState store1 ∧
   Cell.id jan1 ∈ cover (eng_getboardState store1) (with_anchor domino 1)) ∧
  with_anchor domino 1 = with_anchor domino 1.
Proof.
  split; [split_and!; [apply session1_reachable|apply list_elem_of_here|
                       apply jan1_in_store1|apply jan1_covered]|].
  exact (session_no_overlap store1 _ _ _ jan1 session1_reachable
           (list_elem_of_here _ _) (list_elem_of_here _ _) jan1_in_store1
           jan1_covered jan1_covered).
Defined.

Lemma session_occupancy_exact_witness :
  (rtc play (eng_empty, []) (store1, [with_anchor domino 1]) ∧
   jan1 ∈ eng_getboardState store1) ∧
  Cell.pieceId jan1 = Some (Piece.id (with_anchor domino 1)).
Proof.
  split; [split; [apply session1_reachable|apply jan1_in_store1]|].
  destruct (session_occupancy_exact store1 _ jan1 session1_reachable jan1_in_store1)
    as (_ & Hown & _).
  apply Hown; [apply list_elem_of_here|apply jan1_covered].
Defined.

Lemma session_reset_clears_witness :
  rtc play (eng_empty, []) (store1, [with_anchor domino 1]) ∧
  eng_getboardState (eng_resetGame store1) = calendar_board.
Proof.
  split; [apply session1_reachable|].
  destruct (session_reset_clears store1 _ session1_reachable) as [-> _].
  vm_compute. reflexivity.
Defined.

Lemma session_can_clear_witness :
  ∃ s', rtc play_remove_only (store1, [with_anchor domino 1]) (s', []) ∧
        Forall (λ c, Cell.isOccupied c = false ∧ Cell.pieceId c = None) (eng_getboardState s') ∧
        skeleton <$> eng_getboardState s' = skeleton <$> eng_getboardState store1.
Proof. exact (session_can_clear store1 [with_anchor domino 1] session1_reachable). Defined.
